(** * A shallow embedding of the shp2imdf-converter backend pipeline

    The Python modules [detector], [generator], [validator], [autofix],
    [importer] and the export router are translated into Rocq definitions,
    one Module per source module.  Strings are ASCII [string]s; dict rows
    are the JSON-like [pyval] values of module [Py]; shapely geometry is an
    explicit record of operations ([Shapely]) that the validator receives. *)

From Stdlib Require Import String Ascii List ZArith QArith Qabs Bool Lia Sorted Permutation.
Import ListNotations.

Open Scope list_scope.

(** ** Characters and strings, as Python's ASCII string methods see them *)
Module Chars.

Definition code (c : ascii) : nat := nat_of_ascii c.

Definition is_digit (c : ascii) : bool := (48 <=? code c)%nat && (code c <=? 57)%nat.
Definition is_upper (c : ascii) : bool := (65 <=? code c)%nat && (code c <=? 90)%nat.
Definition is_lower (c : ascii) : bool := (97 <=? code c)%nat && (code c <=? 122)%nat.
Definition is_alpha (c : ascii) : bool := is_upper c || is_lower c.
Definition is_alnum (c : ascii) : bool := is_alpha c || is_digit c.

(** [str.isspace] on ASCII: \t \n \x0b \x0c \r, \x1c..\x1f and the space. *)
Definition is_space (c : ascii) : bool :=
  let n := code c in ((9 <=? n) && (n <=? 13)) || ((28 <=? n) && (n <=? 32)).

Definition to_upper (c : ascii) : ascii :=
  if is_lower c then ascii_of_nat (code c - 32) else c.
Definition to_lower (c : ascii) : ascii :=
  if is_upper c then ascii_of_nat (code c + 32) else c.

Fixpoint smap (f : ascii -> ascii) (s : string) : string :=
  match s with
  | EmptyString => EmptyString
  | String c t => String (f c) (smap f t)
  end.

(** [str.upper] and [str.lower]. *)
Definition upper (s : string) : string := smap to_upper s.
Definition lower (s : string) : string := smap to_lower s.

Fixpoint lstrip_l (l : list ascii) : list ascii :=
  match l with
  | c :: t => if is_space c then lstrip_l t else l
  | [] => []
  end.

(** [str.strip()]. *)
Definition strip (s : string) : string :=
  string_of_list_ascii
    (rev (lstrip_l (rev (lstrip_l (list_ascii_of_string s))))).

(** [needle in haystack] for strings. *)
Definition contains (needle hay : string) : bool :=
  match index 0 needle hay with Some _ => true | None => false end.

(** [s[:n]]. *)
Definition take (n : nat) (s : string) : string := substring 0 n s.

(** [str(n)] for integers. *)
Fixpoint digits_of_pos (fuel : nat) (n : N) (acc : string) : string :=
  match fuel with
  | O => acc
  | S f =>
      let d := N.modulo n 10 in
      let acc' := String (ascii_of_N (48 + d)) acc in
      if (n <? 10)%N then acc' else digits_of_pos f (N.div n 10) acc'
  end.
Definition str_N (n : N) : string := digits_of_pos (S (N.to_nat (N.log2 n))) n EmptyString.
Definition str_nat (n : nat) : string := str_N (N.of_nat n).
Definition str_Z (z : Z) : string :=
  if (z <? 0)%Z then String "-" (str_N (Z.to_N (- z))) else str_N (Z.to_N z).

(** [int(ds)] of a run of ASCII digits. *)
Definition digit_value (c : ascii) : Z := Z.of_nat (code c - 48).
Definition digits_value (ds : list ascii) : Z :=
  fold_left (fun acc c => acc * 10 + digit_value c)%Z ds 0%Z.

Definition str_lt (a b : string) : bool :=
  match String.compare a b with Lt => true | _ => false end.

End Chars.

(** ** schemas.py: the records the claims read *)
Module Schemas.

(** [ImportedFile], the per-file descriptor. *)
Record ImportedFile := {
  stem : string;
  geometry_type : string;
  detected_type : option string;
  detected_level : option Z;
  level_name : option string;
  short_name : option string;
  outdoor : bool;
  level_category : string
}.

(** [ImportedFile(stem=..., geometry_type="Polygon", detected_type=...,
    detected_level=...)] with the model's defaults for the other fields. *)
Definition imported_file (s : string) (t : option string) (lvl : option Z) : ImportedFile :=
  {| stem := s; geometry_type := "Polygon"; detected_type := t; detected_level := lvl;
     level_name := None; short_name := None; outdoor := false;
     level_category := "unspecified" |}.

(** [LearningSuggestion] *)
Record LearningSuggestion := {
  source_stem : string;
  keyword : string;
  feature_type : string;
  affected_stems : list string;
  message : string
}.

(** [CleanupSummary] *)
Record CleanupSummary := {
  multipolygons_exploded : Z;
  rings_closed : Z;
  features_reoriented : Z;
  empty_features_dropped : Z;
  coordinates_rounded : Z
}.

End Schemas.

(** ** detector.py *)
Module Detector.
Import Chars Schemas.

(** [[^A-Z0-9]] on the upper-cased stem. *)
Definition delim (c : ascii) : bool := negb (is_upper c || is_digit c).

(** [([^A-Z0-9]|$)]: what follows a token. *)
Definition end_ok (rest : list ascii) : bool :=
  match rest with [] => true | c :: _ => delim c end.

(** The maximal run of digits [\d+] at the head of a list. *)
Fixpoint span_digits (s : list ascii) : list ascii * list ascii :=
  match s with
  | c :: t => if is_digit c then let (ds, r) := span_digits t in (c :: ds, r) else ([], s)
  | [] => ([], [])
  end.

(** A pattern tried at one position, right after [(^|[^A-Z0-9])]; [\d+] is
    greedy and a shorter run would leave a digit before [([^A-Z0-9]|$)], so
    the maximal run is the only one that can match. *)
Definition digits_then_end (t : list ascii) : option Z :=
  let (ds, rest) := span_digits t in
  match ds with
  | [] => None
  | _ => if end_ok rest then Some (digits_value ds) else None
  end.

(** [s] starts with [w]; the rest of [s] after it. *)
Fixpoint strip_prefix (w s : list ascii) : option (list ascii) :=
  match w, s with
  | [], _ => Some s
  | a :: w', b :: s' => if Ascii.eqb a b then strip_prefix w' s' else None
  | _ :: _, [] => None
  end.

(** The literal [w] followed by [([^A-Z0-9]|$)]. *)
Definition word_then_end (w s : list ascii) : bool :=
  match strip_prefix w s with Some r => end_ok r | None => false end.

(** [B(\d+)([^A-Z0-9]|$)] *)
Definition m_basement (s : list ascii) : option Z :=
  match strip_prefix ["B"%char] s with Some t => digits_then_end t | None => None end.

(** [-(\d+)([^A-Z0-9]|$)] *)
Definition m_negative (s : list ascii) : option Z :=
  match strip_prefix ["-"%char] s with Some t => digits_then_end t | None => None end.

(** [(GF|GH|G)([^A-Z0-9]|$)]: the alternatives in order. *)
Definition m_ground (s : list ascii) : option Z :=
  if word_then_end ["G"%char; "F"%char] s || word_then_end ["G"%char; "H"%char] s
     || word_then_end ["G"%char] s
  then Some 0%Z else None.

(** [0([^A-Z0-9]|$)] *)
Definition m_zero (s : list ascii) : option Z :=
  if word_then_end ["0"%char] s then Some 0%Z else None.

(** [(\d+)(F)?([^A-Z0-9]|$)]: [F?] is tried with the [F] first, then without. *)
Definition m_floor (s : list ascii) : option Z :=
  let (ds, rest) := span_digits s in
  match ds with
  | [] => None
  | _ => if word_then_end ["F"%char] rest || end_ok rest then Some (digits_value ds) else None
  end.

(** [re.search(r"(^|[^A-Z0-9])P", u)]: positions are tried left to right; a
    position qualifies when it is the start of the string ([^]) or follows a
    character of [[^A-Z0-9]]; the first position where [P] matches wins.
    [prev_ok] says whether the current position qualifies. *)
Fixpoint search (m : list ascii -> option Z) (prev_ok : bool) (s : list ascii) : option Z :=
  match s with
  | [] => None
  | c :: t =>
      match (if prev_ok then m s else None) with
      | Some v => Some v
      | None => search m (delim c) t
      end
  end.

Definition upper_l (stem : string) : list ascii := list_ascii_of_string (upper stem).

(** [detect_level_ordinal] *)
Definition detect_level_ordinal (stem : string) : option Z :=
  let normalized := upper_l stem in
  match search m_basement true normalized with
  | Some n => Some (- n)%Z
  | None =>
      match search m_negative true normalized with
      | Some n => Some (- n)%Z
      | None =>
          match search m_ground true normalized with
          | Some _ => Some 0%Z
          | None =>
              match search m_zero true normalized with
              | Some _ => Some 0%Z
              | None =>
                  match search m_floor true normalized with
                  | Some n => Some (n - 1)%Z
                  | None => None
                  end
              end
          end
      end
  end.

(** The ordinal rule in the words of the specification, over the upper-cased
    stem: a token is delimited on its left by the start or a character outside
    [A-Z0-9], and on its right by the end or such a character. *)
Definition left_delim (pre : list ascii) : Prop :=
  pre = [] \/ exists p c, pre = p ++ [c] /\ delim c = true.
Definition right_delim (post : list ascii) : Prop := end_ok post = true.
Definition digit_run (ds : list ascii) : Prop := ds <> [] /\ forall c, In c ds -> is_digit c = true.

Definition tok_marker (mark : ascii) (u : list ascii) (n : Z) : Prop :=
  exists pre ds post, u = pre ++ mark :: ds ++ post /\ left_delim pre /\ digit_run ds
    /\ right_delim post /\ n = digits_value ds.
Definition tok_word (ws : list (list ascii)) (u : list ascii) : Prop :=
  exists pre w post, u = pre ++ w ++ post /\ In w ws /\ left_delim pre /\ right_delim post.
Definition tok_floor (u : list ascii) (n : Z) : Prop :=
  exists pre ds f post, u = pre ++ ds ++ f ++ post /\ (f = [] \/ f = ["F"%char])
    /\ left_delim pre /\ digit_run ds /\ right_delim post /\ n = digits_value ds.

Definition basement_tok := tok_marker "B"%char.
Definition negative_tok := tok_marker "-"%char.
Definition ground_tok := tok_word [["G"%char; "F"%char]; ["G"%char; "H"%char]; ["G"%char]].
Definition zero_tok := tok_word [["0"%char]].

(** Spec: basement [B<n>] gives [-n]; else an explicit negative number gives
    that value; else a ground marker or a bare [0] gives [0]; else a floor
    number [<n>] or [<n>F] gives [n-1]; else none. *)
Inductive ordinal_spec (u : list ascii) : option Z -> Prop :=
| OS_basement n : basement_tok u n -> ordinal_spec u (Some (- n)%Z)
| OS_negative n : (forall m, ~ basement_tok u m) -> negative_tok u n -> ordinal_spec u (Some (- n)%Z)
| OS_ground : (forall m, ~ basement_tok u m) -> (forall m, ~ negative_tok u m) ->
    (ground_tok u \/ zero_tok u) -> ordinal_spec u (Some 0%Z)
| OS_floor n : (forall m, ~ basement_tok u m) -> (forall m, ~ negative_tok u m) ->
    ~ ground_tok u -> ~ zero_tok u -> tok_floor u n -> ordinal_spec u (Some (n - 1)%Z)
| OS_none : (forall m, ~ basement_tok u m) -> (forall m, ~ negative_tok u m) ->
    ~ ground_tok u -> ~ zero_tok u -> (forall m, ~ tok_floor u m) -> ordinal_spec u None.

(** [STOPWORD_TOKENS] *)
Definition STOPWORD_TOKENS : list string := ["jr"; "sta"; "station"; "drawing"; "shape"; "shp"]%string.

(** [re.findall(r"[a-zA-Z0-9]+", stem)]: the maximal runs of ASCII letters
    and digits, left to right; [cur] is the run being read, reversed. *)
Fixpoint alnum_runs (s : list ascii) (cur : list ascii) : list (list ascii) :=
  match s with
  | [] => match cur with [] => [] | _ => [rev cur] end
  | c :: t =>
      if is_alnum c then alnum_runs t (c :: cur)
      else match cur with [] => alnum_runs t [] | _ => rev cur :: alnum_runs t [] end
  end.

(** [stem_tokens] *)
Definition stem_tokens (stem : string) : list string :=
  map (fun t => lower (string_of_list_ascii t)) (alnum_runs (list_ascii_of_string stem) []).

(** [_all_keywords]: the union of the keyword sets of the table. *)
Definition all_keywords (keywords : list (string * list string)) : list string :=
  concat (map snd keywords).

Definition mem (x : string) (l : list string) : bool := existsb (String.eqb x) l.

(** [token.isdigit()] on a token of ASCII letters and digits. *)
Definition isdigit (t : string) : bool :=
  match t with EmptyString => false | _ => forallb is_digit (list_ascii_of_string t) end.

(** The [affected] list of [infer_learning_suggestion] for one token. *)
Definition affected (files : list ImportedFile) (changed_stem new_type token : string) : list string :=
  map stem (filter (fun item =>
    negb (String.eqb (stem item) changed_stem)
    && contains token (lower (stem item))
    && negb (String.eqb (match detected_type item with Some t => t | None => "" end) new_type))
    files).

(** The loop building [candidates]. *)
Definition candidates (files : list ImportedFile) (changed_stem new_type : string)
    (known : list string) : list (string * list string) :=
  fold_right (fun token acc =>
    if mem token known then acc
    else if mem token STOPWORD_TOKENS then acc
    else if isdigit token then acc
    else if (String.length token <? 3)%nat then acc
    else match affected files changed_stem new_type token with
         | [] => acc
         | aff => (token, aff) :: acc
         end) [] (stem_tokens changed_stem).

(** The sort key [(-len(affected), len(token), token)], strictly smaller. *)
Definition key_lt (a b : string * list string) : bool :=
  let '(ta, aa) := a in let '(tb, ab) := b in
  (length ab <? length aa)%nat
  || ((length aa =? length ab)%nat
      && ((String.length ta <? String.length tb)%nat
          || ((String.length ta =? String.length tb)%nat && str_lt ta tb))).

(** [candidates.sort(key=...)[0]]: Python's sort is stable, so the head is
    the first candidate that no other candidate's key is below. *)
Fixpoint sort_head (best : string * list string) (l : list (string * list string)) : string * list string :=
  match l with
  | [] => best
  | c :: l' => sort_head (if key_lt c best then c else best) l'
  end.

(** [infer_learning_suggestion] *)
Definition infer_learning_suggestion (files : list ImportedFile) (changed_stem new_type : string)
    (keywords : list (string * list string)) : option LearningSuggestion :=
  if negb (existsb (fun item => String.eqb (stem item) changed_stem) files) then None
  else
    match candidates files changed_stem new_type (all_keywords keywords) with
    | [] => None
    | c :: cs =>
        let '(candidate, aff) := sort_head c cs in
        Some {| source_stem := changed_stem; keyword := candidate; feature_type := new_type;
                affected_stems := aff;
                message := ("Apply '" ++ candidate ++ "' as " ++ new_type ++ " keyword to "
                            ++ str_nat (length aff) ++ " other files?")%string |}
    end.

(** The learning rule in the words of the specification: a token of the
    changed stem qualifies when it is not a known keyword, not a stopword,
    not purely numeric, at least 3 characters long, and affects at least one
    other file whose current type differs from the new one. *)
Definition token_qualifies (files : list ImportedFile) (changed_stem new_type : string)
    (keywords : list (string * list string)) (t : string) : Prop :=
  ~ In t (all_keywords keywords) /\ ~ In t STOPWORD_TOKENS /\ isdigit t = false
  /\ (3 <= String.length t)%nat /\ affected files changed_stem new_type t <> [].

(** [t] ranks at least as high as [t']: it affects more files, or as many
    and is shorter, or as many and as long and is not lexicographically
    larger. *)
Definition ranks_at_least (files : list ImportedFile) (changed_stem new_type : string)
    (t t' : string) : Prop :=
  let n := length (affected files changed_stem new_type t) in
  let n' := length (affected files changed_stem new_type t') in
  (n' < n)%nat \/ (n' = n /\ ((String.length t < String.length t')%nat
     \/ (String.length t = String.length t' /\ String.leb t t' = true))).

End Detector.

(** ** JSON-like Python values: the dicts, lists and scalars of a feature collection *)
Module Py.
Import Chars.

(** A value of a feature collection as [json] and the session store hold it:
    JSON has no tuples and no shared sub-objects, so a value is a tree.
    Floats are their exact rational value. *)
#[warnings="-register-all"]
Inductive pyval : Type :=
| PNone
| PBool (b : bool)
| PInt (z : Z)
| PFloat (q : Q)
| PStr (s : string)
| PList (l : list pyval)
| PDict (d : list (string * pyval)).

(** A [dict] with [str] keys, in insertion order. *)
Definition dict (A : Type) : Type := list (string * A).

(** [d.get(k)] *)
Fixpoint get {A} (k : string) (d : dict A) : option A :=
  match d with
  | [] => None
  | (k', v) :: t => if String.eqb k k' then Some v else get k t
  end.

(** [d[k] = v]: an existing key keeps its place, a new key goes last. *)
Fixpoint set {A} (k : string) (v : A) (d : dict A) : dict A :=
  match d with
  | [] => [(k, v)]
  | (k', v') :: t => if String.eqb k k' then (k', v) :: t else (k', v') :: set k v t
  end.

(** A dict display [{k1: v1, k2: v2, ...}]: a repeated key keeps its first
    place and its last value. *)
Definition dict_of {A} (kvs : list (string * A)) : dict A :=
  fold_left (fun d kv => set (fst kv) (snd kv) d) kvs [].

(** [bool(v)] *)
Definition truthy (v : pyval) : bool :=
  match v with
  | PNone => false
  | PBool b => b
  | PInt z => negb (z =? 0)%Z
  | PFloat q => negb (Qeq_bool q 0)
  | PStr s => negb (String.eqb s "")
  | PList l => match l with [] => false | _ => true end
  | PDict d => match d with [] => false | _ => true end
  end.

(** [v if isinstance(v, str) else None] *)
Definition as_str (v : option pyval) : option string :=
  match v with Some (PStr s) => Some s | _ => None end.

(** [isinstance(v, str)] *)
Definition is_str (v : option pyval) : bool :=
  match v with Some (PStr _) => true | _ => false end.

(** [isinstance(v, int)]: [bool] is a subclass of [int]. *)
Definition is_int (v : option pyval) : bool :=
  match v with Some (PInt _) | Some (PBool _) => true | _ => false end.

(** [isinstance(v, bool)] *)
Definition is_bool (v : option pyval) : bool :=
  match v with Some (PBool _) => true | _ => false end.

(** [isinstance(v, dict)] *)
Definition is_dict (v : option pyval) : bool :=
  match v with Some (PDict _) => true | _ => false end.

(** [v is None], where a missing key reads as [None]. *)
Definition is_none (v : option pyval) : bool :=
  match v with None | Some PNone => true | _ => false end.

(** [v in {s1, s2, ...}] for a set of strings. *)
Definition str_in (v : option pyval) (l : list string) : bool :=
  match v with Some (PStr s) => existsb (String.eqb s) l | _ => false end.

(** [str(v)] for the scalar values an id can hold; other values print
    through [other]. *)
Definition py_str (other : pyval -> string) (v : pyval) : string :=
  match v with
  | PStr s => s
  | PInt z => str_Z z
  | PBool true => "True"
  | PBool false => "False"
  | PNone => "None"
  | _ => other v
  end.

(** [x in l] for strings. *)
Definition smem (x : string) (l : list string) : bool := existsb (String.eqb x) l.

(** [s.strip()] then [s.lower()] *)
Definition strip_lower (s : string) : string := lower (strip s).

(** [s.startswith(p)] *)
Definition startswith (p s : string) : bool := String.prefix p s.

(** [str.title()] on ASCII: a letter is upper-cased after a non-letter and
    lower-cased after a letter. *)
Fixpoint title_l (prev_cased : bool) (l : list ascii) : list ascii :=
  match l with
  | [] => []
  | c :: t =>
      if is_alpha c then (if prev_cased then to_lower c else to_upper c) :: title_l true t
      else c :: title_l false t
  end.
Definition title (s : string) : string := string_of_list_ascii (title_l false (list_ascii_of_string s)).

(** Insertion into a sorted list of strings, dropping a duplicate: the
    [sorted(set(...))] of the source. *)
Fixpoint insert_sorted (x : string) (l : list string) : list string :=
  match l with
  | [] => [x]
  | y :: t => if String.eqb x y then l else if str_lt x y then x :: l else y :: insert_sorted x t
  end.
Definition sorted_set (l : list string) : list string := fold_right insert_sorted [] l.

(** Python's [round(x, n)] on a float's exact value: half to even. *)
Definition round_half_even (q : Q) : Z :=
  let f := Z.div (Qnum q) (Zpos (Qden q)) in
  let r := Qminus q (inject_Z f) in
  match Qcompare r (1 # 2) with
  | Lt => f
  | Gt => f + 1
  | Eq => if Z.even f then f else f + 1
  end%Z.
Definition round_q (n : nat) (q : Q) : Q :=
  let p := (10 ^ Z.of_nat n)%Z in
  Qmake (round_half_even (Qmult q (inject_Z p))) (Z.to_pos p).

End Py.

(** ** uuid.py: [UUID(s)] on a string, as the [_looks_like_uuid] helpers use it *)
Module Uuid.
Import Chars Py.

Fixpoint starts_with_l (p s : list ascii) : option (list ascii) :=
  match p, s with
  | [], _ => Some s
  | a :: p', b :: s' => if Ascii.eqb a b then starts_with_l p' s' else None
  | _ :: _, [] => None
  end.

(** [s.replace(pat, "")], occurrences taken left to right. *)
Fixpoint remove_all_f (fuel : nat) (pat s : list ascii) : list ascii :=
  match fuel with
  | O => s
  | S f =>
      match s with
      | [] => []
      | c :: t =>
          match starts_with_l pat s with
          | Some r => remove_all_f f pat r
          | None => c :: remove_all_f f pat t
          end
      end
  end.
Definition remove_all (pat s : list ascii) : list ascii := remove_all_f (S (length s)) pat s.

Fixpoint lstrip_by (p : ascii -> bool) (l : list ascii) : list ascii :=
  match l with c :: t => if p c then lstrip_by p t else l | [] => [] end.

(** [s.strip(chars)] *)
Definition strip_by (p : ascii -> bool) (l : list ascii) : list ascii :=
  rev (lstrip_by p (rev (lstrip_by p l))).

Definition hex_val (c : ascii) : option Z :=
  let n := code c in
  if ((48 <=? n) && (n <=? 57))%nat then Some (Z.of_nat (n - 48))
  else if ((97 <=? n) && (n <=? 102))%nat then Some (Z.of_nat (n - 87))
  else if ((65 <=? n) && (n <=? 70))%nat then Some (Z.of_nat (n - 55))
  else None.

(** The digit part of [int(s, 16)]: hex digits, one underscore allowed
    between two digits; [seen] says a digit has been read. *)
Fixpoint hex_digits (s : list ascii) (prev_us : bool) (acc : Z) (seen : bool) : option Z :=
  match s with
  | [] => if prev_us then None else if seen then Some acc else None
  | c :: t =>
      if Ascii.eqb c "_" then
        if prev_us || negb seen then None else hex_digits t true acc seen
      else match hex_val c with
           | Some d => hex_digits t false (acc * 16 + d)%Z true
           | None => None
           end
  end.

(** [int(s, 16)]: surrounding whitespace, a sign, an optional [0x] prefix
    that one underscore may follow, then the digits. *)
Definition int16 (s : list ascii) : option Z :=
  let s := strip_by is_space s in
  let '(neg, s) := match s with
                   | c :: t => if Ascii.eqb c "-" then (true, t)
                               else if Ascii.eqb c "+" then (false, t) else (false, s)
                   | [] => (false, s)
                   end in
  let s := match s with
           | z :: x :: t =>
               if Ascii.eqb z "0" && (Ascii.eqb x "x" || Ascii.eqb x "X") then
                 match t with u :: t' => if Ascii.eqb u "_" then t' else t | [] => t end
               else s
           | _ => s
           end in
  match hex_digits s false 0 false with
  | Some v => Some (if neg then - v else v)%Z
  | None => None
  end.

(** [UUID(hex)]: strip [urn:] and [uuid:], braces and hyphens; 32 characters
    left, read by [int(_, 16)], and a value in [0, 2^128). *)
Definition looks_like_uuid (s : string) : bool :=
  let h := remove_all (list_ascii_of_string "urn:") (list_ascii_of_string s) in
  let h := remove_all (list_ascii_of_string "uuid:") h in
  let h := filter (fun c => negb (Ascii.eqb c "-"))
             (strip_by (fun c => Ascii.eqb c "{" || Ascii.eqb c "}") h) in
  if (length h =? 32)%nat then
    match int16 h with
    | Some v => (0 <=? v)%Z && (v <? 2 ^ 128)%Z
    | None => false
    end
  else false.

(** [str(uuid4())]: 8-4-4-4-12 lower-case hex digits. *)
Definition is_lower_hex (c : ascii) : bool :=
  is_digit c || ((97 <=? code c) && (code c <=? 102))%nat.

Fixpoint take_hex (n : nat) (l : list ascii) : option (list ascii) :=
  match n, l with
  | O, _ => Some l
  | S n', c :: t => if is_lower_hex c then take_hex n' t else None
  | S _, [] => None
  end.

Definition dash (l : list ascii) : option (list ascii) :=
  match l with c :: t => if Ascii.eqb c "-" then Some t else None | [] => None end.

Definition canonical_uuid (s : string) : bool :=
  match take_hex 8 (list_ascii_of_string s) with
  | Some r1 =>
    match dash r1 with
    | Some r2 =>
      match take_hex 4 r2 with
      | Some r3 =>
        match dash r3 with
        | Some r4 =>
          match take_hex 4 r4 with
          | Some r5 =>
            match dash r5 with
            | Some r6 =>
              match take_hex 4 r6 with
              | Some r7 =>
                match dash r7 with
                | Some r8 =>
                  match take_hex 12 r8 with Some [] => true | _ => false end
                | None => false end
              | None => false end
            | None => false end
          | None => false end
        | None => false end
      | None => false end
    | None => false end
  | None => false
  end.

End Uuid.

(** ** The shapely operations the backend calls *)
Module Shapely.
Import Py.

(** Shapely on an abstract geometry type.  [shape] is [None] where
    [shape(payload)] raises; [geo_interface] is [mapping(g)], the
    [__geo_interface__] of [g]. *)
Class Shapely := {
  Geom : Type;
  shape : pyval -> option Geom;
  is_empty : Geom -> bool;
  is_valid : Geom -> bool;
  geom_type : Geom -> string;
  is_linestring : Geom -> bool;
  centroid : Geom -> Geom;
  representative_point : Geom -> Geom;
  point_x : Geom -> Q;
  point_y : Geom -> Q;
  area : Geom -> Q;
  geom_length : Geom -> Q;
  contains : Geom -> Geom -> bool;
  touches : Geom -> Geom -> bool;
  intersects : Geom -> Geom -> bool;
  intersection : Geom -> Geom -> Geom;
  boundary : Geom -> Geom;
  buffer : Geom -> Q -> Geom;
  unary_union : list Geom -> Geom;
  geo_interface : Geom -> pyval;
  wkb_hex : Geom -> string
}.

Definition Qlt_bool (a b : Q) : bool := negb (Qle_bool b a).

End Shapely.

(** ** validator.py *)
Module Validator.
Import Chars Py Uuid Shapely.
Local Open Scope string_scope.
Local Open Scope list_scope.

(** [ValidationIssue], with the fields its constructor is called with. *)
Record ValidationIssue := {
  feature_id : option string;
  related_feature_id : option string;
  check : string;
  message : string;
  severity : string;
  auto_fixable : bool;
  fix_description : option string;
  overlap_geometry : option pyval
}.

Record ValidationSummary := {
  total_features : nat;
  by_type : dict nat;
  error_count : nat;
  warning_count : nat;
  auto_fixable_count : nat;
  checks_passed : nat;
  checks_failed : nat;
  unspecified_count : nat;
  overlap_count : nat;
  opening_issues_count : nat
}.

Record ValidationResponse := {
  errors : list ValidationIssue;
  warnings : list ValidationIssue;
  passed : list string;
  summary : ValidationSummary
}.

Definition POLYGON_TYPES : list string := ["venue"; "footprint"; "level"; "unit"; "fixture"].
Definition LINE_TYPES : list string := ["opening"; "detail"].
Definition NULL_GEOM_TYPES : list string := ["address"; "building"].
Definition LEVEL_LINKED_TYPES : list string := ["unit"; "opening"; "fixture"; "detail"].

Definition Row : Type := dict pyval.

(** [_rows] *)
Definition rows_of (fc : dict pyval) : list Row :=
  match get "features" fc with
  | Some (PList l) => flat_map (fun v => match v with PDict d => [d] | _ => [] end) l
  | _ => []
  end.

(** [_feature_id] *)
Definition feature_id_of (row : Row) : option string :=
  match get "id" row with Some (PStr s) => if String.eqb s "" then None else Some s | _ => None end.

(** [_feature_type] *)
Definition feature_type_of (row : Row) : string :=
  match get "feature_type" row with Some (PStr s) => s | _ => "" end.

(** [_props] *)
Definition props_of (row : Row) : dict pyval :=
  match get "properties" row with Some (PDict d) => d | _ => [] end.

(** [_geom_payload] *)
Definition geom_payload (row : Row) : option (dict pyval) :=
  match get "geometry" row with Some (PDict d) => Some d | _ => None end.

(** The [add_issue] of [validate_feature_collection]: one issue of the log;
    an error goes to [errors], anything else to [warnings]. *)
Definition issue (sev chk msg : string) (fid rel : option string) (fixable : bool)
    (fix_desc : option string) (overlap : option pyval) : ValidationIssue :=
  {| feature_id := fid; related_feature_id := rel; check := chk; message := msg;
     severity := sev; auto_fixable := fixable; fix_description := fix_desc;
     overlap_geometry := overlap |}.

Definition err (chk msg : string) (fid : option string) : ValidationIssue :=
  issue "error" chk msg fid None false None None.
Definition warn (chk msg : string) (fid : option string) : ValidationIssue :=
  issue "warning" chk msg fid None false None None.

Section WithShapely.
Context `{SH : Shapely}.

(** [_geom] *)
Definition geom_of (row : Row) : option Geom :=
  match geom_payload row with Some p => shape (PDict p) | None => None end.

(** [isinstance(v, (int, float))] and [float(v)] *)
Definition num (v : pyval) : option Q :=
  match v with
  | PInt z => Some (inject_Z z)
  | PBool b => Some (if b then 1%Q else 0%Q)
  | PFloat q => Some q
  | _ => None
  end.

(** [_flatten_coords] *)
Fixpoint flatten_coords (v : pyval) : list (Q * Q) :=
  match v with
  | PList l =>
      match l with
      | a :: b :: _ =>
          match num a, num b with
          | Some x, Some y => [(x, y)]
          | _, _ => (fix go (l : list pyval) : list (Q * Q) :=
                       match l with [] => [] | h :: t => flatten_coords h ++ go t end) l
          end
      | _ => (fix go (l : list pyval) : list (Q * Q) :=
                match l with [] => [] | h :: t => flatten_coords h ++ go t end) l
      end
  | _ => []
  end.

Definition coords (payload : dict pyval) : list (Q * Q) :=
  match get "coordinates" payload with Some v => flatten_coords v | None => [] end.

(** [_coords_out_of_bounds] *)
Definition coords_out_of_bounds (payload : dict pyval) : bool :=
  existsb (fun p => let '(lon, lat) := p in
             Qlt_bool lon (-180) || Qlt_bool 180 lon || Qlt_bool lat (-90) || Qlt_bool 90 lat)
    (coords payload).

Fixpoint trailing_zeros (fuel : nat) (n : Z) : nat :=
  match fuel with
  | O => O
  | S f => if (n mod 10 =? 0)%Z then S (trailing_zeros f (n / 10)) else O
  end.

(** The decimals left in [f"{value:.12f}".rstrip("0").rstrip(".")]. *)
Definition decimals12 (q : Q) : nat :=
  let m := Z.abs (round_half_even (Qmult q (inject_Z (10 ^ 12)))) in
  let frac := (m mod 10 ^ 12)%Z in
  if (frac =? 0)%Z then O else (12 - trailing_zeros 12 frac)%nat.

(** [_max_decimals] *)
Definition max_decimals (payload : dict pyval) : nat :=
  fold_left (fun acc p => Nat.max acc (Nat.max (decimals12 (fst p)) (decimals12 (snd p))))
    (coords payload) O.

Fixpoint split_dash (cur : list ascii) (l : list ascii) : list (list ascii) :=
  match l with
  | [] => [rev cur]
  | c :: t => if Ascii.eqb c "-" then rev cur :: split_dash [] t else split_dash (c :: cur) t
  end.

Definition label_segments_ok (l : list ascii) : bool :=
  match split_dash [] l with
  | first :: rest =>
      forallb is_alpha first && (2 <=? List.length first)%nat && (List.length first <=? 3)%nat
      && forallb (fun seg => forallb is_alnum seg && (2 <=? List.length seg)%nat
                             && (List.length seg <=? 8)%nat) rest
  | [] => false
  end.

(** [LABEL_RE.match(k.replace("_", "-"))] with
    [LABEL_RE = ^[A-Za-z]{2,3}([_-][A-Za-z0-9]{2,8})*$]; [$] also matches
    before a final newline. *)
Definition label_key_ok (k : string) : bool :=
  let l := map (fun c => if Ascii.eqb c "_" then "-"%char else c) (list_ascii_of_string k) in
  label_segments_ok l
  || match rev l with c :: t => Ascii.eqb c "010"%char && label_segments_ok (rev t) | [] => false end.

(** [_labels_ok] *)
Definition labels_ok (value : option pyval) : bool :=
  match value with
  | Some (PDict ((_ :: _) as d)) =>
      existsb (fun kv => label_key_ok (fst kv)) d
      && existsb (fun kv => match snd kv with PStr s => negb (String.eqb (strip s) "") | _ => false end) d
  | _ => false
  end.

(** [_point_in_geometry] *)
Definition point_in_geometry (display_point : option pyval) (geom : option Geom) : bool :=
  match geom with
  | None => false
  | Some g =>
      if is_empty g then false
      else match display_point with
           | Some (PDict d) =>
               if str_in (get "type" d) ["Point"] then
                 match shape (PDict d) with
                 | Some p => contains g p || touches g p
                 | None => false
                 end
               else false
           | _ => false
           end
  end.

(** [Counter(...)] *)
Definition counter (l : list string) : dict nat :=
  fold_left (fun d k => set k (S (match get k d with Some n => n | None => O end)) d) l [].

(** The required-feature pass. *)
Definition required_issues (by_type : dict nat) : list ValidationIssue :=
  flat_map (fun required =>
    if ((match get required by_type with Some n => n | None => O end) =? 0)%nat
    then [err ("missing_" ++ required)%string ("Missing required '" ++ required ++ "' feature.")%string None]
    else []) ["venue"; "building"].

(** The identifier pass. *)
Definition id_issues (rows : list Row) : list ValidationIssue :=
  let ids := flat_map (fun r => match feature_id_of r with Some f => [f] | None => [] end) rows in
  flat_map (fun r =>
    match feature_id_of r with
    | None => [err "missing_id" "Feature is missing id." None]
    | Some fid =>
        (if negb (looks_like_uuid fid) then
           [issue "error" "id_not_uuid" "Feature id is not a UUID string." (Some fid) None true
              (Some "Regenerate UUID for this feature.") None] else [])
        ++ (if (1 <? count_occ string_dec ids fid)%nat then
           [issue "error" "duplicate_uuids" "Duplicate UUID detected." (Some fid) None true
              (Some "Regenerate duplicate UUIDs.") None] else [])
    end) rows.

(** [by_id = {fid: row for row in rows if (fid := _feature_id(row))}] *)
Definition by_id_of (rows : list Row) : dict Row :=
  fold_left (fun d r => match feature_id_of r with Some f => set f r d | None => d end) rows [].

(** [{fid for fid, row in by_id.items() if _feature_type(row) == t}] *)
Definition ids_of_type (by_id : dict Row) (t : string) : list string :=
  map fst (filter (fun fr => String.eqb (feature_type_of (snd fr)) t) by_id).

(** The geometry pass on one row; it also records the row's geometry in
    [geoms_by_id]. *)
Definition geometry_row (gs : dict Geom) (row : Row) : list ValidationIssue * dict Geom :=
  let fid := feature_id_of row in
  let ftype := feature_type_of row in
  let payload := geom_payload row in
  let geom := geom_of row in
  if smem ftype NULL_GEOM_TYPES then
    (match payload with
     | Some _ => [err (ftype ++ "_must_be_null")%string (title ftype ++ " geometry must be null.")%string fid]
     | None => []
     end, gs)
  else
    match payload with
    | None => ([err "empty_geometry" "Geometry is missing." fid], gs)
    | Some p =>
        let i1 := if smem ftype POLYGON_TYPES && negb (str_in (get "type" p) ["Polygon"; "MultiPolygon"])
                  then [err (ftype ++ "_must_be_polygon")%string (title ftype ++ " geometry must be Polygon.")%string fid]
                  else [] in
        let i2 := if smem ftype LINE_TYPES && negb (str_in (get "type" p) ["LineString"])
                  then [err (ftype ++ "_must_be_linestring")%string (title ftype ++ " geometry must be LineString.")%string fid]
                  else [] in
        match geom with
        | None =>
            (i1 ++ i2 ++ [issue "error" "invalid_geometry" "Geometry could not be parsed." fid None true
                            (Some "Run make_valid() to repair geometry.") None], gs)
        | Some g =>
            if is_empty g then (i1 ++ i2 ++ [err "empty_geometry" "Geometry is empty." fid], gs)
            else
              let i3 := if negb (is_valid g)
                        then [issue "error" "invalid_geometry" "Geometry is invalid." fid None true
                                (Some "Run make_valid() to repair geometry.") None] else [] in
              let i4 := if coords_out_of_bounds p
                        then [err "coordinates_out_of_bounds" "Coordinates are out of bounds." fid] else [] in
              let i5 := if Qlt_bool (Qabs (point_x (centroid g))) 1 && Qlt_bool (Qabs (point_y (centroid g))) 1
                        then [err "null_island_detection" "Feature appears near Null Island." fid] else [] in
              let i6 := if (7 <? max_decimals p)%nat
                        then [issue "warning" "excessive_precision" "Geometry precision is above 7 decimal places."
                                fid None true (Some "Round coordinates to 7 decimal places.") None] else [] in
              (i1 ++ i2 ++ i3 ++ i4 ++ i5 ++ i6, match fid with Some f => set f g gs | None => gs end)
        end
    end.

Definition geometry_pass (rows : list Row) : list ValidationIssue * dict Geom :=
  fold_left (fun acc row => let '(is, gs') := geometry_row (snd acc) row in (fst acc ++ is, gs'))
    rows ([], []).

(** [units_by_level[level_id].append(x)] on a [defaultdict(list)]. *)
Definition append_unit (lid : string) (x : string * Geom) (u : dict (list (string * Geom)))
    : dict (list (string * Geom)) :=
  set lid ((match get lid u with Some l => l | None => [] end) ++ [x]) u.

(** [not isinstance(b_ids, list) or not b_ids] / [any(not isinstance(bid, str) or bid not in ids)] *)
Definition building_ids_issues (kind : string) (props : dict pyval) (building_ids : list string)
    (fid : option string) : list ValidationIssue :=
  match get "building_ids" props with
  | Some (PList ((_ :: _) as l)) =>
      if existsb (fun b => match b with PStr s => negb (smem s building_ids) | _ => true end) l
      then [err "orphaned_reference_error" (kind ++ " building_ids include missing building.")%string fid]
      else []
  | _ => [err (lower kind ++ "_missing_building_ids_error")%string (kind ++ " is missing building_ids.")%string fid]
  end.

(** [not isinstance(props.get("category"), str) or not props.get("category")] *)
Definition no_category (props : dict pyval) : bool :=
  match get "category" props with Some (PStr c) => String.eqb c "" | _ => true end.

(** The per-row reference and attribute pass on one row. *)
Definition row_checks (level_ids building_ids address_ids : list string) (gs : dict Geom)
    (u : dict (list (string * Geom))) (row : Row)
    : list ValidationIssue * dict (list (string * Geom)) :=
  let fid := feature_id_of row in
  let ftype := feature_type_of row in
  let props := props_of row in
  let geom := match fid with Some f => get f gs | None => None end in
  let geom_truthy := match geom with Some g => negb (is_empty g) | None => false end in
  let labels :=
    flat_map (fun key =>
      match get key props with
      | Some v => if negb (is_none (Some v)) && negb (labels_ok (Some v))
                  then [err "labels_format_valid" ("'" ++ key ++ "' must be LABELS object.")%string fid] else []
      | None => []
      end) ["name"; "short_name"; "alt_name"] in
  let dp := match geom with
            | Some _ => if negb (is_none (get "display_point" props))
                           && negb (point_in_geometry (get "display_point" props) geom)
                        then [err "display_point_within_geometry" "display_point is outside geometry." fid] else []
            | None => []
            end in
  let linked := if smem ftype LEVEL_LINKED_TYPES then
                  match get "level_id" props with
                  | Some (PStr l) =>
                      if String.eqb l "" then
                        [err (ftype ++ "_missing_level_id_error")%string (title ftype ++ " is missing level_id.")%string fid]
                      else if negb (smem l level_ids) then
                        [err "orphaned_reference_error" "Feature has invalid level_id." fid]
                      else []
                  | _ => [err (ftype ++ "_missing_level_id_error")%string (title ftype ++ " is missing level_id.")%string fid]
                  end
                else [] in
  let unit_cat := if String.eqb ftype "unit" then
                    match get "category" props with
                    | Some (PStr c) =>
                        if String.eqb (strip c) "" then [err "unit_missing_category_error" "Unit has no category." fid]
                        else if String.eqb (strip_lower c) "unspecified"
                        then [warn "unspecified_category" "Unit category is unspecified." fid] else []
                    | _ => [err "unit_missing_category_error" "Unit has no category." fid]
                    end
                  else [] in
  let u' := if String.eqb ftype "unit" then
              match fid, geom, get "level_id" props with
              | Some f, Some g, Some (PStr l) => if negb (is_empty g) then append_unit l (f, g) u else u
              | _, _, _ => u
              end
            else u in
  let sliver := if String.eqb ftype "unit" then
                  match geom with
                  | Some g => if negb (is_empty g) && Qlt_bool (area g) (Qmake 1 10000000000)
                              then [warn "sliver_polygon_warning" "Unit appears to be a sliver polygon." fid] else []
                  | None => []
                  end
                else [] in
  let opening := if String.eqb ftype "opening" && no_category props
                 then [err "opening_missing_category_error" "Opening has no category." fid] else [] in
  let fixture := if String.eqb ftype "fixture" && no_category props
                 then [err "fixture_missing_category_error" "Fixture has no category." fid] else [] in
  let detail := if String.eqb ftype "detail" then
                  match geom with
                  | Some g => if negb (is_empty g) && Qeq_bool (geom_length g) 0
                              then [warn "detail_degenerate_line" "Detail line has zero length." fid] else []
                  | None => []
                  end
                else [] in
  let level := if String.eqb ftype "level" then
                 (if negb (is_int (get "ordinal" props))
                  then [err "level_missing_ordinal_error" "Level is missing ordinal." fid] else [])
                 ++ (if negb (labels_ok (get "short_name" props))
                     then [err "level_missing_short_name_error" "Level is missing short_name." fid] else [])
                 ++ (if negb (is_bool (get "outdoor" props))
                     then [err "level_missing_outdoor_error" "Level is missing outdoor boolean." fid] else [])
                 ++ building_ids_issues "Level" props building_ids fid
               else [] in
  let footprint := if String.eqb ftype "footprint" then
                     (if no_category props
                      then [err "footprint_missing_category_error" "Footprint is missing category." fid] else [])
                     ++ building_ids_issues "Footprint" props building_ids fid
                   else [] in
  let venue := if String.eqb ftype "venue" then
                 (match get "address_id" props with
                  | Some (PStr a) =>
                      if String.eqb a "" then [err "venue_missing_address_error" "Venue is missing address_id." fid]
                      else if negb (smem a address_ids)
                      then [err "venue_missing_address_id" "Venue address_id does not match an address feature." fid]
                      else []
                  | _ => [err "venue_missing_address_error" "Venue is missing address_id." fid]
                  end)
                 ++ (if is_none (get "display_point" props)
                     then [err "venue_missing_display_point_error" "Venue is missing display_point." fid] else [])
               else [] in
  let building := if String.eqb ftype "building" then
                    match get "address_id" props with
                    | None | Some PNone => []
                    | Some (PStr a) =>
                        if smem a address_ids then []
                        else [err "building_address_id_valid" "Building address_id does not match an address feature." fid]
                    | Some _ => [err "building_address_id_valid" "Building address_id does not match an address feature." fid]
                    end
                  else [] in
  (labels ++ dp ++ linked ++ unit_cat ++ sliver ++ opening ++ fixture ++ detail ++ level ++ footprint
     ++ venue ++ building, u').

Definition row_checks_pass (level_ids building_ids address_ids : list string) (gs : dict Geom)
    (rows : list Row) : list ValidationIssue * dict (list (string * Geom)) :=
  fold_left (fun acc row =>
    let '(is, u') := row_checks level_ids building_ids address_ids gs (snd acc) row in (fst acc ++ is, u'))
    rows ([], []).

(** [itertools.combinations(l, 2)] *)
Fixpoint combinations2 {A} (l : list A) : list (A * A) :=
  match l with [] => [] | x :: t => map (fun y => (x, y)) t ++ combinations2 t end.

(** [level_geoms.get(level_id)], [level_geoms] being [geoms_by_id] on [level_ids]. *)
Definition level_geom (level_ids : list string) (gs : dict Geom) (lid : string) : option Geom :=
  if smem lid level_ids then get lid gs else None.

Definition covers (a b : Geom) : bool := contains a (centroid b) || touches a (centroid b).

(** The pass over [units_by_level]: centroids outside the level, overlaps. *)
Definition unit_level_issues (level_ids : list string) (gs : dict Geom) (u : dict (list (string * Geom)))
    : list ValidationIssue :=
  flat_map (fun lp =>
    let '(lid, pairs) := lp in
    let lg := level_geom level_ids gs lid in
    flat_map (fun p =>
      match lg with
      | Some g => if negb (is_empty g) && negb (covers g (snd p))
                  then [warn "unit_outside_level_warning" "Unit centroid is outside assigned level." (Some (fst p))]
                  else []
      | None => []
      end) pairs
    ++ flat_map (fun lr =>
         let '((left_id, left_geom), (right_id, right_geom)) := lr in
         let overlap := intersection left_geom right_geom in
         if negb (is_empty overlap) && Qlt_bool 0 (area overlap) then
           let ov := geo_interface overlap in
           [issue "warning" "overlapping_units" ("Overlaps with unit " ++ take 8 right_id ++ ".")%string
              (Some left_id) (Some right_id) false None (Some ov);
            issue "warning" "overlapping_units" ("Overlaps with unit " ++ take 8 left_id ++ ".")%string
              (Some right_id) (Some left_id) false None (Some ov)]
         else []) (combinations2 pairs)) u.

(** The key of [geometry_hashes]. *)
Definition dup_key : Type := (string * option string * string)%type.

Definition dup_key_eqb (a b : dup_key) : bool :=
  let '(t, l, w) := a in let '(t', l', w') := b in
  String.eqb t t' && match l, l' with
                     | Some x, Some y => String.eqb x y
                     | None, None => true
                     | _, _ => false
                     end && String.eqb w w'.

Fixpoint kget (k : dup_key) (d : list (dup_key * string)) : option string :=
  match d with [] => None | (k', v) :: t => if dup_key_eqb k k' then Some v else kget k t end.

Fixpoint kset (k : dup_key) (v : string) (d : list (dup_key * string)) : list (dup_key * string) :=
  match d with
  | [] => [(k, v)]
  | (k', v') :: t => if dup_key_eqb k k' then (k', v) :: t else (k', v') :: kset k v t
  end.

(** The duplicate-geometry pass on one row, with [geometry_hashes]. *)
Definition duplicate_row (gs : dict Geom) (acc : list ValidationIssue * list (dup_key * string)) (row : Row)
    : list ValidationIssue * list (dup_key * string) :=
  let '(log, hashes) := acc in
  match feature_id_of row with
  | None => acc
  | Some fid =>
      match get fid gs with
      | None => acc
      | Some g =>
          let ftype := feature_type_of row in
          if negb (smem ftype ["unit"; "opening"; "fixture"; "detail"]) then acc
          else
            let key := (ftype, as_str (get "level_id" (props_of row)), wkb_hex g) in
            match kget key hashes with
            | Some existing =>
                if negb (String.eqb existing "") then
                  (log ++ [issue "warning" "duplicate_geometry_warning" "Feature geometry duplicates another feature."
                             (Some fid) (Some existing) false (Some "Delete one duplicate feature.") None], hashes)
                else (log, kset key fid hashes)
            | None => (log, kset key fid hashes)
            end
      end
  end.

Definition duplicate_pass (rows : list Row) (gs : dict Geom) : list ValidationIssue :=
  fst (fold_left (duplicate_row gs) rows ([], [])).

(** The duplicate warning the pass emits for [fid], naming [existing]. *)
Definition duplicate_issue (fid existing : string) : ValidationIssue :=
  issue "warning" "duplicate_geometry_warning" "Feature geometry duplicates another feature."
    (Some fid) (Some existing) false (Some "Delete one duplicate feature.") None.

(** A row the duplicate pass looks at, with its id and its key. *)
Definition dup_candidate (gs : dict Geom) (row : Row) : option (string * dup_key) :=
  match feature_id_of row with
  | Some fid =>
      match get fid gs with
      | Some g =>
          let ftype := feature_type_of row in
          if smem ftype ["unit"; "opening"; "fixture"; "detail"]
          then Some (fid, (ftype, as_str (get "level_id" (props_of row)), wkb_hex g))
          else None
      | None => None
      end
  | None => None
  end.

(** The id of the earliest candidate row of [rows] with key [k]. *)
Fixpoint first_of_key (gs : dict Geom) (k : dup_key) (rows : list Row) : option string :=
  match rows with
  | [] => None
  | r :: t =>
      match dup_candidate gs r with
      | Some (fid, k') => if dup_key_eqb k k' then Some fid else first_of_key gs k t
      | None => first_of_key gs k t
      end
  end.

(** The duplicate warnings read row by row: a candidate row whose key
    occurs at an earlier candidate row ([seen] is the rows before it) is
    flagged against the earliest of them; the earliest itself is not. *)
Fixpoint duplicate_warnings_expected (gs : dict Geom) (seen rows : list Row) : list ValidationIssue :=
  match rows with
  | [] => []
  | r :: t =>
      (match dup_candidate gs r with
       | Some (fid, k) =>
           match first_of_key gs k seen with
           | Some e => [duplicate_issue fid e]
           | None => []
           end
       | None => []
       end) ++ duplicate_warnings_expected gs (seen ++ [r]) t
  end.

(** Footprints against the venue, levels against the footprints. *)
Definition venue_footprint_issues (by_id : dict Row) (gs : dict Geom) : list ValidationIssue :=
  let with_geom t := flat_map (fun fr => if String.eqb (feature_type_of (snd fr)) t
                                         then match get (fst fr) gs with Some g => [(fst fr, g)] | None => [] end
                                         else []) by_id in
  let venue_geom := match with_geom "venue" with (_, g) :: _ => Some g | [] => None end in
  let footprints := map snd (with_geom "footprint") in
  (match venue_geom with
   | Some vg => if negb (is_empty vg) then
                  flat_map (fun fg => if negb (covers vg (snd fg))
                                      then [warn "footprint_outside_venue_warning" "Footprint centroid is outside venue." (Some (fst fg))]
                                      else []) (with_geom "footprint")
                else []
   | None => []
   end)
  ++ match footprints with
     | [] => []
     | _ => let fu := unary_union footprints in
            flat_map (fun lg => if negb (covers fu (snd lg))
                                then [warn "level_outside_footprint_warning" "Level centroid is outside footprint." (Some (fst lg))]
                                else []) (with_geom "level")
     end.

(** The opening and detail warnings on one row. *)
Definition opening_detail_row (level_ids : list string) (gs : dict Geom) (u : dict (list (string * Geom)))
    (row : Row) : list ValidationIssue :=
  match feature_id_of row with
  | None => []
  | Some fid =>
      match get fid gs with
      | None => []
      | Some g =>
          let ftype := feature_type_of row in
          let props := props_of row in
          (if String.eqb ftype "opening" then
             (if is_linestring g then
                let boundaries :=
                  match get "level_id" props with
                  | Some (PStr l) =>
                      match get l u with
                      | Some ((_ :: _) as ps) => Some (buffer (unary_union (map (fun p => boundary (snd p)) ps)) (Qmake 5 1000000))
                      | _ => None
                      end
                  | _ => None
                  end in
                let meters := Qmult (geom_length g) (inject_Z 111320) in
                (match boundaries with
                 | Some b => if negb (intersects g b)
                             then [warn "opening_not_touching_boundary" "Opening does not touch any unit boundary." (Some fid)] else []
                 | None => []
                 end)
                ++ (if Qlt_bool meters (Qmake 3 10)
                    then [warn "opening_too_short" "Opening length is unusually short." (Some fid)] else [])
                ++ (if Qlt_bool (inject_Z 10) meters
                    then [warn "opening_too_long" "Opening length is unusually long." (Some fid)] else [])
              else [])
             ++ (match get "category" props with
                 | Some (PStr c) => if startswith "pedestrian" c && negb (is_dict (get "door" props))
                                    then [warn "opening_missing_door_warning" "Pedestrian opening is missing door metadata." (Some fid)]
                                    else []
                 | _ => []
                 end)
           else [])
          ++ (if String.eqb ftype "detail" then
                match get "level_id" props with
                | Some (PStr l) =>
                    match level_geom level_ids gs l with
                    | Some lg => if negb (intersects lg g)
                                 then [warn "detail_outside_level" "Detail geometry is outside assigned level." (Some fid)] else []
                    | None => []
                    end
                | _ => []
                end
              else [])
      end
  end.

Fixpoint insert_Z (x : Z) (l : list Z) : list Z :=
  match l with
  | [] => [x]
  | y :: t => if (x =? y)%Z then l else if (x <? y)%Z then x :: l else y :: insert_Z x t
  end.

(** [range(a, b)] *)
Definition range (a b : Z) : list Z := map (fun i => (a + Z.of_nat i)%Z) (seq 0 (Z.to_nat (b - a))).

Fixpoint gaps (l : list Z) : list Z :=
  match l with
  | x :: ((y :: _) as t) => (if (1 <? y - x)%Z then range (x + 1) y else []) ++ gaps t
  | _ => []
  end.

Fixpoint join (sep : string) (l : list string) : string :=
  match l with [] => "" | [x] => x | x :: t => (x ++ sep ++ join sep t)%string end.

(** The iteration order of a Python [set] of strings: a permutation fixed
    by the process's string hashes. *)
Variable set_order : list string -> list string.

(** The cross-level warnings. *)
Definition level_issues (rows : list Row) (level_ids : list string) (u : dict (list (string * Geom)))
    : list ValidationIssue :=
  let ordinals := fold_right insert_Z []
                    (flat_map (fun r => if String.eqb (feature_type_of r) "level" then
                                          match get "ordinal" (props_of r) with
                                          | Some (PInt z) => [z]
                                          | Some (PBool b) => [if b then 1%Z else 0%Z]
                                          | _ => []
                                          end else []) rows) in
  (if (2 <=? List.length ordinals)%nat then
     match gaps ordinals with
     | [] => []
     | missing => [warn "level_ordinal_gap" ("Level ordinals have gap(s): " ++ join ", " (map str_Z missing) ++ ".")%string None]
     end
   else [])
  ++ flat_map (fun lid => match get lid u with
                          | Some (_ :: _) => []
                          | _ => [warn "level_no_units" "Level has no units assigned." (Some lid)]
                          end) (set_order level_ids).

Definition is_error (i : ValidationIssue) : bool := String.eqb (severity i) "error".

(** The six named checks, in sorted order. *)
Definition NAMED_CHECKS : list string :=
  ["building_exists"; "display_points_valid"; "labels_format_valid"; "unique_uuids"; "valid_geometry"; "venue_exists"].

(** [validate_feature_collection]: the passes append to one issue log, in
    source order; [errors] and [warnings] are its two severities. *)
Definition validation_log (fc : dict pyval) : list ValidationIssue :=
  let rows := rows_of fc in
  let by_type := counter (map feature_type_of rows) in
  let by_id := by_id_of rows in
  let level_ids := ids_of_type by_id "level" in
  let building_ids := ids_of_type by_id "building" in
  let address_ids := ids_of_type by_id "address" in
  let '(log3, gs) := geometry_pass rows in
  let '(log4, u) := row_checks_pass level_ids building_ids address_ids gs rows in
  required_issues by_type ++ id_issues rows ++ log3 ++ log4 ++ unit_level_issues level_ids gs u
  ++ duplicate_pass rows gs ++ venue_footprint_issues by_id gs
  ++ flat_map (opening_detail_row level_ids gs u) rows ++ level_issues rows level_ids u.

Definition validate_feature_collection (fc : dict pyval) : ValidationResponse :=
  let rows := rows_of fc in
  let log := validation_log fc in
  let errs := filter is_error log in
  let warns := filter (fun i => negb (is_error i)) log in
  let failed_checks := sorted_set (map check (errs ++ warns)) in
  let passed_checks := filter (fun c => negb (smem c failed_checks)) NAMED_CHECKS in
  {| errors := errs;
     warnings := warns;
     passed := passed_checks;
     summary := {| total_features := List.length rows;
                   by_type := counter (map feature_type_of rows);
                   error_count := List.length errs;
                   warning_count := List.length warns;
                   auto_fixable_count := List.length (filter auto_fixable (errs ++ warns));
                   checks_passed := List.length passed_checks;
                   checks_failed := List.length failed_checks;
                   unspecified_count := List.length (filter (fun i => String.eqb (check i) "unspecified_category") warns);
                   overlap_count := List.length (filter (fun i => String.eqb (check i) "overlapping_units") warns);
                   opening_issues_count := List.length (filter (fun i => startswith "opening_" (check i)) warns) |} |}.

End WithShapely.

(** [issue.model_dump(exclude_none=True)] *)
Definition issue_dump (i : ValidationIssue) : pyval :=
  let opt k (v : option string) := match v with Some s => [(k, PStr s)] | None => [] end in
  PDict (opt "feature_id" (feature_id i) ++ opt "related_feature_id" (related_feature_id i)
         ++ [("check", PStr (check i)); ("message", PStr (message i)); ("severity", PStr (severity i));
             ("auto_fixable", PBool (auto_fixable i))]
         ++ opt "fix_description" (fix_description i)
         ++ match overlap_geometry i with Some g => [("overlap_geometry", g)] | None => [] end).

(** [annotate_feature_collection_with_validation] *)
Definition annotate_row (issues : list ValidationIssue) (v : pyval) : pyval :=
  match v with
  | PDict row =>
      let fid := feature_id_of row in
      let props := props_of row in
      let its := match fid with
                 | Some f => filter (fun i => match feature_id i with
                                              | Some g => String.eqb f g
                                              | None => false
                                              end) issues
                 | None => []
                 end in
      let status := if existsb is_error its then "error"
                    else if existsb (fun i => String.eqb (severity i) "warning") its then "warning"
                    else match get "category" props with
                         | Some (PStr c) => if String.eqb (strip_lower c) "unspecified" then "unspecified" else "mapped"
                         | _ => "mapped"
                         end in
      PDict (set "properties" (PDict (set "issues" (PList (map issue_dump its)) (set "status" (PStr status) props))) row)
  | other => other
  end.

Definition annotate_feature_collection_with_validation (fc : dict pyval) (v : ValidationResponse) : dict pyval :=
  match get "features" fc with
  | Some (PList l) => set "features" (PList (map (annotate_row (errors v ++ warnings v)) l)) fc
  | _ => fc
  end.

End Validator.

(** ** autofix.py *)
Module Autofix.
Import Chars Py Uuid Validator.
Local Open Scope string_scope.
Local Open Scope list_scope.

Record AutofixApplied := {
  applied_feature_id : string;
  applied_check : string;
  applied_action : string;
  applied_description : string
}.

Record AutofixPrompt := {
  prompt_feature_id : string;
  prompt_related_feature_id : option string;
  prompt_check : string;
  prompt_action : string;
  prompt_description : string
}.

Definition applied (fid chk action desc : string) : AutofixApplied :=
  {| applied_feature_id := fid; applied_check := chk; applied_action := action; applied_description := desc |}.

(** [_round_value(value, 7)] on a JSON value. *)
Fixpoint round_value (v : pyval) : pyval :=
  match v with
  | PFloat q => PFloat (round_q 7 q)
  | PList l => PList (map round_value l)
  | PDict d => PDict (map (fun '(k, x) => (k, round_value x)) d)
  | other => other
  end.

(** [rows[i] = v] *)
Fixpoint replace_nth {A} (i : nat) (v : A) (l : list A) : list A :=
  match l, i with
  | [], _ => []
  | _ :: t, O => v :: t
  | x :: t, S i' => x :: replace_nth i' v t
  end.

(** [by_id]: each string id to the position of the last row with that id
    (the row object the dictionary holds). *)
Definition index_by_id (rows : list pyval) : dict nat :=
  fst (fold_left (fun acc row =>
    let '(d, i) := acc in
    match row with
    | PDict r => match get "id" r with
                 | Some (PStr fid) => (set fid i d, S i)
                 | _ => (d, S i)
                 end
    | _ => (d, S i)
    end) rows ([], O)).

(** The [PROMPTED_CHECKS] pairs: [tuple(sorted([a, b]))]. *)
Definition sorted_pair (a b : string) : string * string := if str_lt b a then (b, a) else (a, b).

Definition pair_lt (p q : string * string) : bool :=
  str_lt (fst p) (fst q) || (String.eqb (fst p) (fst q) && str_lt (snd p) (snd q)).

Definition pair_eqb (p q : string * string) : bool := String.eqb (fst p) (fst q) && String.eqb (snd p) (snd q).

Fixpoint insert_pair (x : string * string) (l : list (string * string)) : list (string * string) :=
  match l with
  | [] => [x]
  | y :: t => if pair_eqb x y then l else if pair_lt x y then x :: l else y :: insert_pair x t
  end.

(** [str(x)] is truthy: not [None], not empty. *)
Definition truthy_id (x : option string) : option string :=
  match x with Some s => if String.eqb s "" then None else Some s | None => None end.

(** [duplicate_pairs], as a set. *)
Definition duplicate_pairs (issues : list ValidationIssue) : list (string * string) :=
  fold_left (fun acc i =>
    if String.eqb (check i) "duplicate_geometry_warning" then
      match truthy_id (feature_id i), truthy_id (related_feature_id i) with
      | Some a, Some b => let p := sorted_pair a b in if existsb (pair_eqb p) acc then acc else acc ++ [p]
      | _, _ => acc
      end
    else acc) issues [].

(** [empty_ids], as a set. *)
Definition empty_ids (issues : list ValidationIssue) : list string :=
  fold_left (fun acc i =>
    if String.eqb (check i) "empty_geometry" then
      match truthy_id (feature_id i) with
      | Some a => if smem a acc then acc else acc ++ [a]
      | None => acc
      end
    else acc) issues [].

Definition str_max (a b : string) : string := if str_lt a b then b else a.

(** [to_delete]: the larger id of every duplicate pair and every empty id. *)
Definition prompted_deletions (pairs : list (string * string)) (empties : list string) : list string :=
  map (fun p => str_max (fst p) (snd p)) pairs ++ empties.

Definition prompts_of (pairs : list (string * string)) (empties : list string) : list AutofixPrompt :=
  map (fun p => {| prompt_feature_id := fst p; prompt_related_feature_id := Some (snd p);
                   prompt_check := "duplicate_geometry_warning"; prompt_action := "delete_duplicate";
                   prompt_description := ("Delete one duplicate geometry (" ++ take 8 (snd p) ++ ").")%string |})
      (fold_right insert_pair [] pairs)
  ++ map (fun f => {| prompt_feature_id := f; prompt_related_feature_id := None;
                      prompt_check := "empty_geometry"; prompt_action := "delete_empty";
                      prompt_description := "Delete feature with empty geometry." |})
      (sorted_set empties).

(** The kept rows and the deletion records of the prompted pass. *)
Fixpoint delete_rows (to_delete : list string) (rows : list pyval) : list pyval * list AutofixApplied :=
  match rows with
  | [] => ([], [])
  | row :: t =>
      let '(kept, fx) := delete_rows to_delete t in
      match row with
      | PDict d =>
          match get "id" d with
          | Some (PStr fid) =>
              if smem fid to_delete
              then (kept, applied fid "prompted_delete" "delete_feature" "Deleted feature after user confirmation." :: fx)
              else (row :: kept, fx)
          | _ => (row :: kept, fx)
          end
      | _ => (kept, fx)
      end
  end.

Section WithEffects.

(** The [uuid4()] calls of one [apply_autofix]: the [n]-th returns [draw n]. *)
Variable draw : nat -> string.

(** [mapping(make_valid(shape(geometry)))]; [None] where it raises. *)
Variable make_valid_mapping : dict pyval -> option pyval.

(** [new_id = str(uuid4()); while new_id in seen_ids: new_id = str(uuid4())],
    with at most [fuel] draws; the draw counter after it. *)
Fixpoint draw_fresh (fuel n : nat) (seen : list string) : option (string * nat) :=
  match fuel with
  | O => None
  | S f => if smem (draw n) seen then draw_fresh f (S n) seen else Some (draw n, S n)
  end.

(** The identifier pass. *)
Fixpoint id_pass (fuel n : nat) (seen : list string) (rows : list pyval)
    : option (list pyval * list AutofixApplied) :=
  match rows with
  | [] => Some ([], [])
  | row :: t =>
      let skip := match id_pass fuel n seen t with
                  | Some (rs, fx) => Some (row :: rs, fx)
                  | None => None
                  end in
      match row with
      | PDict d =>
          match get "id" d with
          | Some (PStr fid) =>
              if looks_like_uuid fid && negb (smem fid seen) then
                match id_pass fuel n (fid :: seen) t with
                | Some (rs, fx) => Some (row :: rs, fx)
                | None => None
                end
              else
                match draw_fresh fuel n seen with
                | Some (new_id, n') =>
                    match id_pass fuel n' (new_id :: seen) t with
                    | Some (rs, fx) =>
                        Some (PDict (set "id" (PStr new_id) d) :: rs,
                              applied new_id "duplicate_uuids" "regenerate_uuid" "Regenerated duplicate/invalid UUID." :: fx)
                    | None => None
                    end
                | None => None
                end
          | _ => skip
          end
      | _ => skip
      end
  end.

(** The safe fix of one issue, on the row [by_id] holds for its id. *)
Definition safe_fix (by_id : dict nat) (acc : list pyval * list AutofixApplied) (issue : ValidationIssue)
    : list pyval * list AutofixApplied :=
  let '(rows, fx) := acc in
  match truthy_id (feature_id issue) with
  | None => acc
  | Some fid =>
      match get fid by_id with
      | None => acc
      | Some i =>
          match nth_error rows i with
          | Some (PDict ((_ :: _) as row)) =>
              let geometry := get "geometry" row in
              if String.eqb (check issue) "invalid_geometry" then
                match geometry with
                | Some (PDict g) =>
                    match make_valid_mapping g with
                    | Some m => (replace_nth i (PDict (set "geometry" m row)) rows,
                                 fx ++ [applied fid "invalid_geometry" "make_valid" "Repaired invalid geometry using make_valid()."])
                    | None => acc
                    end
                | _ => acc
                end
              else if String.eqb (check issue) "excessive_precision" then
                match geometry with
                | Some (PDict g) => (replace_nth i (PDict (set "geometry" (round_value (PDict g)) row)) rows,
                                     fx ++ [applied fid "excessive_precision" "round_coordinates" "Rounded geometry coordinates to 7 decimals."])
                | _ => acc
                end
              else acc
          | _ => acc
          end
      end
  end.

(** [apply_autofix(feature_collection, validation, apply_prompted)]; [fuel]
    bounds the [uuid4()] draws, [None] once it runs out. *)
Definition apply_autofix (fuel : nat) (fc : dict pyval) (validation : ValidationResponse) (apply_prompted : bool)
    : option (dict pyval * list AutofixApplied * list AutofixPrompt) :=
  let rows_opt := match get "features" fc with
                  | None => Some []
                  | Some (PList l) => Some l
                  | Some _ => None
                  end in
  match rows_opt with
  | None => Some (fc, [], [])
  | Some rows =>
      match id_pass fuel O [] rows with
      | None => None
      | Some (rows1, fixes1) =>
          let issues := errors validation ++ warnings validation in
          let '(rows2, fixes2) := fold_left (safe_fix (index_by_id rows1)) issues (rows1, fixes1) in
          let pairs := duplicate_pairs issues in
          let empties := empty_ids issues in
          let prompts := prompts_of pairs empties in
          let to_delete := if apply_prompted then prompted_deletions pairs empties else [] in
          match to_delete with
          | [] => Some (match get "features" fc with
                        | Some _ => set "features" (PList rows2) fc
                        | None => fc
                        end, fixes2, prompts)
          | _ => let '(kept, fixes3) := delete_rows to_delete rows2 in
                 Some (set "features" (PList kept) fc, fixes2 ++ fixes3, prompts)
          end
      end
  end.

End WithEffects.

(** The part of a row the identifier checks see. *)
Definition id_shape_of (r : pyval) : option (option pyval) :=
  match r with PDict d => Some (get "id" d) | _ => None end.

(** The string ids of the dictionary rows of a feature list. *)
Definition str_ids (rows : list pyval) : list string :=
  flat_map (fun r => match r with
                     | PDict d => match get "id" d with Some (PStr f) => [f] | _ => [] end
                     | _ => []
                     end) rows.

(** The ids of a feature list whose rows are all dictionaries with a string id. *)
Fixpoint row_ids (rows : list pyval) : option (list string) :=
  match rows with
  | [] => Some []
  | PDict d :: t => match get "id" d, row_ids t with
                    | Some (PStr f), Some l => Some (f :: l)
                    | _, _ => None
                    end
  | _ :: _ => None
  end.

End Autofix.

(** ** wizard.py and the session record *)
Module Wizard.
Import Chars Py Schemas Validator.
Local Open Scope string_scope.
Local Open Scope list_scope.

(** [AddressInput] *)
Record AddressInput := {
  address : option string;
  address_unit : option string;
  locality : string;
  province : option string;
  country : string;
  postal_code : option string;
  postal_code_ext : option string;
  postal_code_vanity : option string
}.

(** [ProjectWizardState] *)
Record ProjectWizardState := {
  project_name : option string;
  venue_name : string;
  venue_category : string;
  language : string;
  venue_restriction : option string;
  venue_hours : option string;
  venue_phone : option string;
  venue_website : option string;
  project_address : AddressInput
}.

(** [LevelWizardItem]; the fields carry an [item_] prefix, the
    [ImportedFile] record has fields of the same names. *)
Record LevelWizardItem := {
  item_stem : string;
  item_detected_type : option string;
  item_ordinal : option Z;
  item_name : option string;
  item_short_name : option string;
  item_outdoor : bool;
  item_category : string
}.

(** [BuildingWizardState] *)
Record BuildingWizardState := {
  building_id : string;
  building_name : option string;
  building_category : string;
  building_restriction : option string;
  file_stems : list string;
  address_feature_id : option string
}.

(** [WizardState], with [levels.items] as [level_items] and
    [footprint.venue_buffer_m] as [venue_buffer_m]. *)
Record WizardState := {
  project : option ProjectWizardState;
  level_items : list LevelWizardItem;
  buildings : list BuildingWizardState;
  venue_buffer_m : Q;
  venue_address_feature : option (dict pyval);
  building_address_features : list pyval
}.

(** [SessionRecord].  The routers also read and write [session.validation]
    (a [ValidationResponse] or [None]); the record carries it. *)
Record SessionRecord := {
  session_id : string;
  files : list ImportedFile;
  feature_collection : dict pyval;
  source_feature_collection : option (dict pyval);
  wizard : WizardState;
  validation : option ValidationResponse
}.

Definition LEVEL_FILE_TYPES : list string := ["unit"; "opening"; "fixture"; "detail"].

(** [x or ""] for an optional string. *)
Definition opt_or (o : option string) (d : string) : string :=
  match o with Some s => if String.eqb s "" then d else s | None => d end.

(** [bool(x)] for an optional string. *)
Definition opt_truthy (o : option string) : bool :=
  match o with Some s => negb (String.eqb s "") | None => false end.

(** [x or y] for optional strings. *)
Definition opt_orelse (o d : option string) : option string := if opt_truthy o then o else d.

Definition opt_pv (o : option string) : pyval := match o with Some s => PStr s | None => PNone end.

(** wizard.py [_default_short_name] *)
Definition default_short_name (ordinal : option Z) : option string :=
  match ordinal with
  | None => None
  | Some o =>
      if (o =? 0)%Z then Some "GF"
      else if (0 <? o)%Z then Some (str_Z o ++ "F")%string
      else Some ("B" ++ str_Z (Z.abs o))%string
  end.

(** The [BuildingWizardState(id="building-1", file_stems=[...])] default. *)
Definition default_building (fs : list ImportedFile) : BuildingWizardState :=
  {| building_id := "building-1"; building_name := None; building_category := "unspecified";
     building_restriction := None; file_stems := map stem fs; address_feature_id := None |}.

(** The level items [seed_wizard_state] derives from the files. *)
Definition seeded_level_items (fs : list ImportedFile) : list LevelWizardItem :=
  flat_map (fun file =>
    if smem (lower (opt_or (detected_type file) "")) LEVEL_FILE_TYPES then
      [{| item_stem := stem file; item_detected_type := detected_type file; item_ordinal := detected_level file;
          item_name := level_name file;
          item_short_name := opt_orelse (short_name file) (default_short_name (detected_level file));
          item_outdoor := outdoor file; item_category := level_category file |}]
    else []) fs.

(** [seed_wizard_state(session)], which fills empty buildings and level
    items in place. *)
Definition seed_wizard_state (session : SessionRecord) : SessionRecord :=
  let w := wizard session in
  let bs := match buildings w with [] => [default_building (files session)] | l => l end in
  let items := match level_items w with [] => seeded_level_items (files session) | l => l end in
  {| session_id := session_id session; files := files session;
     feature_collection := feature_collection session;
     source_feature_collection := source_feature_collection session;
     wizard := {| project := project w; level_items := items; buildings := bs;
                  venue_buffer_m := venue_buffer_m w; venue_address_feature := venue_address_feature w;
                  building_address_features := building_address_features w |};
     validation := validation session |}.

(** [build_address_feature(address, fallback_name)], [new_id] being its
    [str(uuid4())]. *)
Definition build_address_feature (new_id : string) (a : AddressInput) (fallback_name : option string) : dict pyval :=
  let l1 := strip (opt_or (address a) "") in
  let line := if String.eqb l1 "" then strip (opt_or fallback_name "") else l1 in
  [("type", PStr "Feature"); ("id", PStr new_id); ("feature_type", PStr "address"); ("geometry", PNone);
   ("properties", PDict [("address", PStr line); ("unit", opt_pv (address_unit a));
                         ("locality", PStr (locality a)); ("province", opt_pv (province a));
                         ("country", PStr (country a)); ("postal_code", opt_pv (postal_code a));
                         ("postal_code_ext", opt_pv (postal_code_ext a));
                         ("postal_code_vanity", opt_pv (postal_code_vanity a));
                         ("status", PStr "mapped"); ("issues", PList []);
                         ("_phase3_generated", PBool true)])].

End Wizard.

(** ** generator.py *)
Module Generator.
Import Chars Py Schemas Shapely Validator Wizard.
Local Open Scope string_scope.
Local Open Scope list_scope.

(** [raise] aborts the generation: [None]. *)
Definition bind {A B} (m : option A) (k : A -> option B) : option B :=
  match m with Some a => k a | None => None end.
Local Notation "x <- m ;; k" := (bind m (fun x => k)) (at level 61, m at next level, right associativity).

(** generator.py [_default_short_name] *)
Definition default_short_name (ordinal : Z) : string :=
  if (ordinal =? 0)%Z then "GH"
  else if (0 <? ordinal)%Z then (str_Z ordinal ++ "F")%string
  else ("B" ++ str_Z (Z.abs ordinal))%string.

(** [mapper.wrap_labels(text, language)] for a text or [None]. *)
Definition wrap_labels (value : option string) (language : string) : option (dict pyval) :=
  match value with
  | None => None
  | Some v =>
      let text := strip v in
      if String.eqb text "" then None
      else let tag := if String.eqb (strip language) "" then "en" else strip language in
           Some [(tag, PStr text)]
  end.

Definition labels_pv (o : option (dict pyval)) : pyval :=
  match o with Some d => PDict d | None => PNone end.

(** [_clean_feature(feature)] *)
Definition clean_feature (feature : dict pyval) : dict pyval :=
  match get "properties" feature with
  | Some (PDict p) =>
      set "properties" (PDict (filter (fun kv => negb (startswith "_" (fst kv))) p)) feature
  | _ => feature
  end.

(** [row.get(...)] on a row of the source list: a row that is not a dict
    raises. *)
Definition row_dict (row : pyval) : option (dict pyval) :=
  match row with PDict d => Some d | _ => None end.

(** [(v or {})] read with [.get]: a truthy value that is not a dict raises. *)
Definition or_dict (v : option pyval) : option (dict pyval) :=
  match v with
  | Some x => if truthy x then match x with PDict d => Some d | _ => None end else Some []
  | None => Some []
  end.

(** [v] as a key of a [str]-keyed dict or set: a string is looked up,
    another scalar is absent, a list or dict raises [TypeError]. *)
Definition str_key (v : pyval) : option (option string) :=
  match v with PStr s => Some (Some s) | PList _ | PDict _ => None | _ => Some None end.

(** [v in stems] *)
Definition member_of (stems : list string) (v : option pyval) : option bool :=
  match v with
  | None => Some false
  | Some x => k <- str_key x ;; Some (match k with Some s => smem s stems | None => false end)
  end.

(** A dict keyed by [int] ordinals, in insertion order. *)
Fixpoint zget {A} (k : Z) (d : list (Z * A)) : option A :=
  match d with
  | [] => None
  | (k', v) :: t => if (k =? k')%Z then Some v else zget k t
  end.

Fixpoint zset {A} (k : Z) (v : A) (d : list (Z * A)) : list (Z * A) :=
  match d with
  | [] => [(k, v)]
  | (k', v') :: t => if (k =? k')%Z then (k', v) :: t else (k', v') :: zset k v t
  end.

(** [sorted(d.items(), key=lambda item: item[0])], stable. *)
Fixpoint zinsert {A} (x : Z * A) (l : list (Z * A)) : list (Z * A) :=
  match l with
  | [] => [x]
  | y :: t => if (fst y <=? fst x)%Z then y :: zinsert x t else x :: l
  end.
Definition zsort {A} (l : list (Z * A)) : list (Z * A) := fold_left (fun acc x => zinsert x acc) l [].

(** [set.add] on a set iterated in insertion order. *)
Definition sadd (x : string) (l : list string) : list string := if smem x l then l else l ++ [x].
Definition dedup (l : list string) : list string := fold_left (fun acc x => sadd x acc) l [].

(** A group of [_collect_level_groups]. *)
Record LevelGroup := {
  group_ordinal : Z;
  group_name : option string;
  group_short_name : option string;
  group_category : string;
  group_outdoor : bool;
  group_stems : list string
}.

Definition new_group (o : Z) : LevelGroup :=
  {| group_ordinal := o; group_name := None; group_short_name := None; group_category := "unspecified";
     group_outdoor := false; group_stems := [] |}.

(** The updates of one item to its group. *)
Definition update_group (item : LevelWizardItem) (g : LevelGroup) : LevelGroup :=
  {| group_ordinal := group_ordinal g;
     group_name := if opt_truthy (item_name item) && negb (opt_truthy (group_name g))
                   then item_name item else group_name g;
     group_short_name := if opt_truthy (item_short_name item) && negb (opt_truthy (group_short_name g))
                         then item_short_name item else group_short_name g;
     group_category := if negb (String.eqb (item_category item) "") && negb (String.eqb (item_category item) "unspecified")
                       then item_category item else group_category g;
     group_outdoor := item_outdoor item || group_outdoor g;
     group_stems := sadd (item_stem item) (group_stems g) |}.

(** [_level_items_from_files(session)] *)
Definition level_items_from_files (fs : list ImportedFile) : list LevelWizardItem :=
  flat_map (fun file =>
    if smem (lower (opt_or (detected_type file) "")) ["unit"; "opening"; "fixture"; "detail"] then
      [{| item_stem := stem file; item_detected_type := detected_type file; item_ordinal := detected_level file;
          item_name := level_name file; item_short_name := short_name file;
          item_outdoor := outdoor file; item_category := level_category file |}]
    else []) fs.

(** [_collect_level_groups(session)] *)
Definition collect_level_groups (session : SessionRecord) : list (Z * LevelGroup) :=
  let items := match level_items (wizard session) with
               | [] => level_items_from_files (files session)
               | l => l
               end in
  fold_left (fun grouped item =>
    match item_ordinal item with
    | None => grouped
    | Some o =>
        let g := match zget o grouped with Some g => g | None => new_group o end in
        zset o (update_group item g) grouped
    end) items [].

(** [_source_feature_rows(session)] *)
Definition source_feature_rows (session : SessionRecord) : list pyval :=
  let collection := match source_feature_collection session with
                    | Some ((_ :: _) as c) => c
                    | _ => feature_collection session
                    end in
  match get "features" collection with
  | None => []
  | Some (PList l) => l
  | Some _ => []
  end.

(** [file_map = {item.stem: item for item in session.files}] *)
Definition file_map_of (fs : list ImportedFile) : dict ImportedFile :=
  fold_left (fun m f => set (stem f) f m) fs [].

Definition detected_lower (f : ImportedFile) : string := lower (opt_or (detected_type f) "").

Section WithShapely.
Context `{SH : Shapely}.

(** [uuid5(GENERATOR_NAMESPACE, f"{session_id}:{key}")] as a string. *)
Variable stable_id : string -> string -> string.
(** The [uuid4()] calls of one generation: the [n]-th returns [draw n]. *)
Variable draw : nat -> string.
(** [str(v)] for values that are not scalars. *)
Variable py_repr : pyval -> string.
(** The value the wizard's column mappings give a mapped feature's
    property: [column_value feature_type key metadata] covers the
    [metadata.get(column)] reads, [resolve_unit_category], [_parse_list],
    [_parse_bool], [_normalize_text] and [wrap_labels] of the source for
    the keys other than [level_id], [display_point] and the common ones;
    [None] where it raises. *)
Variable column_value : string -> string -> pyval -> option pyval.

(** [_display_point(geom)] *)
Definition display_point (g : Geom) : pyval :=
  if is_empty g then PNone
  else let p := representative_point g in
       PDict [("type", PStr "Point"); ("coordinates", PList [PFloat (point_x p); PFloat (point_y p)])].

(** [_unit_geometries_by_stem(source_rows, file_map)] *)
Fixpoint unit_geometries_by_stem (rows : list pyval) (file_map : dict ImportedFile) (acc : dict (list Geom))
    : option (dict (list Geom)) :=
  match rows with
  | [] => Some acc
  | row :: t =>
      let next := unit_geometries_by_stem t file_map in
      d <- row_dict row ;;
      props <- or_dict (get "properties" d) ;;
      match get "source_file" props with
      | Some sv =>
          if negb (truthy sv) then next acc else
          k <- str_key sv ;;
          match k with
          | None => next acc
          | Some s =>
              match get s file_map with
              | None => next acc
              | Some fi =>
                  if negb (String.eqb (detected_lower fi) "unit") then next acc else
                  match get "geometry" d with
                  | Some (PDict g) =>
                      geom <- shape (PDict g) ;;
                      if is_empty geom then next acc
                      else next (set s (match get s acc with Some l => l | None => [] end ++ [geom]) acc)
                  | _ => next acc
                  end
              end
          end
      | None => next acc
      end
  end.

(** The fallback scan of the level loop: the non-empty polygons of the
    rows of [stems]. *)
Fixpoint fallback_polygons (stems : list string) (rows : list pyval) : option (list Geom) :=
  match rows with
  | [] => Some []
  | row :: t =>
      d <- row_dict row ;;
      props <- or_dict (get "properties" d) ;;
      inside <- member_of stems (get "source_file" props) ;;
      rest <- fallback_polygons stems t ;;
      if negb inside then Some rest else
      match get "geometry" d with
      | Some (PDict g) =>
          geom <- shape (PDict g) ;;
          if is_empty geom then Some rest
          else if smem (geom_type geom) ["Polygon"; "MultiPolygon"] then Some (geom :: rest) else Some rest
      | _ => Some rest
      end
  end.

Definition building_uuid (sid : string) (b : BuildingWizardState) : string :=
  stable_id sid ("building:" ++ building_id b)%string.

(** What the level loop builds. *)
Record LevelAcc := {
  level_features : list pyval;
  level_id_by_ordinal : list (Z * string);
  level_geom_by_ordinal : list (Z * Geom);
  level_building_ids : list (Z * list string)
}.

(** The linked buildings of a level. *)
Definition linked_buildings (sid : string) (building_rows : list BuildingWizardState) (stems : list string)
    : list string :=
  let linked := sorted_set (flat_map (fun b =>
                  if existsb (fun s => smem s (file_stems b)) stems then [building_uuid sid b] else [])
                  building_rows) in
  match linked, building_rows with
  | [], b :: _ => [building_uuid sid b]
  | _, _ => linked
  end.

(** The level feature of one group. *)
Definition level_feature (sid language : string) (ordinal : Z) (group : LevelGroup) (merged : Geom)
    (linked : list string) : pyval :=
  let level_name := match group_name group with
                    | Some n => if String.eqb n "" then ("Level " ++ str_Z ordinal)%string else n
                    | None => ("Level " ++ str_Z ordinal)%string
                    end in
  let level_short_name := match group_short_name group with
                          | Some n => if String.eqb n "" then default_short_name ordinal else n
                          | None => default_short_name ordinal
                          end in
  PDict [("type", PStr "Feature"); ("id", PStr (stable_id sid ("level:" ++ str_Z ordinal)%string));
         ("feature_type", PStr "level"); ("geometry", geo_interface merged);
         ("properties", PDict [
            ("category", PStr (if String.eqb (group_category group) "" then "unspecified" else group_category group));
            ("restriction", PNone); ("outdoor", PBool (group_outdoor group)); ("ordinal", PInt ordinal);
            ("name", match wrap_labels (Some level_name) language with
                     | Some d => PDict d | None => PDict [(language, PStr level_name)] end);
            ("short_name", match wrap_labels (Some level_short_name) language with
                           | Some d => PDict d | None => PDict [(language, PStr level_short_name)] end);
            ("display_point", display_point merged); ("address_id", PNone);
            ("building_ids", PList (map PStr linked)); ("status", PStr "mapped"); ("issues", PList []);
            ("source_files", PList (map PStr (sorted_set (group_stems group))))])].

(** One round of the level loop, for the group of [ordinal]. *)
Definition level_step (sid language : string) (building_rows : list BuildingWizardState)
    (source_rows : list pyval) (unit_geoms : dict (list Geom))
    (acc : LevelAcc) (og : Z * LevelGroup) : option LevelAcc :=
  let '(ordinal, group) := og in
  let stems := group_stems group in
  let polygon_geoms := flat_map (fun s => match get s unit_geoms with Some l => l | None => [] end) stems in
  polygon_geoms <- (match polygon_geoms with
                    | [] => fallback_polygons stems source_rows
                    | _ => Some polygon_geoms
                    end) ;;
  match polygon_geoms with
  | [] => Some acc
  | _ =>
      let merged := unary_union polygon_geoms in
      if is_empty merged then Some acc else
      let level_id := stable_id sid ("level:" ++ str_Z ordinal)%string in
      let linked := linked_buildings sid building_rows stems in
      Some {| level_features := level_features acc ++ [level_feature sid language ordinal group merged linked];
              level_id_by_ordinal := zset ordinal level_id (level_id_by_ordinal acc);
              level_geom_by_ordinal := zset ordinal merged (level_geom_by_ordinal acc);
              level_building_ids := zset ordinal linked (level_building_ids acc) |}
  end.

Fixpoint level_loop (sid language : string) (building_rows : list BuildingWizardState)
    (source_rows : list pyval) (unit_geoms : dict (list Geom))
    (acc : LevelAcc) (groups : list (Z * LevelGroup)) : option LevelAcc :=
  match groups with
  | [] => Some acc
  | og :: t =>
      acc' <- level_step sid language building_rows source_rows unit_geoms acc og ;;
      level_loop sid language building_rows source_rows unit_geoms acc' t
  end.

(** What the footprint loop builds: the footprints, [ground_geom_by_building]
    and [first_geom_by_building]. *)
Definition FootAcc : Type := list pyval * dict Geom * dict Geom.

(** One footprint, of [building] at [ordinal]. *)
Definition footprint_step (sid : string) (file_map : dict ImportedFile) (unit_geoms : dict (list Geom))
    (level_buildings : list (Z * list string)) (building : BuildingWizardState)
    (acc : FootAcc) (ol : Z * Geom) : FootAcc :=
  let '(ordinal, level_geom) := ol in
  let '(fps, ground, first) := acc in
  let buuid := building_uuid sid building in
  let geometries := flat_map (fun s =>
                      match get s file_map with
                      | None => []
                      | Some fi =>
                          if negb (String.eqb (detected_lower fi) "unit") then [] else
                          match detected_level fi with
                          | Some o => if (o =? ordinal)%Z then match get s unit_geoms with Some l => l | None => [] end
                                      else []
                          | None => []
                          end
                      end) (dedup (file_stems building)) in
  let geometries := match geometries with
                    | [] => if smem buuid (match zget ordinal level_buildings with Some l => l | None => [] end)
                            then [level_geom] else []
                    | _ => geometries
                    end in
  match geometries with
  | [] => acc
  | _ =>
      let merged := unary_union geometries in
      if is_empty merged then acc else
      let category := if (ordinal =? 0)%Z then "ground" else if (0 <? ordinal)%Z then "aerial" else "subterranean" in
      let fp := PDict [("type", PStr "Feature");
                       ("id", PStr (stable_id sid ("footprint:" ++ building_id building ++ ":" ++ str_Z ordinal)%string));
                       ("feature_type", PStr "footprint"); ("geometry", geo_interface merged);
                       ("properties", PDict [("category", PStr category); ("name", PNone);
                                             ("building_ids", PList [PStr buuid]); ("status", PStr "mapped");
                                             ("issues", PList []); ("ordinal", PInt ordinal)])] in
      let first' := match get (building_id building) first with
                    | Some _ => first
                    | None => set (building_id building) merged first
                    end in
      let ground' := if (ordinal =? 0)%Z then set (building_id building) merged ground else ground in
      (fps ++ [fp], ground', first')
  end.

Definition footprint_loop (sid : string) (file_map : dict ImportedFile) (unit_geoms : dict (list Geom))
    (levels : LevelAcc) (building_rows : list BuildingWizardState) : FootAcc :=
  fold_left (fun acc b =>
    fold_left (footprint_step sid file_map unit_geoms (level_building_ids levels) b)
      (zsort (level_geom_by_ordinal levels)) acc)
    building_rows ([], [], []).

(** [ground.get(id) or first.get(id)]: an empty geometry is falsy. *)
Definition anchor_geom (ground first : dict Geom) (bid : string) : option Geom :=
  match get bid ground with
  | Some g => if is_empty g then get bid first else Some g
  | None => get bid first
  end.

(** The building features. *)
Definition building_features (sid language : string) (proj : option ProjectWizardState)
    (ground first : dict Geom) (building_rows : list BuildingWizardState) : list pyval :=
  map (fun b =>
    let fallback_name := match proj with Some p => Some (venue_name p) | None => None end in
    let resolved_name := opt_orelse (building_name b) fallback_name in
    PDict [("type", PStr "Feature"); ("id", PStr (building_uuid sid b)); ("feature_type", PStr "building");
           ("geometry", PNone);
           ("properties", PDict [("name", labels_pv (wrap_labels resolved_name language)); ("alt_name", PNone);
                                 ("category", PStr (if String.eqb (building_category b) "" then "unspecified"
                                                    else building_category b));
                                 ("restriction", opt_pv (building_restriction b));
                                 ("display_point", match anchor_geom ground first (building_id b) with
                                                   | Some g => display_point g | None => PNone end);
                                 ("address_id", opt_pv (address_feature_id b));
                                 ("status", PStr "mapped"); ("issues", PList [])])])
    building_rows.

Definition DEGREES_PER_METER : Q := 1 # 111320.

(** The venue feature, when there is a project and some geometry. *)
Definition venue_feature (sid language : string) (proj : option ProjectWizardState) (buffer_m : Q)
    (venue_address_id : option string) (footprints : list pyval) (levels : LevelAcc)
    (unit_geoms : dict (list Geom)) : option (option pyval) :=
  match proj with
  | None => Some None
  | Some p =>
      from_fps <- fold_right (fun fp acc =>
                    rest <- acc ;;
                    match fp with
                    | PDict f => match get "geometry" f with
                                 | Some (PDict g) => geom <- shape (PDict g) ;; Some (geom :: rest)
                                 | _ => Some rest
                                 end
                    | _ => Some rest
                    end) (Some []) footprints ;;
      let venue_geometries :=
        match from_fps with
        | [] => match filter (fun g => negb (is_empty g)) (map snd (level_geom_by_ordinal levels)) with
                | [] => filter (fun g => negb (is_empty g)) (flat_map snd unit_geoms)
                | l => l
                end
        | l => l
        end in
      match venue_geometries with
      | [] => Some None
      | _ =>
          let merged0 := unary_union venue_geometries in
          let venue_buffer := Qmult (if Qle_bool buffer_m 0 then 0 else buffer_m) DEGREES_PER_METER in
          let merged := if Qlt_bool 0 venue_buffer then buffer merged0 venue_buffer else merged0 in
          Some (Some (PDict [
            ("type", PStr "Feature"); ("id", PStr (stable_id sid "venue")); ("feature_type", PStr "venue");
            ("geometry", geo_interface merged);
            ("properties", PDict [("category", PStr (venue_category p)); ("restriction", opt_pv (venue_restriction p));
                                  ("name", labels_pv (wrap_labels (Some (venue_name p)) language));
                                  ("alt_name", PNone); ("hours", opt_pv (venue_hours p));
                                  ("phone", opt_pv (venue_phone p)); ("website", opt_pv (venue_website p));
                                  ("display_point", display_point merged); ("address_id", opt_pv venue_address_id);
                                  ("status", PStr "mapped"); ("issues", PList [])])]))
      end
  end.

(** [_collect_address_features(session)]; [n] is the next [uuid4()] draw. *)
Definition collect_address_features (w : WizardState) (n : nat) : list pyval * option string * nat :=
  let '(vaf, n1) := match project w, venue_address_feature w with
                    | Some p, None => (Some (build_address_feature (draw n) (project_address p) (Some (venue_name p))), S n)
                    | _, v => (v, n)
                    end in
  let '(addresses, venue_address_id) :=
    match vaf with
    | Some f => let cleaned := clean_feature f in
                ([cleaned], match get "id" cleaned with
                            | Some i => if truthy i then Some (py_str py_repr i) else None
                            | None => None
                            end)
    | None => ([], None)
    end in
  let known := flat_map (fun c => match get "id" c with
                                  | Some i => if truthy i then [py_str py_repr i] else []
                                  | None => []
                                  end) addresses in
  let '(addresses', _) :=
    fold_left (fun acc feature =>
      let '(out, known) := acc in
      match feature with
      | PDict f =>
          let cleaned := clean_feature f in
          let address_id := match get "id" cleaned with
                            | Some i => if truthy i then Some (py_str py_repr i) else None
                            | None => None
                            end in
          match address_id with
          | Some a => if smem a known then (out, known) else (out ++ [cleaned], sadd a known)
          | None => (out ++ [cleaned], known)
          end
      | _ => (out, known)
      end) (building_address_features w) (addresses, known) in
  (map PDict addresses', venue_address_id, n1).

Definition LEVEL_LINKED : list string := ["unit"; "opening"; "fixture"; "detail"].

(** The properties of a mapped feature of type [ft]. *)
Definition mapped_properties (ft level_id : string) (metadata : pyval) (geom : Geom)
    (common : dict pyval) : option (dict pyval) :=
  let cv k := column_value ft k metadata in
  if String.eqb ft "unit" then
    category <- cv "category" ;; restriction <- cv "restriction" ;; accessibility <- cv "accessibility" ;;
    name <- cv "name" ;; alt_name <- cv "alt_name" ;;
    Some ([("category", category); ("restriction", restriction); ("accessibility", accessibility);
           ("name", name); ("alt_name", alt_name); ("level_id", PStr level_id);
           ("display_point", display_point geom)] ++ common)
  else if String.eqb ft "opening" then
    category <- cv "category" ;; accessibility <- cv "accessibility" ;; access_control <- cv "access_control" ;;
    door <- cv "door" ;; name <- cv "name" ;;
    Some ([("category", category); ("accessibility", accessibility); ("access_control", access_control);
           ("door", door); ("name", name); ("alt_name", PNone); ("display_point", display_point geom);
           ("level_id", PStr level_id)] ++ common)
  else if String.eqb ft "fixture" then
    category <- cv "category" ;; name <- cv "name" ;; alt_name <- cv "alt_name" ;;
    Some ([("category", category); ("name", name); ("alt_name", alt_name); ("anchor_id", PNone);
           ("level_id", PStr level_id); ("display_point", display_point geom)] ++ common)
  else Some ([("level_id", PStr level_id)] ++ common).

(** The mapped-feature loop; [n] is the next [uuid4()] draw. *)
Fixpoint mapped_loop (file_map : dict ImportedFile) (level_ids : list (Z * string)) (rows : list pyval) (n : nat)
    : option (list pyval * nat) :=
  match rows with
  | [] => Some ([], n)
  | row :: t =>
      let next := mapped_loop file_map level_ids t in
      d <- row_dict row ;;
      row_properties <- or_dict (get "properties" d) ;;
      match get "source_file" row_properties with
      | None => next n
      | Some sv =>
          if negb (truthy sv) then next n else
          k <- str_key sv ;;
          match k with
          | None => next n
          | Some s =>
              match get s file_map with
              | None => next n
              | Some fi =>
                  let ft := detected_lower fi in
                  if negb (smem ft LEVEL_LINKED) then next n else
                  match get "geometry" d with
                  | Some (PDict g) =>
                      geom <- shape (PDict g) ;;
                      if is_empty geom then next n else
                      match detected_level fi with
                      | None => next n
                      | Some ordinal =>
                          match zget ordinal level_ids with
                          | None => next n
                          | Some level_id =>
                              if String.eqb level_id "" then next n else
                              let metadata := match get "metadata" row_properties with
                                              | Some m => if truthy m then m else PDict []
                                              | None => PDict []
                                              end in
                              let common := [("source_file", PStr s); ("status", PStr "mapped"); ("issues", PList []);
                                             ("metadata", metadata)] in
                              props <- mapped_properties ft level_id metadata geom common ;;
                              let '(fid, n') := match get "id" d with
                                                | Some i => if truthy i then (py_str py_repr i, n) else (draw n, S n)
                                                | None => (draw n, S n)
                                                end in
                              r <- next n' ;;
                              let '(rest, n'') := r in
                              Some (PDict [("type", PStr "Feature"); ("id", PStr fid); ("feature_type", PStr ft);
                                           ("geometry", PDict g); ("properties", PDict props)] :: rest, n'')
                          end
                      end
                  | _ => next n
                  end
              end
          end
      end
  end.

(** [generate_feature_collection(session, unit_categories_path)]; [None]
    where it raises. *)
Definition generate_feature_collection (session0 : SessionRecord) : option (dict pyval) :=
  let session := seed_wizard_state session0 in
  let w := wizard session in
  let sid := session_id session in
  let source_rows := source_feature_rows session in
  let file_map := file_map_of (files session) in
  let language := match project w with
                  | Some p => if String.eqb (strip (language p)) "" then "en" else strip (language p)
                  | None => "en"
                  end in
  let building_rows := match buildings w with
                       | [] => [default_building (files session)]
                       | l => l
                       end in
  let level_groups := collect_level_groups session in
  unit_geoms <- unit_geometries_by_stem source_rows file_map [] ;;
  let '(addresses, venue_address_id, n) := collect_address_features w O in
  levels <- level_loop sid language building_rows source_rows unit_geoms
              {| level_features := []; level_id_by_ordinal := []; level_geom_by_ordinal := [];
                 level_building_ids := [] |} (zsort level_groups) ;;
  let '(footprints, ground, first) := footprint_loop sid file_map unit_geoms levels building_rows in
  let buildings_out := building_features sid language (project w) ground first building_rows in
  venue <- venue_feature sid language (project w) (venue_buffer_m w) venue_address_id footprints levels unit_geoms ;;
  mapped <- mapped_loop file_map (level_id_by_ordinal levels) source_rows n ;;
  let final_features := addresses ++ match venue with Some v => [v] | None => [] end
                        ++ buildings_out ++ footprints ++ level_features levels ++ fst mapped in
  Some [("type", PStr "FeatureCollection"); ("features", PList final_features)].

End WithShapely.

End Generator.

(** ** A stand-in for shapely on GeoJSON payloads *)
Module PayloadGeometry.
Import Chars Py Shapely Validator.
Local Open Scope string_scope.
Local Open Scope list_scope.

Definition str_Q (q : Q) : string := (str_Z (Qnum q) ++ "/" ++ str_Z (Zpos (Qden q)))%string.

(** A canonical text of a JSON value. *)
Fixpoint repr (v : pyval) : string :=
  match v with
  | PNone => "None"
  | PBool b => if b then "True" else "False"
  | PInt z => str_Z z
  | PFloat q => str_Q q
  | PStr s => ("'" ++ s ++ "'")%string
  | PList l => ("[" ++ (fix go (l : list pyval) : string :=
                          match l with [] => "" | h :: t => (repr h ++ "," ++ go t)%string end) l ++ "]")%string
  | PDict d => ("{" ++ (fix go (d : list (string * pyval)) : string :=
                          match d with [] => "" | (k, h) :: t => (k ++ ":" ++ repr h ++ "," ++ go t)%string end) d
                ++ "}")%string
  end.

Definition point (x y : Q) : dict pyval :=
  [("type", PStr "Point"); ("coordinates", PList [PFloat x; PFloat y])].

(** A geometry is its GeoJSON mapping: [shape] accepts a mapping with a
    geometry type and a coordinate list, a geometry is empty when it has no
    coordinate, and its WKB is a function of its mapping, so that two
    identical payloads have the same [wkb_hex], as with shapely.  The
    centroid is the first vertex and the metric and spatial answers are
    fixed; the examples that use this instance depend on none of them. *)
Definition payload_shapely : Shapely := {|
  Geom := dict pyval;
  shape v := match v with
             | PDict d =>
                 if str_in (get "type" d) ["Point"; "LineString"; "Polygon"; "MultiPolygon"]
                 then match get "coordinates" d with Some (PList _) => Some d | _ => None end
                 else None
             | _ => None
             end;
  is_empty d := match coords d with [] => true | _ => false end;
  is_valid _ := true;
  geom_type d := match get "type" d with Some (PStr t) => t | _ => "" end;
  is_linestring d := str_in (get "type" d) ["LineString"];
  centroid d := match coords d with (x, y) :: _ => point x y | [] => [] end;
  representative_point d := match coords d with (x, y) :: _ => point x y | [] => [] end;
  point_x d := match coords d with (x, _) :: _ => x | [] => 0%Q end;
  point_y d := match coords d with (_, y) :: _ => y | [] => 0%Q end;
  area _ := 0%Q;
  geom_length _ := 0%Q;
  contains _ _ := false;
  touches _ _ := false;
  intersects _ _ := false;
  intersection _ _ := [];
  boundary d := d;
  buffer d _ := d;
  unary_union l := match l with d :: _ => d | [] => [] end;
  geo_interface d := PDict d;
  wkb_hex d := repr (PDict d)
|}.

End PayloadGeometry.

(** ** Example collections *)
Module ValidatorExamples.
Import Py.
Local Open Scope string_scope.
Local Open Scope list_scope.

Definition square : pyval :=
  PDict [("type", PStr "Polygon");
         ("coordinates", PList [PList [PList [PInt 139; PInt 35]; PList [PInt 140; PInt 35];
                                       PList [PInt 140; PInt 36]; PList [PInt 139; PInt 36];
                                       PList [PInt 139; PInt 35]]])].

Definition unit_row (fid lid : string) : pyval :=
  PDict [("id", PStr fid); ("feature_type", PStr "unit"); ("geometry", square);
         ("properties", PDict [("level_id", PStr lid); ("category", PStr "room")])].

Definition uuid_a : string := "11111111-1111-4111-8111-111111111111".
Definition uuid_b : string := "22222222-2222-4222-8222-222222222222".

(** Two units on one level with the same geometry. *)
Definition twin_units : dict pyval :=
  [("type", PStr "FeatureCollection");
   ("features", PList [unit_row uuid_a "33333333-3333-4333-8333-333333333333";
                       unit_row uuid_b "33333333-3333-4333-8333-333333333333"])].

End ValidatorExamples.

Module AutofixExamples.
Import Py Validator Autofix ValidatorExamples.
Local Open Scope string_scope.
Local Open Scope list_scope.

(** A [uuid4()] stream. *)
Definition draws (n : nat) : string :=
  match n with
  | O => "aaaaaaaa-aaaa-4aaa-8aaa-aaaaaaaaaaaa"
  | S O => "bbbbbbbb-bbbb-4bbb-8bbb-bbbbbbbbbbbb"
  | _ => "cccccccc-cccc-4ccc-8ccc-cccccccccccc"
  end.

(** A [make_valid] that returns its input. *)
Definition repair_identity (g : dict pyval) : option pyval := Some (PDict g).

Definition uuid_c : string := "44444444-4444-4444-8444-444444444444".
Definition level_x : string := "33333333-3333-4333-8333-333333333333".

(** Two units with the same geometry and a third one elsewhere, all with
    well-formed distinct ids. *)
Definition three_units_rows : list pyval :=
  [unit_row uuid_a level_x; unit_row uuid_b level_x;
   PDict [("id", PStr uuid_c); ("feature_type", PStr "unit");
          ("geometry", PDict [("type", PStr "Polygon");
                              ("coordinates", PList [PList [PList [PInt 141; PInt 35]; PList [PInt 142; PInt 35];
                                                            PList [PInt 142; PInt 36]; PList [PInt 141; PInt 36];
                                                            PList [PInt 141; PInt 35]]])]);
          ("properties", PDict [("level_id", PStr level_x); ("category", PStr "room")])]].

Definition three_units : dict pyval :=
  [("type", PStr "FeatureCollection"); ("features", PList three_units_rows)].

(** The twin units with ids that are not UUIDs. *)
Definition twin_units_plain_ids : dict pyval :=
  [("type", PStr "FeatureCollection");
   ("features", PList [unit_row "unit-a" level_x; unit_row "unit-b" level_x])].

(** Ids repeated and malformed. *)
Definition clashing_ids : dict pyval :=
  [("type", PStr "FeatureCollection");
   ("features", PList [unit_row "x" level_x; unit_row "x" level_x; unit_row uuid_a level_x;
                       unit_row uuid_a level_x; PStr "not a feature"])].

End AutofixExamples.

(** ** Example sessions *)
Module GeneratorExamples.
Import Chars Py Schemas Validator Wizard Generator ValidatorExamples.
Local Open Scope string_scope.
Local Open Scope list_scope.

(** A stand-in for [_stable_id]: the session id and the key. *)
Definition example_stable_id (sid key : string) : string := (sid ++ ":" ++ key)%string.

(** Column mappings that give [None] for every configured column. *)
Definition no_columns (ft key : string) (metadata : pyval) : option pyval := Some PNone.

Definition line : pyval :=
  PDict [("type", PStr "LineString");
         ("coordinates", PList [PList [PInt 139; PInt 35]; PList [PInt 140; PInt 35]])].

(** A unit file on the ground floor and an opening file on the second
    floor, which has no polygon. *)
Definition example_files : list ImportedFile :=
  [imported_file "Station_GF_Space" (Some "unit") (Some 0%Z);
   imported_file "Station_2F_Opening" (Some "opening") (Some 1%Z)].

Definition example_rows : list pyval :=
  [PDict [("id", PStr "u1"); ("geometry", square);
          ("properties", PDict [("source_file", PStr "Station_GF_Space")])];
   PDict [("id", PStr "o1"); ("geometry", line);
          ("properties", PDict [("source_file", PStr "Station_2F_Opening")])]].

Definition example_wizard (items : list LevelWizardItem) : WizardState :=
  {| project := None; level_items := items; buildings := []; venue_buffer_m := 5;
     venue_address_feature := None; building_address_features := [] |}.

Definition example_session (items : list LevelWizardItem) : SessionRecord :=
  {| session_id := "s1"; files := example_files;
     feature_collection := [("type", PStr "FeatureCollection"); ("features", PList example_rows)];
     source_feature_collection := None; wizard := example_wizard items; validation := None |}.

(** The level items as [PATCH /wizard/levels] stores them, with no short name. *)
Definition unnamed_ground_items : list LevelWizardItem :=
  [{| item_stem := "Station_GF_Space"; item_detected_type := Some "unit"; item_ordinal := Some 0%Z;
      item_name := None; item_short_name := None; item_outdoor := false; item_category := "unspecified" |}].

Definition generate_example (session : SessionRecord) : option (dict pyval) :=
  @generate_feature_collection PayloadGeometry.payload_shapely example_stable_id AutofixExamples.draws
    PayloadGeometry.repr no_columns session.

(** The [short_name] property of every level feature of a collection. *)
Definition level_short_names (out : option (dict pyval)) : list pyval :=
  match out with
  | Some fc =>
      match get "features" fc with
      | Some (PList feats) =>
          flat_map (fun f => match f with
                             | PDict d =>
                                 if str_in (get "feature_type" d) ["level"] then
                                   match get "properties" d with
                                   | Some (PDict p) => match get "short_name" p with Some v => [v] | None => [] end
                                   | _ => []
                                   end
                                 else []
                             | _ => []
                             end) feats
      | _ => []
      end
  | None => []
  end.

End GeneratorExamples.

Module ExportRouter.
Import Py Validator Wizard.
Local Open Scope string_scope.
Local Open Scope list_scope.

(** The session store of [SessionManager]: sessions by id. *)
Definition Store : Type := dict SessionRecord.

(** [manager.save_session(session)] *)
Definition save_session (session : SessionRecord) (store : Store) : Store :=
  set (session_id session) session store.

(** The assignments to [session.feature_collection] and
    [session.validation]. *)
Definition with_validation (session : SessionRecord) (fc : dict pyval) (v : ValidationResponse)
    : SessionRecord :=
  {| session_id := session_id session;
     files := files session;
     feature_collection := fc;
     source_feature_collection := source_feature_collection session;
     wizard := wizard session;
     validation := Some v |}.

(** What the endpoint ends with: the [KeyError] of a missing session, the
    [ValueError] of a blocked export, or the zip [Response]. *)
Inductive ExportResult :=
| SessionNotFound
| ExportBlocked (msg : string)
| ZipResponse (payload filename : string).

Section WithShapely.
Context `{SH : Shapely.Shapely}.
Variable set_order : list string -> list string.
(** [build_export_archive(session)]: the payload bytes and the file name. *)
Variable build_export_archive : SessionRecord -> string * string.

(** [export_imdf] *)
Definition export_imdf (store : Store) (sid : string) : Store * ExportResult :=
  match get sid store with
  | None => (store, SessionNotFound)
  | Some session =>
      let v := validate_feature_collection set_order (feature_collection session) in
      let session' := with_validation session
                        (annotate_feature_collection_with_validation (feature_collection session) v) v in
      if (0 <? error_count (summary v))%nat then
        (save_session session' store, ExportBlocked "Export blocked: unresolved validation errors remain.")
      else
        let '(payload, filename) := build_export_archive session' in
        (save_session session' store, ZipResponse payload filename)
  end.

End WithShapely.
End ExportRouter.


Module Importer.
Local Open Scope list_scope.

(** [CleanupSummary] *)
Record CleanupSummary := {
  multipolygons_exploded : nat;
  rings_closed : nat;
  features_reoriented : nat;
  empty_features_dropped : nat;
  coordinates_rounded : nat
}.

Definition add_exploded (n : nat) (s : CleanupSummary) : CleanupSummary :=
  {| multipolygons_exploded := multipolygons_exploded s + n; rings_closed := rings_closed s;
     features_reoriented := features_reoriented s; empty_features_dropped := empty_features_dropped s;
     coordinates_rounded := coordinates_rounded s |}.
Definition add_ring_closed (s : CleanupSummary) : CleanupSummary :=
  {| multipolygons_exploded := multipolygons_exploded s; rings_closed := S (rings_closed s);
     features_reoriented := features_reoriented s; empty_features_dropped := empty_features_dropped s;
     coordinates_rounded := coordinates_rounded s |}.
Definition add_reoriented (s : CleanupSummary) : CleanupSummary :=
  {| multipolygons_exploded := multipolygons_exploded s; rings_closed := rings_closed s;
     features_reoriented := S (features_reoriented s); empty_features_dropped := empty_features_dropped s;
     coordinates_rounded := coordinates_rounded s |}.
Definition add_dropped (s : CleanupSummary) : CleanupSummary :=
  {| multipolygons_exploded := multipolygons_exploded s; rings_closed := rings_closed s;
     features_reoriented := features_reoriented s; empty_features_dropped := S (empty_features_dropped s);
     coordinates_rounded := coordinates_rounded s |}.
Definition add_rounded (s : CleanupSummary) : CleanupSummary :=
  {| multipolygons_exploded := multipolygons_exploded s; rings_closed := rings_closed s;
     features_reoriented := features_reoriented s; empty_features_dropped := empty_features_dropped s;
     coordinates_rounded := S (coordinates_rounded s) |}.

(** Shapely geometries as the importer sees them: a polygon is its
    exterior ring and its interior rings, a multipolygon its polygon parts;
    any other geometry (point, line, collection) is its type and its
    coordinates. *)
Definition Point : Type := (Q * Q)%type.
Definition Ring : Type := list Point.
Definition PolygonData : Type := (Ring * list Ring)%type.

Inductive Geometry :=
| Polygon (exterior : Ring) (interiors : list Ring)
| MultiPolygon (parts : list PolygonData)
| OtherGeometry (geom_type : string) (coords : list Point).

Definition point_eqb (a b : Point) : bool := Qeq_bool (fst a) (fst b) && Qeq_bool (snd a) (snd b).

Fixpoint ring_eqb (a b : Ring) : bool :=
  match a, b with
  | [], [] => true
  | p :: a', q :: b' => point_eqb p q && ring_eqb a' b'
  | _, _ => false
  end.

Definition polygon_eqb (a b : PolygonData) : bool :=
  ring_eqb (fst a) (fst b)
  && (Nat.eqb (length (snd a)) (length (snd b)))
  && forallb (fun '(r, r') => ring_eqb r r') (combine (snd a) (snd b)).

(** [_close_ring] *)
Definition close_ring (coords : Ring) (s : CleanupSummary) : Ring * CleanupSummary :=
  match coords with
  | [] => (coords, s)
  | c0 :: _ => if point_eqb c0 (last coords c0) then (coords, s) else (coords ++ [c0], add_ring_closed s)
  end.

Fixpoint close_rings (rings : list Ring) (s : CleanupSummary) : list Ring * CleanupSummary :=
  match rings with
  | [] => ([], s)
  | r :: t => let '(r', s1) := close_ring r s in
              let '(t', s2) := close_rings t s1 in
              (r' :: t', s2)
  end.

(** [LinearRing(coords)] raises below four coordinates; an empty shell
    gives the empty polygon. *)
Definition ring_ok (r : Ring) : bool :=
  match r with [] => true | _ => (4 <=? length r)%nat end.

(** Twice the signed area of a closed ring ([signed_area]). *)
Fixpoint shoelace (r : Ring) : Q :=
  match r with
  | p :: ((q :: _) as t) => (fst p * snd q - fst q * snd p + shoelace t)%Q
  | _ => 0%Q
  end.

(** [orient(polygon, sign=1.0)]: a counter-clockwise exterior, clockwise
    interiors. *)
Definition orient (p : PolygonData) : PolygonData :=
  ((if Qle_bool 0 (shoelace (fst p)) then fst p else rev (fst p)),
   map (fun r => if Qle_bool (shoelace r) 0 then r else rev r) (snd p)).

(** [_normalize_polygon]; [None] where [Polygon(exterior, interiors)]
    raises. *)
Definition normalize_polygon (p : PolygonData) (s : CleanupSummary) : option (PolygonData * CleanupSummary) :=
  let '(exterior, s1) := close_ring (fst p) s in
  let '(interiors, s2) := close_rings (snd p) s1 in
  if forallb ring_ok (exterior :: interiors) then
    let rebuilt := (exterior, interiors) in
    let oriented := orient rebuilt in
    Some (oriented, if polygon_eqb rebuilt oriented then s2 else add_reoriented s2)
  else None.

Fixpoint normalize_parts (ps : list PolygonData) (s : CleanupSummary)
    : option (list PolygonData * CleanupSummary) :=
  match ps with
  | [] => Some ([], s)
  | p :: t =>
      match normalize_polygon p s with
      | None => None
      | Some (p', s1) =>
          match normalize_parts t s1 with
          | None => None
          | Some (t', s2) => Some (p' :: t', s2)
          end
      end
  end.

(** [_normalize_geometry] *)
Definition normalize_geometry (g : Geometry) (s : CleanupSummary) : option (Geometry * CleanupSummary) :=
  match g with
  | Polygon e i =>
      match normalize_polygon (e, i) s with
      | Some ((e', i'), s') => Some (Polygon e' i', s')
      | None => None
      end
  | MultiPolygon ps =>
      match normalize_parts ps s with
      | Some (ps', s') => Some (MultiPolygon ps', s')
      | None => None
      end
  | other => Some (other, s)
  end.

(** [round(value, precision)] on the exact value: to the nearest multiple
    of [10^-precision], ties to even. *)
Definition round_Q (precision : nat) (q : Q) : Q :=
  let m := (10 ^ Z.of_nat precision)%Z in
  let n := (Qnum q * m)%Z in
  let d := Zpos (Qden q) in
  let fl := (n / d)%Z in
  let r := (n mod d)%Z in
  let k := if (2 * r <? d)%Z then fl
           else if (d <? 2 * r)%Z then (fl + 1)%Z
           else if Z.even fl then fl else (fl + 1)%Z in
  Qmake k (Z.to_pos m).

(** [_round_json_value] on one float. *)
Definition round_value (precision : nat) (v : Q) (s : CleanupSummary) : Q * CleanupSummary :=
  let r := round_Q precision v in
  (r, if Qeq_bool r v then s else add_rounded s).

Definition round_point (precision : nat) (p : Point) (s : CleanupSummary) : Point * CleanupSummary :=
  let '(x, s1) := round_value precision (fst p) s in
  let '(y, s2) := round_value precision (snd p) s1 in
  ((x, y), s2).

Fixpoint round_ring (precision : nat) (r : Ring) (s : CleanupSummary) : Ring * CleanupSummary :=
  match r with
  | [] => ([], s)
  | p :: t => let '(p', s1) := round_point precision p s in
              let '(t', s2) := round_ring precision t s1 in
              (p' :: t', s2)
  end.

Fixpoint round_rings (precision : nat) (rs : list Ring) (s : CleanupSummary) : list Ring * CleanupSummary :=
  match rs with
  | [] => ([], s)
  | r :: t => let '(r', s1) := round_ring precision r s in
              let '(t', s2) := round_rings precision t s1 in
              (r' :: t', s2)
  end.

Definition round_polygon (precision : nat) (p : PolygonData) (s : CleanupSummary) : PolygonData * CleanupSummary :=
  let '(e, s1) := round_ring precision (fst p) s in
  let '(i, s2) := round_rings precision (snd p) s1 in
  ((e, i), s2).

Fixpoint round_parts (precision : nat) (ps : list PolygonData) (s : CleanupSummary)
    : list PolygonData * CleanupSummary :=
  match ps with
  | [] => ([], s)
  | p :: t => let '(p', s1) := round_polygon precision p s in
              let '(t', s2) := round_parts precision t s1 in
              (p' :: t', s2)
  end.

(** [_round_geometry]: [shape] of the rounded [mapping]. *)
Definition round_geometry (g : Geometry) (precision : nat) (s : CleanupSummary) : Geometry * CleanupSummary :=
  match g with
  | Polygon e i => let '((e', i'), s') := round_polygon precision (e, i) s in (Polygon e' i', s')
  | MultiPolygon ps => let '(ps', s') := round_parts precision ps s in (MultiPolygon ps', s')
  | OtherGeometry t cs => let '(cs', s') := round_ring precision cs s in (OtherGeometry t cs', s')
  end.

(** [geom.is_empty] *)
Definition is_empty (g : Geometry) : bool :=
  match g with
  | Polygon e _ => match e with [] => true | _ => false end
  | MultiPolygon ps => forallb (fun p => match fst p with [] => true | _ => false end) ps
  | OtherGeometry _ cs => match cs with [] => true | _ => false end
  end.

(** The loop of [_clean_geometry] over the candidates. *)
Fixpoint clean_candidates (precision : nat) (candidates : list Geometry) (s : CleanupSummary)
    : list Geometry * CleanupSummary :=
  match candidates with
  | [] => ([], s)
  | c :: t =>
      if is_empty c then clean_candidates precision t (add_dropped s)
      else
        let '(rounded, s1) := round_geometry c precision s in
        if is_empty rounded then clean_candidates precision t (add_dropped s1)
        else let '(rest, s2) := clean_candidates precision t s1 in (rounded :: rest, s2)
  end.

(** [_clean_geometry], with shapely's [make_valid] as a parameter; [None]
    where the normalization raises.  [max(0, len(candidates) - 1)] is the
    truncated subtraction of [nat]. *)
Definition clean_geometry (make_valid : Geometry -> Geometry) (geom : option Geometry)
    (s : CleanupSummary) (precision : nat) : option (list Geometry * CleanupSummary) :=
  match geom with
  | None => Some ([], add_dropped s)
  | Some g =>
      let fixed := make_valid g in
      match normalize_geometry fixed s with
      | None => None
      | Some (normalized, s1) =>
          let '(candidates, s2) :=
            match normalized with
            | MultiPolygon ps => (map (fun p => Polygon (fst p) (snd p)) ps, add_exploded (length ps - 1) s1)
            | other => ([other], s1)
            end in
          Some (clean_candidates precision candidates s2)
      end
  end.

End Importer.

Module ImporterExamples.
Import Importer.
Local Open Scope list_scope.

Definition square (x y : Z) : PolygonData :=
  ([(inject_Z x, inject_Z y); (inject_Z (x + 1), inject_Z y); (inject_Z (x + 1), inject_Z (y + 1));
    (inject_Z x, inject_Z (y + 1)); (inject_Z x, inject_Z y)], []).

Fixpoint dedup_parts (ps : list PolygonData) : list PolygonData :=
  match ps with
  | [] => []
  | p :: t => p :: filter (fun q => negb (polygon_eqb p q)) (dedup_parts t)
  end.

(** A stand-in for shapely's [make_valid] on multipolygons: a valid
    geometry comes back unchanged, and parts with the same rings, which
    make a multipolygon invalid, are dissolved into one; a single part left
    comes back as a [Polygon], as GEOS returns it. *)
Definition make_valid_example (g : Geometry) : Geometry :=
  match g with
  | MultiPolygon ps =>
      match dedup_parts ps with
      | [p] => Polygon (fst p) (snd p)
      | ps' => MultiPolygon ps'
      end
  | other => other
  end.

Definition empty_summary : CleanupSummary :=
  {| multipolygons_exploded := 0; rings_closed := 0; features_reoriented := 0;
     empty_features_dropped := 0; coordinates_rounded := 0 |}.

(** Two disjoint unit squares: a valid multipolygon of two parts. *)
Definition two_squares : Geometry := MultiPolygon [square 0 0; square 2 0].

(** The same square twice: a multipolygon of two parts that [make_valid]
    dissolves. *)
Definition doubled_square : Geometry := MultiPolygon [square 0 0; square 0 0].

End ImporterExamples.


(** ** detector.py: feature-type detection and the session keyword table *)
Module DetectorTypes.
Import Chars Schemas Py Detector.
Local Open Scope string_scope.
Local Open Scope list_scope.

(** [FEATURE_TYPE_VALUES] *)
Definition FEATURE_TYPE_VALUES : list string :=
  ["unit"; "opening"; "fixture"; "detail"; "level"; "building"; "venue"].

(** A keyword table [dict[str, set[str]]]: each set in its iteration order. *)
Definition Keywords : Type := dict (list string).

(** One step of the inner loop of [detect_feature_type]: a keyword found in
    the stem replaces the best match only when strictly longer. *)
Definition best_step (lowered ft : string) (best : option (string * nat)) (kw : string)
    : option (string * nat) :=
  if contains kw lowered then
    match best with
    | None => Some (ft, String.length kw)
    | Some (_, l) => if (l <? String.length kw)%nat then Some (ft, String.length kw) else best
    end
  else best.

(** [detect_feature_type]: the type and the confidence. *)
Definition detect_feature_type (stem geometry_type : string) (keywords : Keywords) : option string * string :=
  let lowered := lower stem in
  let best_match := fold_left (fun best '(ft, values) => fold_left (best_step lowered ft) values best)
                              keywords None in
  match best_match with
  | Some (ft, _) => (Some ft, "green")
  | None =>
      let normalized_geom := lower geometry_type in
      if contains "polygon" normalized_geom then (Some "unit", "yellow")
      else if contains "linestring" normalized_geom then (Some "opening", "yellow")
      else (None, "red")
  end.

(** [s.add(x)] on a set kept in iteration order. *)
Definition set_add (x : string) (s : list string) : list string :=
  if smem x s then s else s ++ [x].

(** [merge_learned_keywords] *)
Definition merge_learned_keywords (base_keywords : Keywords) (learned_keywords : dict string) : Keywords :=
  fold_left (fun merged '(kw, ft) =>
    if smem ft FEATURE_TYPE_VALUES
    then set ft (set_add (lower kw) (match get ft merged with Some s => s | None => [] end)) merged
    else merged) learned_keywords base_keywords.

(** [detect_files]: each file with its detected type and level, beside the
    confidence, which the [ImportedFile] record of the model leaves out. *)
Definition detect_files (files : list ImportedFile) (keywords : Keywords) (preserve_manual_levels : bool)
    : list (ImportedFile * string) :=
  map (fun item =>
    let '(inferred_type, confidence) := detect_feature_type (stem item) (geometry_type item) keywords in
    let inferred_level := detect_level_ordinal (stem item) in
    ({| stem := stem item; geometry_type := geometry_type item; detected_type := inferred_type;
        detected_level := if negb preserve_manual_levels || match detected_level item with None => true | Some _ => false end
                          then inferred_level else detected_level item;
        level_name := level_name item; short_name := short_name item; outdoor := outdoor item;
        level_category := level_category item |}, confidence)) files.

(** [item.detected_type or "source"] *)
Definition type_or_source (item : ImportedFile) : string :=
  match detected_type item with Some t => if String.eqb t "" then "source" else t | None => "source" end.

(** [stem_to_type]: a later file with the same stem wins. *)
Definition stem_to_type (files : list ImportedFile) : dict string :=
  fold_left (fun d item => set (stem item) (type_or_source item) d) files [].

(** The loop body of [sync_feature_types] on one feature; [None] where it
    raises: a feature or a [properties] value that is not a dict has no
    [.get], and a list or dict [source_file] is unhashable. *)
Definition sync_feature (m : dict string) (feature : pyval) : option pyval :=
  match feature with
  | PDict d =>
      match match get "properties" d with Some p => p | None => PDict [] end with
      | PDict props =>
          match get "source_file" props with
          | Some (PStr s) =>
              match get s m with
              | Some t => Some (PDict (set "feature_type" (PStr t) d))
              | None => Some feature
              end
          | Some (PList _) | Some (PDict _) => None
          | _ => Some feature
          end
      | _ => None
      end
  | _ => None
  end.

Fixpoint sync_all (m : dict string) (l : list pyval) : option (list pyval) :=
  match l with
  | [] => Some []
  | f :: t => match sync_feature m f, sync_all m t with
              | Some f', Some t' => Some (f' :: t')
              | _, _ => None
              end
  end.

(** [sync_feature_types]; [None] where it raises.  [copied.get("features", [])]
    is iterated: a list feature by feature, a dict by its string keys and a
    string by its characters, which have no [.get]; other values are not
    iterable. *)
Definition sync_feature_types (feature_collection : dict pyval) (files : list ImportedFile) : option (dict pyval) :=
  let m := stem_to_type files in
  match get "features" feature_collection with
  | None => Some feature_collection
  | Some (PList l) =>
      match sync_all m l with
      | Some l' => Some (set "features" (PList l') feature_collection)
      | None => None
      end
  | Some (PDict []) | Some (PStr EmptyString) => Some feature_collection
  | Some _ => None
  end.

(** The keyword set of a type in a table, empty for a type it lacks. *)
Definition kws_of (t : string) (d : Keywords) : list string := match get t d with Some s => s | None => [] end.

End DetectorTypes.

(** ** session.py: [MemorySessionBackend] and [SessionManager] *)
Module Session.
Import Py Schemas Wizard.
Local Open Scope string_scope.
Local Open Scope list_scope.

(** A stored [SessionRecord] with its two timestamps, [created_at] and
    [last_accessed], as microseconds since the epoch. *)
Record TimedSession := {
  record : SessionRecord;
  created_at : Z;
  last_accessed : Z
}.

Definition sid (s : TimedSession) : string := session_id (record s).

(** [MemorySessionBackend._sessions] *)
Definition Backend : Type := dict TimedSession.

(** [MemorySessionBackend.save] *)
Definition backend_save (session : TimedSession) (b : Backend) : Backend := set (sid session) session b.

(** [MemorySessionBackend.get] *)
Definition backend_get (session_id : string) (b : Backend) : option TimedSession := get session_id b.

(** [MemorySessionBackend.delete]: [self._sessions.pop(session_id, None)]. *)
Definition backend_delete (session_id : string) (b : Backend) : Backend :=
  filter (fun kv => negb (String.eqb (fst kv) session_id)) b.

(** [MemorySessionBackend.list_all] *)
Definition list_all (b : Backend) : list TimedSession := map snd b.

(** [session.last_accessed = now] *)
Definition touch (now : Z) (s : TimedSession) : TimedSession :=
  {| record := record s; created_at := created_at s; last_accessed := now |}.

(** [sorted(sessions, key=lambda item: item.last_accessed)[0]] of a
    non-empty list: the sort is stable, so the first session with the least
    [last_accessed]. *)
Fixpoint oldest_of (best : TimedSession) (l : list TimedSession) : TimedSession :=
  match l with
  | [] => best
  | s :: t => oldest_of (if (last_accessed s <? last_accessed best)%Z then s else best) t
  end.

(** The store keeps each session under its own id, once. *)
Definition WF (b : Backend) : Prop :=
  Forall (fun kv => fst kv = sid (snd kv)) b /\ NoDup (map fst b).

Section Manager.
(** [self.ttl], in microseconds, and [self.max_sessions]. *)
Variable ttl : Z.
Variable max_sessions : Z.
(** [WizardState()] *)
Variable default_wizard : WizardState.

(** [now - session.last_accessed >= self.ttl] *)
Definition expired (now : Z) (s : TimedSession) : bool := (ttl <=? now - last_accessed s)%Z.

(** [prune_expired]: the store after it and the number removed. *)
Definition prune_expired (now : Z) (b : Backend) : Backend * nat :=
  fold_left (fun acc s =>
    let '(b', removed) := acc in
    if expired now s then (backend_delete (sid s) b', S removed) else (b', removed))
    (list_all b) (b, O).

(** [_evict_if_needed]; [None] where [sorted([])[0]] raises. *)
Definition evict_if_needed (b : Backend) : option Backend :=
  let sessions := list_all b in
  if (Z.of_nat (List.length sessions) <? max_sessions)%Z then Some b
  else match sessions with
       | [] => None
       | s :: t => Some (backend_delete (sid (oldest_of s t)) b)
       end.

(** [create_session], with [now] the clock and [new_id] the [str(uuid4())]. *)
Definition create_session (now : Z) (new_id : string) (fs : list ImportedFile) (fc : dict pyval) (b : Backend)
    : option (Backend * TimedSession) :=
  let '(b1, _) := prune_expired now b in
  match evict_if_needed b1 with
  | None => None
  | Some b2 =>
      let session := {| record := {| session_id := new_id; files := fs; feature_collection := fc;
                                     source_feature_collection := Some fc; wizard := default_wizard;
                                     validation := None |};
                        created_at := now; last_accessed := now |} in
      Some (backend_save session b2, session)
  end.

(** [get_session(session_id, touch)] *)
Definition get_session (now : Z) (do_touch : bool) (session_id : string) (b : Backend)
    : Backend * option TimedSession :=
  match backend_get session_id b with
  | None => (b, None)
  | Some s => if do_touch then (backend_save (touch now s) b, Some (touch now s)) else (b, Some s)
  end.

(** [save_session(session)] *)
Definition save_session (now : Z) (session : TimedSession) (b : Backend) : Backend * TimedSession :=
  (backend_save (touch now session) b, touch now session).

End Manager.
End Session.

(** The fix kinds [apply_autofix] applies without confirmation. *)
Module AutofixChecks.
Local Open Scope string_scope.
Definition SAFE_CHECKS : list string := ["duplicate_uuids"; "invalid_geometry"; "excessive_precision"].
End AutofixChecks.

Module SessionExamples.
Import Py Schemas Wizard Session.
Local Open Scope list_scope.

(** A session with no files, last accessed at [la]. *)
Definition session_at (id : string) (la : Z) : TimedSession :=
  {| record := {| session_id := id; files := []; feature_collection := []; source_feature_collection := None;
                  wizard := GeneratorExamples.example_wizard []; validation := None |};
     created_at := 0%Z; last_accessed := la |}.
End SessionExamples.

Module ImporterRings.
Import Importer.
Local Open Scope list_scope.

(** The ring test of [_close_ring]: empty, or its last coordinate equals
    its first. *)
Definition ring_closed (r : Ring) : bool :=
  match r with [] => true | c0 :: _ => point_eqb c0 (last r c0) end.

(** An open, clockwise triangle: closing it adds its first vertex and
    orienting it reverses it. *)
Definition cw_triangle : PolygonData :=
  ([(0, 0); (0, 1); (1, 0)]%Q, []).

End ImporterRings.

Module GeneratorText.
Import Chars Py Wizard Generator.
Local Open Scope string_scope.
Local Open Scope list_scope.

(** A separator of [re.split(r"[;,|]", text)]. *)
Definition is_sep (c : ascii) : bool :=
  Ascii.eqb c ";" || Ascii.eqb c "," || Ascii.eqb c "|".

(** [re.split(r"[;,|]", text)] on the characters: [cur] holds the current
    piece, reversed. *)
Fixpoint split_seps_l (cur : list ascii) (l : list ascii) : list (list ascii) :=
  match l with
  | [] => [rev cur]
  | c :: t => if is_sep c then rev cur :: split_seps_l [] t else split_seps_l (c :: cur) t
  end.

Definition split_seps (s : string) : list string :=
  map string_of_list_ascii (split_seps_l [] (list_ascii_of_string s)).

(** [bool(s.strip())] *)
Definition nonblank (s : string) : bool := negb (String.eqb (strip s) "").

Section Printing.
(** [str(v)] for values that are not scalars. *)
Variable py_repr : pyval -> string.

(** generator.py [_parse_list(value)]; [None] for [value is None]. *)
Definition parse_list (value : pyval) : option (list string) :=
  match value with
  | PNone => None
  | PList items =>
      let normalized := map (fun item => strip (py_str py_repr item))
                            (filter (fun item => nonblank (py_str py_repr item)) items) in
      match normalized with [] => None | _ => Some normalized end
  | _ =>
      let text := strip (py_str py_repr value) in
      if String.eqb text "" then None
      else let parts := map strip (filter nonblank (split_seps text)) in
           match parts with [] => Some [text] | _ => Some parts end
  end.


(** generator.py [_normalize_text(value)] *)
Definition normalize_text (value : pyval) : option string :=
  match value with
  | PNone => None
  | _ => let text := strip (py_str py_repr value) in
         if String.eqb text "" then None else Some text
  end.

(** [str(cleaned.get("id")) if cleaned.get("id") else None] of
    [_collect_address_features]. *)
Definition address_id (c : dict pyval) : option string :=
  match Py.get "id" c with
  | Some i => if truthy i then Some (py_str py_repr i) else None
  | None => None
  end.

(** The ids [known_ids] holds for a list of cleaned addresses. *)
Definition address_ids (addresses : list (dict pyval)) : list string :=
  flat_map (fun c => match address_id c with Some a => [a] | None => [] end) addresses.

(** The loop body of [_collect_address_features] over
    [building_address_features]. *)
Definition address_step (acc : list (dict pyval) * list string) (feature : pyval)
    : list (dict pyval) * list string :=
  let '(out, known) := acc in
  match feature with
  | PDict f =>
      let cleaned := clean_feature f in
      match address_id cleaned with
      | Some a => if smem a known then (out, known) else (out ++ [cleaned], sadd a known)
      | None => (out ++ [cleaned], known)
      end
  | _ => (out, known)
  end.

End Printing.

(** The loop body of [_collect_level_groups]. *)
Definition level_group_step (grouped : list (Z * LevelGroup)) (item : LevelWizardItem) : list (Z * LevelGroup) :=
  match item_ordinal item with
  | None => grouped
  | Some o =>
      let g := match zget o grouped with Some g => g | None => new_group o end in
      zset o (update_group item g) grouped
  end.

(** What [_collect_level_groups] keeps after the items [done]: distinct
    ordinals, each group under its own ordinal with distinct stems, a
    non-empty category and the stems of the items at its ordinal, and an
    ordinal for each item that has one. *)
Definition level_groups_inv (done : list LevelWizardItem) (grouped : list (Z * LevelGroup)) : Prop :=
  NoDup (map fst grouped)
  /\ (forall o g, In (o, g) grouped ->
        group_ordinal g = o /\ NoDup (group_stems g) /\ group_category g <> ""
        /\ forall st, In st (group_stems g) <-> exists it, In it done /\ item_ordinal it = Some o /\ item_stem it = st)
  /\ (forall o, In o (map fst grouped) <-> exists it, In it done /\ item_ordinal it = Some o).

End GeneratorText.

(** * Proofs *)

(** ** detector.py: [detect_level_ordinal] *)
Module DetectorFacts.
Import Chars Detector.

Ltac splits := repeat match goal with |- _ /\ _ => split end.

Lemma span_digits_spec s ds r :
  span_digits s = (ds, r) ->
  s = ds ++ r /\ (forall c, In c ds -> is_digit c = true)
  /\ match r with c :: _ => is_digit c = false | [] => True end.
Proof.
  revert ds r; induction s as [|c t IH]; intros ds r H; simpl in H.
  - inversion H; subst; simpl; auto.
  - destruct (is_digit c) eqn:Hd.
    + destruct (span_digits t) as [ds' r'] eqn:Ht. inversion H; subst.
      destruct (IH _ _ eq_refl) as (-> & Hall & Hr). simpl.
      splits; auto. intros x [<-|Hx]; auto.
    + inversion H; subst. simpl. splits; auto.
Qed.

Lemma end_ok_not_digit r :
  end_ok r = true -> match r with c :: _ => is_digit c = false | [] => True end.
Proof.
  destruct r as [|c r]; simpl; auto. unfold delim.
  destruct (is_upper c), (is_digit c); simpl; congruence.
Qed.

Lemma span_digits_app ds r :
  (forall c, In c ds -> is_digit c = true) ->
  match r with c :: _ => is_digit c = false | [] => True end ->
  span_digits (ds ++ r) = (ds, r).
Proof.
  induction ds as [|c ds IH]; intros Hall Hr; simpl.
  - destruct r as [|c r]; simpl; auto. now rewrite Hr.
  - rewrite (Hall c (or_introl eq_refl)).
    rewrite IH; auto. intros x Hx; apply Hall; now right.
Qed.

Lemma strip_prefix_spec w s r : strip_prefix w s = Some r <-> s = w ++ r.
Proof.
  revert s; induction w as [|a w IH]; intros s; simpl.
  - split; congruence.
  - destruct s as [|b s].
    + split; [congruence | discriminate].
    + destruct (Ascii.eqb a b) eqn:E.
      * apply Ascii.eqb_eq in E; subst. rewrite IH. split; [intros ->; auto | intros H; now inversion H].
      * apply Ascii.eqb_neq in E. split; [discriminate | intros H; inversion H; congruence].
Qed.

Lemma word_then_end_spec w s :
  word_then_end w s = true <-> exists r, s = w ++ r /\ end_ok r = true.
Proof.
  unfold word_then_end. destruct (strip_prefix w s) as [r|] eqn:E.
  - apply strip_prefix_spec in E. split.
    + intros H; now exists r.
    + intros (r' & Hs & Hr). subst. apply app_inv_head in Hs. now subst.
  - split; [discriminate|]. intros (r & Hs & _).
    apply strip_prefix_spec in Hs. congruence.
Qed.

Lemma digits_then_end_spec t v :
  digits_then_end t = Some v <->
  exists ds r, t = ds ++ r /\ digit_run ds /\ end_ok r = true /\ v = digits_value ds.
Proof.
  unfold digits_then_end. split.
  - destruct (span_digits t) as [ds r] eqn:E.
    destruct (span_digits_spec _ _ _ E) as (-> & Hall & _).
    destruct ds as [|c ds]; [discriminate|].
    destruct (end_ok r) eqn:Hr; [|discriminate]. intros H; inversion H; subst.
    exists (c :: ds), r. splits; auto. split; [discriminate | auto].
  - intros (ds & r & -> & [Hne Hall] & Hr & ->).
    rewrite (span_digits_app ds r Hall (end_ok_not_digit r Hr)).
    destruct ds; [congruence|]. now rewrite Hr.
Qed.

(** A token starting where [search] may look: [left_ok b pre] says that the
    position right after [pre] qualifies when the scan starts with [b]. *)
Definition left_ok (b : bool) (pre : list ascii) : Prop :=
  (pre = [] /\ b = true) \/ exists p c, pre = p ++ [c] /\ delim c = true.

Lemma search_sound m b s v :
  search m b s = Some v -> exists pre post, s = pre ++ post /\ left_ok b pre /\ m post = Some v.
Proof.
  revert b; induction s as [|c t IH]; intros b H; simpl in H; [discriminate|].
  destruct b; [destruct (m (c :: t)) eqn:Hm|].
  - inversion H; subst. exists [], (c :: t). splits; auto. left; auto.
  - destruct (IH _ H) as (pre & post & -> & Hl & Hm').
    exists (c :: pre), post. splits; auto. right.
    destruct Hl as [[-> Hd] | (p & c' & -> & Hd)].
    + exists [], c. auto.
    + exists (c :: p), c'. auto.
  - destruct (IH _ H) as (pre & post & -> & Hl & Hm').
    exists (c :: pre), post. splits; auto. right.
    destruct Hl as [[-> Hd] | (p & c' & -> & Hd)].
    + exists [], c. auto.
    + exists (c :: p), c'. auto.
Qed.

Lemma search_complete m b pre post v :
  m [] = None -> left_ok b pre -> m post = Some v ->
  exists v', search m b (pre ++ post) = Some v'.
Proof.
  intros Hnil. revert b; induction pre as [|c pre IH]; intros b Hl Hm; simpl.
  - destruct Hl as [[_ ->] | (p & c & Hp & _)].
    + destruct post as [|c t]; [congruence|]. simpl. rewrite Hm. eauto.
    + destruct p; discriminate.
  - destruct (if b then m (c :: pre ++ post) else None) as [v'|]; [eauto|].
    apply IH; auto.
    destruct Hl as [[Hc _] | (p & c' & Hp & Hd)]; [discriminate|].
    destruct pre as [|x pre'].
    + destruct p as [|y p].
      * inversion Hp; subst. left; auto.
      * exfalso. apply (f_equal (@length _)) in Hp. rewrite length_app in Hp. simpl in Hp. lia.
    + right. destruct p as [|y p].
      * exfalso. apply (f_equal (@length _)) in Hp. rewrite length_app in Hp. simpl in Hp. lia.
      * inversion Hp; subst. exists p, c'. auto.
Qed.

Lemma left_ok_true pre : left_ok true pre <-> left_delim pre.
Proof.
  unfold left_ok, left_delim. split.
  - intros [[-> _] | H]; auto.
  - intros [-> | H]; auto.
Qed.

(** Each pattern's occurrences are the specification's tokens. *)
Definition occurs (m : list ascii -> option Z) (u : list ascii) (v : Z) : Prop :=
  exists pre post, u = pre ++ post /\ left_delim pre /\ m post = Some v.

Lemma search_none m u v : m [] = None -> search m true u = None -> ~ occurs m u v.
Proof.
  intros Hnil Hs (pre & post & -> & Hl & Hm).
  apply left_ok_true in Hl.
  destruct (search_complete m true pre post v Hnil Hl Hm) as [v' Hv']. congruence.
Qed.

Lemma search_some m u v : search m true u = Some v -> occurs m u v.
Proof.
  intros H. destruct (search_sound _ _ _ _ H) as (pre & post & -> & Hl & Hm).
  exists pre, post. splits; auto. now apply left_ok_true.
Qed.

Lemma occurs_marker mark u n :
  occurs (fun s => match strip_prefix [mark] s with Some t => digits_then_end t | None => None end) u n
  <-> tok_marker mark u n.
Proof.
  split.
  - intros (pre & post & -> & Hl & Hm).
    destruct (strip_prefix [mark] post) as [t|] eqn:E; [|discriminate].
    apply strip_prefix_spec in E. subst post.
    apply digits_then_end_spec in Hm as (ds & r & -> & Hd & Hr & ->).
    exists pre, ds, r. splits; auto.
  - intros (pre & ds & post & -> & Hl & Hd & Hr & ->).
    exists pre, (mark :: ds ++ post). splits; auto.
    replace (strip_prefix [mark] (mark :: ds ++ post)) with (Some (ds ++ post))
      by (symmetry; now apply strip_prefix_spec).
    apply digits_then_end_spec. exists ds, post. auto.
Qed.

Lemma occurs_word ws u v :
  occurs (fun s => if existsb (fun w => word_then_end w s) ws then Some 0%Z else None) u v
  -> tok_word ws u.
Proof.
  intros (pre & post & -> & Hl & Hm).
  destruct (existsb _ ws) eqn:E; [|discriminate].
  apply existsb_exists in E as (w & Hw & Hwe).
  apply word_then_end_spec in Hwe as (r & -> & Hr).
  exists pre, w, r. splits; auto.
Qed.

Lemma word_occurs ws u :
  tok_word ws u -> occurs (fun s => if existsb (fun w => word_then_end w s) ws then Some 0%Z else None) u 0%Z.
Proof.
  intros (pre & w & post & -> & Hw & Hl & Hr).
  exists pre, (w ++ post). splits; auto.
  replace (existsb _ ws) with true; auto. symmetry.
  apply existsb_exists. exists w. split; auto.
  apply word_then_end_spec. now exists post.
Qed.

Lemma m_ground_eq s :
  m_ground s = if existsb (fun w => word_then_end w s)
                  [["G"%char; "F"%char]; ["G"%char; "H"%char]; ["G"%char]] then Some 0%Z else None.
Proof. unfold m_ground. cbn [existsb]. now rewrite orb_false_r, orb_assoc. Qed.

Lemma m_zero_eq s :
  m_zero s = if existsb (fun w => word_then_end w s) [["0"%char]] then Some 0%Z else None.
Proof. unfold m_zero. cbn [existsb]. now rewrite orb_false_r. Qed.

Lemma occurs_ext m m' u v : (forall s, m s = m' s) -> occurs m u v -> occurs m' u v.
Proof. intros E (pre & post & ? & ? & ?). exists pre, post. rewrite <- E. auto. Qed.

Lemma m_floor_spec post v :
  m_floor post = Some v <->
  exists ds f r, post = ds ++ f ++ r /\ (f = [] \/ f = ["F"%char])
    /\ digit_run ds /\ end_ok r = true /\ v = digits_value ds.
Proof.
  unfold m_floor. split.
  - destruct (span_digits post) as [ds rest] eqn:E.
    destruct (span_digits_spec _ _ _ E) as (-> & Hall & _).
    destruct ds as [|c ds]; [discriminate|].
    destruct (word_then_end ["F"%char] rest) eqn:HF.
    + intros H; inversion H; subst.
      apply word_then_end_spec in HF as (r & -> & Hr).
      exists (c :: ds), ["F"%char], r. splits; auto. split; [discriminate | auto].
    + destruct (end_ok rest) eqn:Hr; [|discriminate]. intros H; inversion H; subst.
      exists (c :: ds), [], rest. splits; auto. split; [discriminate | auto].
  - intros (ds & f & r & -> & Hf & [Hne Hall] & Hr & ->).
    destruct Hf as [-> | ->].
    + simpl. rewrite (span_digits_app ds r Hall (end_ok_not_digit r Hr)).
      destruct ds; [congruence|]. rewrite Hr, orb_true_r. auto.
    + rewrite (span_digits_app ds (["F"%char] ++ r) Hall eq_refl).
      destruct ds; [congruence|].
      replace (word_then_end ["F"%char] (["F"%char] ++ r)) with true; auto.
Qed.

Lemma occurs_floor u v : occurs m_floor u v <-> tok_floor u v.
Proof.
  split.
  - intros (pre & post & -> & Hl & Hm).
    apply m_floor_spec in Hm as (ds & f & r & -> & Hf & Hd & Hr & ->).
    exists pre, ds, f, r. splits; auto.
  - intros (pre & ds & f & post & -> & Hf & Hl & Hd & Hr & ->).
    exists pre, (ds ++ f ++ post). splits; auto.
    apply m_floor_spec. exists ds, f, post. auto.
Qed.

Lemma basement_occurs u n : occurs m_basement u n <-> basement_tok u n.
Proof. apply occurs_marker. Qed.

Lemma negative_occurs u n : occurs m_negative u n <-> negative_tok u n.
Proof. apply occurs_marker. Qed.

Lemma ground_occurs u : (exists v, occurs m_ground u v) <-> ground_tok u.
Proof.
  split.
  - intros [v H]. apply (occurs_word _ _ v). eapply occurs_ext; [|exact H]. apply m_ground_eq.
  - intros H. exists 0%Z. eapply occurs_ext; [|apply word_occurs; exact H].
    intros s; symmetry; apply m_ground_eq.
Qed.

Lemma zero_occurs u : (exists v, occurs m_zero u v) <-> zero_tok u.
Proof.
  split.
  - intros [v H]. apply (occurs_word _ _ v). eapply occurs_ext; [|exact H]. apply m_zero_eq.
  - intros H. exists 0%Z. eapply occurs_ext; [|apply word_occurs; exact H].
    intros s; symmetry; apply m_zero_eq.
Qed.

End DetectorFacts.

(** ** Claim C7 *)
Module DetectorClaims.
Import Chars Detector DetectorFacts.

(** C7: [detect_level_ordinal] follows the fixed pattern precedence of the
    specification on every stem (basement [B<n>] gives [-n]; else an explicit
    negative number gives that value; else a ground marker or a bare [0] gives
    [0]; else a floor number [<n>] or [<n>F] gives [n-1]; else none), and the
    four examples of the specification hold. *)
Theorem detect_level_ordinal_precedence :
  (forall stem, ordinal_spec (upper_l stem) (detect_level_ordinal stem))
  /\ detect_level_ordinal "Station_B1_Space" = Some (-1)%Z
  /\ detect_level_ordinal "Station_-2_Opening" = Some (-2)%Z
  /\ detect_level_ordinal "Station_GF_Space" = Some 0%Z
  /\ detect_level_ordinal "Station_2F_Space" = Some 1%Z.
Proof.
  split; [|repeat split; reflexivity].
  intros stem. unfold detect_level_ordinal. set (u := upper_l stem).
  destruct (search m_basement true u) as [n|] eqn:Hb.
  { apply OS_basement. apply basement_occurs. now apply search_some. }
  assert (Nb : forall m, ~ basement_tok u m).
  { intros m Hm. apply basement_occurs in Hm. revert Hm. eapply search_none; [reflexivity | exact Hb]. }
  destruct (search m_negative true u) as [n|] eqn:Hn.
  { apply OS_negative; auto. apply negative_occurs. now apply search_some. }
  assert (Nn : forall m, ~ negative_tok u m).
  { intros m Hm. apply negative_occurs in Hm. revert Hm. eapply search_none; [reflexivity | exact Hn]. }
  destruct (search m_ground true u) as [g|] eqn:Hg.
  { apply OS_ground; auto. left. apply ground_occurs. exists g. now apply search_some. }
  assert (Ng : ~ ground_tok u).
  { intros Hm. apply ground_occurs in Hm as [v Hm]. revert Hm. eapply search_none; [reflexivity | exact Hg]. }
  destruct (search m_zero true u) as [z|] eqn:Hz.
  { apply OS_ground; auto. right. apply zero_occurs. exists z. now apply search_some. }
  assert (Nz : ~ zero_tok u).
  { intros Hm. apply zero_occurs in Hm as [v Hm]. revert Hm. eapply search_none; [reflexivity | exact Hz]. }
  destruct (search m_floor true u) as [f|] eqn:Hf.
  { apply OS_floor; auto. apply occurs_floor. now apply search_some. }
  apply OS_none; auto.
  intros m Hm. apply occurs_floor in Hm. revert Hm. eapply search_none; [reflexivity | exact Hf].
Qed.

End DetectorClaims.

(** ** detector.py: [infer_learning_suggestion] *)
Module LearningFacts.
Import Chars Schemas Detector.

Ltac splits := repeat match goal with |- _ /\ _ => split end.

Lemma string_compare_lt_trans a b c :
  String.compare a b = Lt -> String.compare b c = Lt -> String.compare a c = Lt.
Proof.
  revert b c; induction a as [|x a IH]; intros [|y b] [|z c]; simpl; intros H1 H2;
    try discriminate; auto.
  unfold Ascii.compare in *.
  destruct (N.compare_spec (N_of_ascii x) (N_of_ascii y));
  destruct (N.compare_spec (N_of_ascii y) (N_of_ascii z));
  destruct (N.compare_spec (N_of_ascii x) (N_of_ascii z));
    try discriminate; try lia; eauto.
Qed.

Lemma str_lt_trans a b c : str_lt a b = true -> str_lt b c = true -> str_lt a c = true.
Proof.
  unfold str_lt. destruct (String.compare a b) eqn:E1; try discriminate.
  destruct (String.compare b c) eqn:E2; try discriminate.
  now rewrite (string_compare_lt_trans _ _ _ E1 E2).
Qed.

Lemma str_lt_irrefl a : str_lt a a = false.
Proof.
  unfold str_lt. pose proof (String.compare_antisym a a) as H.
  destruct (String.compare a a); simpl in H; congruence.
Qed.

Lemma key_lt_irrefl c : key_lt c c = false.
Proof.
  destruct c as [t a]. unfold key_lt. rewrite str_lt_irrefl.
  rewrite Nat.ltb_irrefl, Nat.ltb_irrefl. now rewrite !andb_false_r.
Qed.

Lemma key_lt_trans a b c : key_lt a b = true -> key_lt b c = true -> key_lt a c = true.
Proof.
  destruct a as [ta aa], b as [tb ab], c as [tc ac]. unfold key_lt.
  intros H1 H2.
  repeat rewrite orb_true_iff, ?andb_true_iff, ?Nat.ltb_lt, ?Nat.eqb_eq in *.
  destruct H1 as [H1 | [H1 [H1' | [H1' H1'']]]];
  destruct H2 as [H2 | [H2 [H2' | [H2' H2'']]]]; try lia.
  right. split; [lia|]. right. split; [lia|]. eapply str_lt_trans; eauto.
Qed.

(** [sort_head] returns a candidate of the list that no candidate is below. *)
Lemma sort_head_in b l : In (sort_head b l) (b :: l).
Proof.
  revert b; induction l as [|c l IH]; intros b; simpl; [auto|].
  specialize (IH (if key_lt c b then c else b)).
  destruct (key_lt c b); simpl in IH; intuition.
Qed.

Lemma sort_head_keeps b l x : key_lt x b = false -> key_lt x (sort_head b l) = false.
Proof.
  revert b; induction l as [|c l IH]; intros b Hx; simpl; auto.
  apply IH. destruct (key_lt c b) eqn:E; auto.
  destruct (key_lt x c) eqn:E2; auto.
  now rewrite (key_lt_trans _ _ _ E2 E) in Hx.
Qed.

Lemma sort_head_min b l x : In x (b :: l) -> key_lt x (sort_head b l) = false.
Proof.
  revert b; induction l as [|c l IH]; intros b Hx; simpl in *.
  - destruct Hx as [<-|[]]. apply key_lt_irrefl.
  - destruct Hx as [<-|[<-|Hx]].
    + apply sort_head_keeps. destruct (key_lt c b) eqn:E; [|apply key_lt_irrefl].
      destruct (key_lt b c) eqn:E2; auto.
      pose proof (key_lt_trans _ _ _ E2 E) as H. now rewrite key_lt_irrefl in H.
    + apply sort_head_keeps. destruct (key_lt c b) eqn:E; auto. apply key_lt_irrefl.
    + apply IH. now right.
Qed.

Lemma mem_false x l : mem x l = false <-> ~ In x l.
Proof.
  unfold mem. split.
  - intros H Hin. assert (existsb (String.eqb x) l = true) by
      (apply existsb_exists; exists x; split; auto; apply String.eqb_refl). congruence.
  - intros H. destruct (existsb (String.eqb x) l) eqn:E; auto.
    apply existsb_exists in E as (y & Hy & Hxy). apply String.eqb_eq in Hxy. subst. tauto.
Qed.

Lemma candidates_cons files changed new known x xs :
  fold_right (fun token acc =>
    if mem token known then acc
    else if mem token STOPWORD_TOKENS then acc
    else if isdigit token then acc
    else if (String.length token <? 3)%nat then acc
    else match affected files changed new token with
         | [] => acc
         | aff => (token, aff) :: acc
         end) [] (x :: xs)
  = let acc := fold_right (fun token acc =>
    if mem token known then acc
    else if mem token STOPWORD_TOKENS then acc
    else if isdigit token then acc
    else if (String.length token <? 3)%nat then acc
    else match affected files changed new token with
         | [] => acc
         | aff => (token, aff) :: acc
         end) [] xs in
    if negb (mem x known) && negb (mem x STOPWORD_TOKENS) && negb (isdigit x)
       && negb (String.length x <? 3)%nat
       && negb (match affected files changed new x with [] => true | _ => false end)
    then (x, affected files changed new x) :: acc else acc.
Proof.
  cbn [fold_right].
  destruct (mem x known), (mem x STOPWORD_TOKENS), (isdigit x), (String.length x <? 3)%nat;
    simpl; auto.
  destruct (affected files changed new x); reflexivity.
Qed.

Lemma candidates_spec files changed new known t a :
  In (t, a) (candidates files changed new known) <->
  In t (stem_tokens changed) /\ ~ In t known /\ ~ In t STOPWORD_TOKENS /\ isdigit t = false
  /\ (3 <= String.length t)%nat /\ a = affected files changed new t /\ a <> [].
Proof.
  unfold candidates. induction (stem_tokens changed) as [|x xs IH].
  - simpl. split; [intros []|]. intros ([] & _).
  - rewrite candidates_cons. cbv zeta.
    destruct (negb (mem x known) && negb (mem x STOPWORD_TOKENS) && negb (isdigit x)
       && negb (String.length x <? 3)%nat
       && negb (match affected files changed new x with [] => true | _ => false end)) eqn:E.
    + repeat rewrite andb_true_iff in E. rewrite !negb_true_iff in E.
      destruct E as ((((E1 & E2) & E3) & E4) & E5).
      rewrite mem_false in E1, E2. apply Nat.ltb_ge in E4.
      simpl. rewrite IH. split.
      * intros [H | (Hin & H)].
        -- inversion H; subst.
           splits; [now left | exact E1 | exact E2 | exact E3 | exact E4 | reflexivity |].
           destruct (affected files changed new t); simpl in E5; congruence.
        -- destruct H as (Hk & Hs & Hd & Hl & Ha & Hne). splits; auto; now right.
      * intros (Hin & Hk & Hs & Hd & Hl & Ha & Hne). destruct Hin as [<-|Hin].
        -- left. now subst.
        -- right. splits; auto.
    + rewrite IH. split.
      * intros (Hin & H). splits; auto; try apply H; try now right.
      * intros (Hin & Hk & Hs & Hd & Hl & Ha & Hne). destruct Hin as [<-|Hin].
        -- exfalso. rewrite <- mem_false in Hk, Hs. apply Nat.ltb_ge in Hl.
           rewrite Hk, Hs, Hd, Hl in E. simpl in E. subst a.
           destruct (affected files changed new x); [now apply Hne | discriminate].
        -- splits; auto.
Qed.

Lemma key_lt_false_ranks files changed new t t' :
  key_lt (t', affected files changed new t') (t, affected files changed new t) = false ->
  ranks_at_least files changed new t t'.
Proof.
  unfold key_lt, ranks_at_least.
  set (n := length (affected files changed new t)).
  set (n' := length (affected files changed new t')).
  intros H. apply orb_false_iff in H as [H1 H2]. apply Nat.ltb_ge in H1.
  destruct (Nat.lt_ge_cases n' n) as [Hlt|Hge]; [now left|]. right.
  split; [lia|].
  assert (Heq : (n' =? n)%nat = true) by (apply Nat.eqb_eq; lia).
  rewrite Heq in H2. simpl in H2. apply orb_false_iff in H2 as [H3 H4].
  apply Nat.ltb_ge in H3.
  destruct (Nat.lt_ge_cases (String.length t) (String.length t')) as [Hl|Hl]; [now left|]. right.
  assert (Hq : String.length t = String.length t') by lia. split; auto.
  rewrite Hq, Nat.eqb_refl in H4. simpl in H4.
  unfold str_lt in H4. unfold String.leb. rewrite String.compare_antisym.
  destruct (String.compare t' t); simpl; congruence.
Qed.

End LearningFacts.

(** ** Claim C9 *)
Module LearningClaims.
Import Chars Schemas Detector LearningFacts.
Local Open Scope string_scope.

Ltac splits := repeat match goal with |- _ /\ _ => split end.

(** C9 (amended): when some file of the list has the changed stem, the
    learning suggestion keeps only the tokens of that stem that are not known
    keywords, not stopwords, not purely numeric, at least 3 characters long,
    and that occur in the lower-cased stem of at least one other file whose
    current type differs from the new one; it returns the one affecting the
    most files (ties: shorter, then lexicographically smaller), or none when
    no token qualifies.  When no file has the changed stem it returns none. *)
Theorem infer_learning_suggestion_choice files changed new kw :
  (infer_learning_suggestion files changed new kw = None <->
     (forall item, In item files -> stem item <> changed) \/
     (forall t, In t (stem_tokens changed) -> ~ token_qualifies files changed new kw t))
  /\ (forall r, infer_learning_suggestion files changed new kw = Some r ->
       source_stem r = changed /\ feature_type r = new /\
       In (keyword r) (stem_tokens changed) /\ token_qualifies files changed new kw (keyword r) /\
       affected_stems r = affected files changed new (keyword r) /\
       forall t, In t (stem_tokens changed) -> token_qualifies files changed new kw t ->
         ranks_at_least files changed new (keyword r) t).
Proof.
  unfold infer_learning_suggestion.
  destruct (existsb (fun item => String.eqb (stem item) changed) files) eqn:T; simpl.
  - assert (Nt : ~ (forall item, In item files -> stem item <> changed)).
    { intros Hn. apply existsb_exists in T as (item & Hi & He).
      apply String.eqb_eq in He. exact (Hn item Hi He). }
    destruct (candidates files changed new (all_keywords kw)) as [|c cs] eqn:C.
    + split.
      * split; [intros _ | reflexivity]. right. intros t Ht (Hk & Hs & Hd & Hl & Hne).
        assert (Hc : In (t, affected files changed new t) (candidates files changed new (all_keywords kw)))
          by (apply candidates_spec; splits; auto).
        rewrite C in Hc. destruct Hc.
      * discriminate.
    + destruct (sort_head c cs) as [cand aff] eqn:S.
      assert (Hin : In (cand, aff) (candidates files changed new (all_keywords kw)))
        by (rewrite C, <- S; apply sort_head_in).
      apply candidates_spec in Hin as (Ht & Hk & Hs & Hd & Hl & Ha & Hne).
      split.
      * split; [discriminate|]. intros [H|H]; [contradiction|].
        exfalso. apply (H cand Ht). unfold token_qualifies. splits; congruence.
      * intros r Hr. inversion Hr; subst. simpl.
        splits; auto; try (unfold token_qualifies; splits; auto; fail).
        intros t Ht' (Hk' & Hs' & Hd' & Hl' & Hne').
        apply key_lt_false_ranks. rewrite <- S.
        apply sort_head_min. rewrite <- C. apply candidates_spec. splits; auto.
  - split.
    + split; [intros _ | reflexivity]. left. intros item Hi He.
      assert (existsb (fun item => String.eqb (stem item) changed) files = true)
        by (apply existsb_exists; exists item; split; auto; now apply String.eqb_eq).
      congruence.
    + discriminate.
Qed.

(** C9 fails as stated: the token "lobby" of "Bar_Lobby" qualifies (it affects
    the other file "Foo_Lobby", typed unit, for the new type opening), yet the
    function returns none because no file of the list has the changed stem. *)
Lemma infer_learning_suggestion_missing_stem :
  In "lobby"%string (stem_tokens "Bar_Lobby")
  /\ token_qualifies [imported_file "Foo_Lobby" (Some "unit") None] "Bar_Lobby" "opening" [] "lobby"
  /\ affected [imported_file "Foo_Lobby" (Some "unit") None] "Bar_Lobby" "opening" "lobby" = ["Foo_Lobby"%string]
  /\ infer_learning_suggestion [imported_file "Foo_Lobby" (Some "unit") None] "Bar_Lobby" "opening" [] = None.
Proof.
  splits.
  - simpl. auto.
  - unfold token_qualifies. splits.
    + simpl. tauto.
    + simpl. intuition discriminate.
    + reflexivity.
    + simpl. lia.
    + discriminate.
  - reflexivity.
  - reflexivity.
Qed.

(** The amended C9 at a concrete input where the changed file is listed. *)
Lemma infer_learning_suggestion_choice_witness :
  exists r, infer_learning_suggestion
              [imported_file "Foo_Lobby" (Some "unit") None; imported_file "Bar_Lobby" (Some "opening") None]
              "Bar_Lobby" "opening" [] = Some r
    /\ keyword r = "lobby"%string
    /\ token_qualifies [imported_file "Foo_Lobby" (Some "unit") None; imported_file "Bar_Lobby" (Some "opening") None]
         "Bar_Lobby" "opening" [] (keyword r).
Proof.
  eexists. split; [reflexivity|]. split; [reflexivity|].
  destruct (proj2 (infer_learning_suggestion_choice
              [imported_file "Foo_Lobby" (Some "unit") None; imported_file "Bar_Lobby" (Some "opening") None]
              "Bar_Lobby" "opening" []) _ eq_refl) as (_ & _ & _ & H & _).
  exact H.
Defined.

End LearningClaims.

Module ValidatorFacts.
Import Chars Py Uuid Shapely Validator.
Local Open Scope string_scope.
Local Open Scope list_scope.

Lemma substring_whole (t : string) : substring 0 (String.length t) t = t.
Proof. induction t as [|c t IH]; simpl; [reflexivity | now rewrite IH]. Qed.

Lemma substring_append (s t : string) :
  substring (String.length s) (String.length t) (s ++ t) = t.
Proof. induction s as [|c s IH]; simpl; [apply substring_whole | exact IH]. Qed.

Lemma length_app (s t : string) : String.length (s ++ t) = (String.length s + String.length t)%nat.
Proof. induction s as [|c s IH]; simpl; [reflexivity | now rewrite IH]. Qed.

(** A string ending in [t] has [t] as its last [length t] characters. *)
Lemma append_suffix (s t u : string) :
  (s ++ t)%string = u -> substring (String.length u - String.length t) (String.length t) u = t.
Proof.
  intros <-. rewrite length_app.
  replace (String.length s + String.length t - String.length t)%nat with (String.length s) by lia.
  apply substring_append.
Qed.

Definition dupc : string := "duplicate_geometry_warning".

Lemma Forall_flat_map {A B} (P : B -> Prop) (f : A -> list B) (l : list A) :
  (forall x, In x l -> Forall P (f x)) -> Forall P (flat_map f l).
Proof.
  induction l as [|x l IH]; intros H; simpl; [constructor|].
  apply Forall_app; split; [apply H; now left | apply IH; intros; apply H; now right].
Qed.

Ltac check_neq :=
  cbn [check issue err warn];
  first [ discriminate
        | let Hc := fresh in intro Hc; apply append_suffix in Hc; vm_compute in Hc; discriminate ].

Ltac nd :=
  repeat (cbn [fst snd] in *;
    match goal with
    | |- Forall _ [] => constructor
    | |- Forall _ (_ ++ _) => apply Forall_app; split
    | |- Forall _ (_ :: _) => constructor; [check_neq|]
    | |- Forall _ (flat_map _ _) => apply Forall_flat_map; intros ? _
    | |- Forall _ ((fun _ => _) _) => cbv beta
    | |- Forall _ (let '(_, _) := ?p in _) => destruct p
    | |- Forall _ (let _ := _ in _) => cbv zeta
    | |- context [if ?b then _ else _] => destruct b
    | |- context [match ?x with _ => _ end] => destruct x
    end).

Section S.
Context `{SH : Shapely}.
Variable set_order : list string -> list string.

Let P (i : ValidationIssue) : Prop := check i <> dupc.

Lemma nd_required bt : Forall P (required_issues bt).
Proof. unfold required_issues, P. nd. Qed.

Lemma nd_ids rows : Forall P (id_issues rows).
Proof. unfold id_issues, P. nd. Qed.

Lemma nd_geometry_row gs r : Forall P (fst (geometry_row gs r)).
Proof. unfold geometry_row, P. nd. Qed.

Lemma nd_fold {St} (f : St -> Row -> list ValidationIssue * St) (rows : list Row) acc :
  (forall st r, Forall P (fst (f st r))) -> Forall P (fst acc) ->
  Forall P (fst (fold_left (fun acc row => let '(is, st') := f (snd acc) row in (fst acc ++ is, st')) rows acc)).
Proof.
  intros Hf. revert acc. induction rows as [|r rows IH]; intros acc Hacc; simpl; [exact Hacc|].
  apply IH. specialize (Hf (snd acc) r). destruct (f (snd acc) r) as [is st'] eqn:E.
  simpl. apply Forall_app; split; [exact Hacc | exact Hf].
Qed.

Lemma nd_geometry_pass rows : Forall P (fst (geometry_pass rows)).
Proof. unfold geometry_pass. apply nd_fold; [apply nd_geometry_row | constructor]. Qed.

Lemma nd_building_ids kind props bids fid : Forall P (building_ids_issues kind props bids fid).
Proof. unfold building_ids_issues, P. nd. Qed.

Lemma nd_row_checks lids bids aids gs u r : Forall P (fst (row_checks lids bids aids gs u r)).
Proof.
  unfold row_checks. cbv zeta. cbn [fst].
  unfold P; nd; apply nd_building_ids.
Qed.

Lemma nd_row_checks_pass lids bids aids gs rows : Forall P (fst (row_checks_pass lids bids aids gs rows)).
Proof. unfold row_checks_pass. apply nd_fold; [intros; apply nd_row_checks | constructor]. Qed.

Lemma nd_unit_level lids gs u : Forall P (unit_level_issues lids gs u).
Proof. unfold unit_level_issues, P. nd. Qed.

Lemma nd_venue_footprint by_id gs : Forall P (venue_footprint_issues by_id gs).
Proof. unfold venue_footprint_issues, P. nd. Qed.

Lemma nd_opening_detail lids gs u r : Forall P (opening_detail_row lids gs u r).
Proof. unfold opening_detail_row, P. nd. Qed.

Lemma nd_level_issues rows lids u : Forall P (level_issues set_order rows lids u).
Proof. unfold level_issues, P. nd. Qed.

Lemma dup_key_eqb_true a b : dup_key_eqb a b = true <-> a = b.
Proof.
  destruct a as [[t l] w], b as [[t' l'] w']; simpl.
  rewrite !andb_true_iff, !String.eqb_eq.
  destruct l as [x|], l' as [y|]; try rewrite String.eqb_eq; split;
    intros; repeat match goal with H : _ /\ _ |- _ => destruct H end; subst;
    try congruence; try (now repeat split); try (injection H; intros; subst; now repeat split).
Qed.

Lemma dup_key_eqb_refl a : dup_key_eqb a a = true.
Proof. now apply dup_key_eqb_true. Qed.

Lemma kget_kset k k' v d :
  kget k (kset k' v d) = if dup_key_eqb k k' then Some v else kget k d.
Proof.
  induction d as [|[k'' v'] d IH]; simpl; [now destruct (dup_key_eqb k k')|].
  destruct (dup_key_eqb k' k'') eqn:E.
  - apply dup_key_eqb_true in E; subst k''. simpl. now destruct (dup_key_eqb k k').
  - simpl. rewrite IH. destruct (dup_key_eqb k k') eqn:E2; [|reflexivity].
    apply dup_key_eqb_true in E2; subst k. now rewrite E.
Qed.

Lemma first_of_key_app gs k seen r :
  first_of_key gs k (seen ++ [r]) =
  match first_of_key gs k seen with
  | Some e => Some e
  | None => match dup_candidate gs r with
            | Some (fid, k') => if dup_key_eqb k k' then Some fid else None
            | None => None
            end
  end.
Proof.
  induction seen as [|r' seen IH]; simpl.
  - destruct (dup_candidate gs r) as [[fid k']|]; [now destruct (dup_key_eqb k k') | reflexivity].
  - destruct (dup_candidate gs r') as [[fid k']|]; [destruct (dup_key_eqb k k')|]; auto.
Qed.

Lemma feature_id_of_nonempty r fid : feature_id_of r = Some fid -> fid <> "".
Proof.
  unfold feature_id_of. destruct (get "id" r) as [[]|]; try discriminate.
  destruct (String.eqb s "") eqn:E; intros H; inversion H; subst.
  intros ->. discriminate.
Qed.

Lemma dup_candidate_id gs r fid k : dup_candidate gs r = Some (fid, k) -> fid <> "".
Proof.
  unfold dup_candidate. destruct (feature_id_of r) as [f|] eqn:E; [|discriminate].
  destruct (get f gs); [|discriminate]. destruct (smem _ _); [|discriminate].
  intros H; inversion H; subst. eapply feature_id_of_nonempty; eauto.
Qed.

Lemma first_of_key_nonempty gs k seen e : first_of_key gs k seen = Some e -> e <> "".
Proof.
  induction seen as [|r seen IH]; simpl; [discriminate|].
  destruct (dup_candidate gs r) as [[fid k']|] eqn:C; [|exact IH].
  destruct (dup_key_eqb k k'); [|exact IH].
  intros H; inversion H; subst. eapply dup_candidate_id; eauto.
Qed.

Lemma duplicate_row_candidate gs log hashes r :
  duplicate_row gs (log, hashes) r =
  match dup_candidate gs r with
  | None => (log, hashes)
  | Some (fid, k) =>
      match kget k hashes with
      | Some e => if negb (String.eqb e "") then (log ++ [duplicate_issue fid e], hashes)
                  else (log, kset k fid hashes)
      | None => (log, kset k fid hashes)
      end
  end.
Proof.
  unfold duplicate_row, dup_candidate.
  destruct (feature_id_of r); [|reflexivity]. destruct (get s gs); [|reflexivity].
  destruct (smem _ _); reflexivity.
Qed.

Lemma duplicate_fold gs rows seen log hashes :
  (forall k, kget k hashes = first_of_key gs k seen) ->
  fst (fold_left (duplicate_row gs) rows (log, hashes)) = log ++ duplicate_warnings_expected gs seen rows.
Proof.
  revert seen log hashes. induction rows as [|r rows IH]; intros seen log hashes Hinv; cbn [fold_left].
  - now rewrite app_nil_r.
  - rewrite duplicate_row_candidate. destruct (dup_candidate gs r) as [[fid k]|] eqn:C.
    + rewrite Hinv. destruct (first_of_key gs k seen) as [e|] eqn:F.
      * assert (He : String.eqb e "" = false) by (apply String.eqb_neq; eapply first_of_key_nonempty; eauto).
        rewrite He. cbn [negb duplicate_warnings_expected]. rewrite C, F.
        rewrite IH with (seen := seen ++ [r]); [now rewrite app_assoc|].
        intros k'. rewrite first_of_key_app, Hinv, C.
        destruct (first_of_key gs k' seen) eqn:F'; [reflexivity|].
        destruct (dup_key_eqb k' k) eqn:E; [|reflexivity].
        apply dup_key_eqb_true in E; subst. congruence.
      * cbn [duplicate_warnings_expected]. rewrite C, F.
        rewrite IH with (seen := seen ++ [r]); [reflexivity|].
        intros k'. rewrite first_of_key_app, kget_kset, C.
        destruct (dup_key_eqb k' k) eqn:E.
        -- apply dup_key_eqb_true in E; subst. now rewrite F.
        -- rewrite Hinv. now destruct (first_of_key gs k' seen).
    + cbn [duplicate_warnings_expected]. rewrite C.
      rewrite IH with (seen := seen ++ [r]); [reflexivity|].
      intros k'. rewrite first_of_key_app, Hinv, C. now destruct (first_of_key gs k' seen).
Qed.

Lemma duplicate_pass_expected rows gs : duplicate_pass rows gs = duplicate_warnings_expected gs [] rows.
Proof. unfold duplicate_pass. now rewrite (duplicate_fold gs rows [] [] []). Qed.

Lemma duplicate_expected_shape gs seen rows :
  Forall (fun i => check i = dupc /\ severity i = "warning") (duplicate_warnings_expected gs seen rows).
Proof.
  revert seen. induction rows as [|r rows IH]; intros seen; simpl; [constructor|].
  apply Forall_app; split; [|apply IH].
  destruct (dup_candidate gs r) as [[fid k]|]; [destruct (first_of_key gs k seen)|]; repeat constructor.
Qed.

Lemma filter_nd (f : ValidationIssue -> bool) l :
  Forall P l -> (forall i, f i = true -> check i = dupc) -> filter f l = [].
Proof.
  induction 1 as [|i l Hi Hl IH]; intros Hf; simpl; [reflexivity|].
  destruct (f i) eqn:E; [exfalso; now apply Hi, Hf | now apply IH].
Qed.

Lemma filter_all {A} (f : A -> bool) (l : list A) : Forall (fun x => f x = true) l -> filter f l = l.
Proof. induction 1; simpl; [reflexivity|]. now rewrite H, IHForall. Qed.

Lemma filter_none {A} (f : A -> bool) (l : list A) : Forall (fun x => f x = false) l -> filter f l = [].
Proof. induction 1; simpl; [reflexivity|]. now rewrite H. Qed.

Lemma filter_comm {A} (f g : A -> bool) (l : list A) : filter f (filter g l) = filter g (filter f l).
Proof.
  induction l as [|x l IH]; simpl; [reflexivity|].
  destruct (g x) eqn:G, (f x) eqn:F; simpl; rewrite ?G, ?F, IH; reflexivity.
Qed.

End S.
End ValidatorFacts.

Module ValidatorClaims.
Import Chars Py Uuid Shapely Validator ValidatorFacts.
Local Open Scope string_scope.
Local Open Scope list_scope.

Section S.
Context `{SH : Shapely}.
Variable set_order : list string -> list string.

Lemma validation_log_duplicates fc :
  filter (fun i => String.eqb (check i) "duplicate_geometry_warning") (validation_log set_order fc)
  = duplicate_warnings_expected (snd (geometry_pass (rows_of fc))) [] (rows_of fc).
Proof.
  set (isdup := fun i => String.eqb (check i) "duplicate_geometry_warning").
  assert (Hd : forall i, isdup i = true -> check i = dupc) by (intros i; apply String.eqb_eq).
  unfold validation_log.
  pose proof (nd_geometry_pass (rows_of fc)) as G3.
  destruct (geometry_pass (rows_of fc)) as [log3 gs] eqn:G. cbn [fst snd] in *.
  destruct (row_checks_pass _ _ _ gs (rows_of fc)) as [log4 u] eqn:R.
  pose proof (nd_row_checks_pass
                (ids_of_type (by_id_of (rows_of fc)) "level") (ids_of_type (by_id_of (rows_of fc)) "building")
                (ids_of_type (by_id_of (rows_of fc)) "address") gs (rows_of fc)) as G4.
  rewrite R in G4. cbn [fst] in G4.
  rewrite !filter_app.
  rewrite (filter_nd _ _ (nd_required _) Hd), (filter_nd _ _ (nd_ids _) Hd), (filter_nd _ _ G3 Hd),
    (filter_nd _ _ G4 Hd), (filter_nd _ _ (nd_unit_level _ _ _) Hd), (filter_nd _ _ (nd_venue_footprint _ _) Hd),
    (filter_nd _ _ (nd_level_issues set_order _ _ _) Hd).
  rewrite (filter_nd isdup (flat_map _ _)); [| apply Forall_flat_map; intros; apply nd_opening_detail | exact Hd].
  rewrite duplicate_pass_expected, filter_all; [now rewrite ?app_nil_r, ?app_nil_l|].
  eapply Forall_impl; [|apply duplicate_expected_shape]. intros i [Hc _]. unfold isdup. now rewrite Hc.
Qed.

(** C2 (amended).  The [duplicate_geometry_warning] issues of a validation
    are all warnings, and they are exactly, in row order, one warning for
    each unit, opening, fixture or detail feature with a parsed non-empty
    geometry whose key (feature type, level_id, WKB of the geometry) already
    occurs at an earlier such feature, naming the earliest of them as
    [related_feature_id].  The earliest feature of a key gets no duplicate
    warning: of two identical units on one level, only the later one is
    flagged. *)
Theorem duplicate_geometry_warning_first_kept (fc : dict pyval) :
  filter (fun i => String.eqb (check i) "duplicate_geometry_warning")
    (errors (validate_feature_collection set_order fc)) = [] /\
  filter (fun i => String.eqb (check i) "duplicate_geometry_warning")
    (warnings (validate_feature_collection set_order fc))
  = duplicate_warnings_expected (snd (geometry_pass (rows_of fc))) [] (rows_of fc).
Proof.
  unfold validate_feature_collection. cbn [errors warnings].
  rewrite !(filter_comm (fun i => String.eqb (check i) "duplicate_geometry_warning")).
  rewrite validation_log_duplicates.
  pose proof (duplicate_expected_shape (snd (geometry_pass (rows_of fc))) [] (rows_of fc)) as Hs.
  split.
  - apply filter_none. eapply Forall_impl; [|exact Hs]. intros i [_ Hv]. unfold is_error. now rewrite Hv.
  - apply filter_all. eapply Forall_impl; [|exact Hs]. intros i [_ Hv]. unfold is_error. now rewrite Hv.
Qed.

End S.

(** C2 (counterexample).  Two units with the same level_id and the same
    geometry: validation emits a single [duplicate_geometry_warning], on
    the second unit and naming the first; the first unit gets none. *)
Lemma duplicate_geometry_warning_one_sided :
  let v := @validate_feature_collection PayloadGeometry.payload_shapely (fun l => l) ValidatorExamples.twin_units in
  filter (fun i => String.eqb (check i) "duplicate_geometry_warning") (errors v ++ warnings v)
  = [duplicate_issue ValidatorExamples.uuid_b ValidatorExamples.uuid_a].
Proof. vm_compute. reflexivity. Qed.

End ValidatorClaims.

(** ** autofix.py *)
Module UuidFacts.
Import Chars Py Uuid.

Lemma lower_hex_props (c : ascii) :
  is_lower_hex c = true ->
  (negb (Ascii.eqb c "-") && negb (Ascii.eqb c ":") && negb (Ascii.eqb c "{" || Ascii.eqb c "}")
   && negb (is_space c) && negb (Ascii.eqb c "+") && negb (Ascii.eqb c "x") && negb (Ascii.eqb c "X")
   && match hex_val c with Some d => (0 <=? d)%Z && (d <? 16)%Z | None => false end)%char = true.
Proof.
  destruct c as [[] [] [] [] [] [] [] []]; vm_compute; intros H; first [reflexivity | discriminate].
Qed.

Ltac hexp H P :=
  pose proof (lower_hex_props _ H) as P;
  rewrite !andb_true_iff in P; repeat rewrite negb_true_iff in P.

Lemma take_hex_app n l r :
  take_hex n l = Some r ->
  exists p, l = p ++ r /\ length p = n /\ Forall (fun c => is_lower_hex c = true) p.
Proof.
  revert l. induction n as [|n IH]; intros l H; simpl in H.
  - inversion H; subst. exists []. repeat split; constructor.
  - destruct l as [|c t]; [discriminate|].
    destruct (is_lower_hex c) eqn:E; [|discriminate].
    destruct (IH t H) as (p & -> & Hl & Hf).
    exists (c :: p). repeat split; simpl; auto.
Qed.

Lemma dash_cons l r : dash l = Some r -> l = "-"%char :: r.
Proof.
  destruct l as [|c t]; simpl; [discriminate|].
  destruct (Ascii.eqb c "-") eqn:E; [|discriminate].
  apply Ascii.eqb_eq in E. intros H; inversion H; now subst.
Qed.

Lemma canonical_uuid_parts s :
  canonical_uuid s = true ->
  exists a b c d e,
    list_ascii_of_string s = a ++ "-"%char :: b ++ "-"%char :: c ++ "-"%char :: d ++ "-"%char :: e /\
    length a = 8%nat /\ length b = 4%nat /\ length c = 4%nat /\ length d = 4%nat /\ length e = 12%nat /\
    Forall (fun x => is_lower_hex x = true) (a ++ b ++ c ++ d ++ e).
Proof.
  unfold canonical_uuid.
  destruct (take_hex 8 _) as [r1|] eqn:H1; [|discriminate].
  destruct (dash r1) as [r2|] eqn:H2; [|discriminate].
  destruct (take_hex 4 r2) as [r3|] eqn:H3; [|discriminate].
  destruct (dash r3) as [r4|] eqn:H4; [|discriminate].
  destruct (take_hex 4 r4) as [r5|] eqn:H5; [|discriminate].
  destruct (dash r5) as [r6|] eqn:H6; [|discriminate].
  destruct (take_hex 4 r6) as [r7|] eqn:H7; [|discriminate].
  destruct (dash r7) as [r8|] eqn:H8; [|discriminate].
  destruct (take_hex 12 r8) as [[|x r9]|] eqn:H9; try discriminate. intros _.
  apply take_hex_app in H1 as (a & E1 & La & Fa).
  apply take_hex_app in H3 as (b & E3 & Lb & Fb).
  apply take_hex_app in H5 as (c & E5 & Lc & Fc).
  apply take_hex_app in H7 as (d & E7 & Ld & Fd).
  apply take_hex_app in H9 as (e & E9 & Le & Fe).
  apply dash_cons in H2, H4, H6, H8. subst.
  rewrite app_nil_r in E1.
  exists a, b, c, d, e. repeat split; auto.
  repeat (apply Forall_app; split); auto.
Qed.

Lemma starts_with_l_app p s r : starts_with_l p s = Some r -> s = p ++ r.
Proof.
  revert s. induction p as [|a p IH]; intros s H; simpl in H.
  - now inversion H.
  - destruct s as [|b s]; [discriminate|].
    destruct (Ascii.eqb a b) eqn:E; [|discriminate].
    apply Ascii.eqb_eq in E; subst. simpl. f_equal. now apply IH.
Qed.

Lemma remove_all_f_id fuel pat l :
  In ":"%char pat -> Forall (fun c => c <> ":"%char) l -> remove_all_f fuel pat l = l.
Proof.
  intros Hp. revert l. induction fuel as [|f IH]; intros l Hl; simpl; [reflexivity|].
  destruct l as [|c t]; [reflexivity|].
  destruct (starts_with_l pat (c :: t)) as [r|] eqn:E.
  - apply starts_with_l_app in E. exfalso.
    assert (Hin : In ":"%char (c :: t)) by (rewrite E; apply in_or_app; now left).
    rewrite Forall_forall in Hl. exact (Hl _ Hin eq_refl).
  - inversion Hl; subst. f_equal. now apply IH.
Qed.

Lemma lstrip_by_id (p : ascii -> bool) l : Forall (fun c => p c = false) l -> lstrip_by p l = l.
Proof. destruct 1; simpl; [reflexivity|]. now rewrite H. Qed.

Lemma strip_by_id (p : ascii -> bool) l : Forall (fun c => p c = false) l -> strip_by p l = l.
Proof.
  intros H. unfold strip_by. rewrite (lstrip_by_id p l H), lstrip_by_id; [apply rev_involutive|].
  now apply Forall_rev.
Qed.

Lemma hex_digits_value l :
  Forall (fun c => is_lower_hex c = true) l -> l <> [] ->
  forall acc seen, exists v, hex_digits l false acc seen = Some (acc * 16 ^ Z.of_nat (length l) + v)%Z
                       /\ (0 <= v < 16 ^ Z.of_nat (length l))%Z.
Proof.
  induction 1 as [|x l Hx Hl IH]; intros Hne acc seen; [congruence|].
  hexp Hx P. destruct P as [[[[[[[P1 P2] P3] P4] P5] P6] P7] P8].
  destruct (hex_val x) as [dx|] eqn:Hv; [|discriminate P8].
  rewrite andb_true_iff, Z.leb_le, Z.ltb_lt in P8.
  cbn [hex_digits]. assert (Hu : Ascii.eqb x "_" = false).
  { apply Ascii.eqb_neq. intros ->. discriminate. }
  rewrite Hu, Hv.
  destruct l as [|y l].
  - simpl. exists dx. split; [f_equal; lia | simpl; lia].
  - destruct (IH ltac:(discriminate) (acc * 16 + dx)%Z true) as (v & Hd & Hb).
    rewrite Hd. exists (dx * 16 ^ Z.of_nat (length (y :: l)) + v)%Z.
    set (n := Z.of_nat (length (y :: l))) in *.
    replace (Z.of_nat (length (x :: y :: l))) with (n + 1)%Z by (unfold n; simpl length; lia).
    assert (Hn : (0 <= n)%Z) by (unfold n; lia).
    rewrite Z.pow_add_r by lia. split; [f_equal; ring | nia].
Qed.

(** A [str(uuid4())] string is accepted by [UUID]. *)
Lemma canonical_looks_like_uuid s : canonical_uuid s = true -> looks_like_uuid s = true.
Proof.
  intros H. apply canonical_uuid_parts in H as (a & b & c & d & e & Hs & La & Lb & Lc & Ld & Le & Hf).
  set (L := a ++ "-"%char :: b ++ "-"%char :: c ++ "-"%char :: d ++ "-"%char :: e) in Hs.
  assert (HL : Forall (fun x => is_lower_hex x = true \/ x = "-"%char) L).
  { rewrite !Forall_app in Hf. destruct Hf as (Fa & Fb & Fc & Fd & Fe).
    unfold L. repeat (rewrite ?Forall_app, ?Forall_cons_iff; repeat split);
      try (eapply Forall_impl; [|eassumption]; intros; now left); now right. }
  unfold looks_like_uuid. rewrite Hs.
  assert (Hnc : Forall (fun x => x <> ":"%char) L).
  { eapply Forall_impl; [|exact HL]. intros x [Hx| ->]; [|discriminate].
    hexp Hx P. destruct P as [[[[[[[P1 P2] P3] P4] P5] P6] P7] P8].
    apply Ascii.eqb_neq. exact P2. }
  unfold remove_all. rewrite (remove_all_f_id _ _ L); [| simpl; tauto | exact Hnc].
  rewrite (remove_all_f_id _ _ L); [| simpl; tauto | exact Hnc].
  rewrite strip_by_id.
  2:{ eapply Forall_impl; [|exact HL]. intros x [Hx| ->]; [|reflexivity].
      hexp Hx P. destruct P as [[[[[[[P1 P2] P3] P4] P5] P6] P7] P8]. exact P3. }
  set (H32 := a ++ b ++ c ++ d ++ e).
  assert (Hfl : filter (fun x => negb (Ascii.eqb x "-")) L = H32).
  { assert (Hid : forall l, Forall (fun x => is_lower_hex x = true) l ->
                   filter (fun x => negb (Ascii.eqb x "-")) l = l).
    { induction 1 as [|x l Hx Hl IH]; simpl; [reflexivity|].
      hexp Hx P. destruct P as [[[[[[[P1 P2] P3] P4] P5] P6] P7] P8]. now rewrite P1, IH. }
    rewrite !Forall_app in Hf. destruct Hf as (Fa & Fb & Fc & Fd & Fe).
    unfold L, H32. repeat (rewrite filter_app; simpl). now rewrite !Hid. }
  rewrite Hfl.
  assert (Hlen : length H32 = 32%nat) by (unfold H32; rewrite !length_app; lia).
  rewrite Hlen. simpl Nat.eqb. cbv iota.
  unfold int16. rewrite strip_by_id.
  2:{ eapply Forall_impl; [|exact Hf]. intros x Hx.
      hexp Hx P. destruct P as [[[[[[[P1 P2] P3] P4] P5] P6] P7] P8]. exact P4. }
  destruct H32 as [|x [|y t]] eqn:EH; [discriminate | discriminate |].
  assert (Hf2 : Forall (fun c => is_lower_hex c = true) (x :: y :: t)) by (rewrite <- EH; exact Hf).
  pose proof Hf2 as Hf'. inversion Hf' as [|? ? Hx Ht]; subst. inversion Ht as [|? ? Hy _]; subst.
  hexp Hx P. destruct P as [[[[[[[P1 P2] P3] P4] P5] P6] P7] P8].
  hexp Hy P. destruct P as [[[[[[[Q1 Q2] Q3] Q4] Q5] Q6] Q7] Q8].
  rewrite P1, P5. cbn iota zeta. rewrite Q6, Q7. rewrite andb_false_r.
  destruct (hex_digits_value (x :: y :: t) Hf2 ltac:(discriminate) 0%Z false) as (v & Hd & Hb).
  rewrite Hd. rewrite Hlen in Hb.
  replace (16 ^ Z.of_nat 32)%Z with (2 ^ 128)%Z in Hb by reflexivity.
  rewrite Z.mul_0_l, Z.add_0_l. apply andb_true_iff; split; [apply Z.leb_le | apply Z.ltb_lt]; lia.
Qed.

End UuidFacts.

Module AutofixFacts.
Import Chars Py Uuid Validator Autofix UuidFacts.
Local Open Scope string_scope.
Local Open Scope list_scope.

Lemma get_set_same {A} k (v : A) d : get k (set k v d) = Some v.
Proof.
  induction d as [|[k' v'] d IH]; simpl; [now rewrite String.eqb_refl|].
  destruct (String.eqb k k') eqn:E; simpl; rewrite E; [reflexivity | exact IH].
Qed.

Lemma get_set_other {A} k k' (v : A) d : k <> k' -> get k (set k' v d) = get k d.
Proof.
  intros Hne. induction d as [|[k'' v'] d IH]; simpl.
  - apply String.eqb_neq in Hne. now rewrite Hne.
  - destruct (String.eqb k' k'') eqn:E; simpl.
    + apply String.eqb_eq in E; subst k''. apply String.eqb_neq in Hne. now rewrite Hne.
    + now rewrite IH.
Qed.

Lemma smem_cons x y l : smem x (y :: l) = (String.eqb x y || smem x l)%bool.
Proof. reflexivity. Qed.

Lemma smem_nil x : smem x [] = false.
Proof. reflexivity. Qed.

Lemma filter_keep_all (l : list string) : filter (fun i => negb (smem i [])) l = l.
Proof. induction l as [|x l IH]; [reflexivity|]. cbn [filter]. rewrite IH. reflexivity. Qed.

Lemma str_ids_cons r t :
  str_ids (r :: t) = match r with
                     | PDict d => match get "id" d with Some (PStr f) => [f] | _ => [] end
                     | _ => []
                     end ++ str_ids t.
Proof. reflexivity. Qed.

Lemma id_shape_ids l1 l2 :
  map id_shape_of l1 = map id_shape_of l2 -> str_ids l1 = str_ids l2 /\ row_ids l1 = row_ids l2.
Proof.
  revert l2. induction l1 as [|r1 l1 IH]; intros [|r2 l2] H; try discriminate; [split; reflexivity|].
  simpl in H. injection H as Hr Hl. destruct (IH l2 Hl) as [Hs Hrow].
  rewrite !str_ids_cons, Hs. simpl. rewrite Hrow.
  destruct r1, r2; try discriminate; simpl in Hr; try (split; reflexivity).
  injection Hr as Hr. rewrite Hr. split; reflexivity.
Qed.

Lemma replace_nth_shape i x x' l :
  nth_error l i = Some x -> id_shape_of x' = id_shape_of x ->
  map id_shape_of (replace_nth i x' l) = map id_shape_of l.
Proof.
  revert i. induction l as [|y l IH]; intros [|i] Hn Hx; simpl in *; try discriminate.
  - injection Hn as ->. now rewrite Hx.
  - now rewrite (IH i Hn Hx).
Qed.

Section Effects.
Variable draw : nat -> string.
Variable make_valid_mapping : dict pyval -> option pyval.

Lemma safe_fix_shape by_id acc issue :
  map id_shape_of (fst (safe_fix make_valid_mapping by_id acc issue)) = map id_shape_of (fst acc).
Proof.
  destruct acc as [rows fx]. unfold safe_fix.
  destruct (truthy_id (feature_id issue)) as [fid|]; [|reflexivity].
  destruct (get fid by_id) as [i|]; [|reflexivity].
  destruct (nth_error rows i) as [[| | | | | |[|kv row]]|] eqn:Hn; try reflexivity.
  assert (Hg : forall m, id_shape_of (PDict (set "geometry" m (kv :: row))) = id_shape_of (PDict (kv :: row))).
  { intros m. unfold id_shape_of. f_equal. apply get_set_other. discriminate. }
  destruct (String.eqb (check issue) "invalid_geometry").
  - destruct (get "geometry" (kv :: row)) as [[| | | | | |g]|]; try reflexivity.
    destruct (make_valid_mapping g); [|reflexivity]. cbn [fst]. now apply replace_nth_shape with (x := PDict (kv :: row)).
  - destruct (String.eqb (check issue) "excessive_precision"); [|reflexivity].
    destruct (get "geometry" (kv :: row)) as [[| | | | | |g]|]; try reflexivity.
    cbn [fst]. now apply replace_nth_shape with (x := PDict (kv :: row)).
Qed.

Lemma safe_fixes_shape by_id issues acc :
  map id_shape_of (fst (fold_left (safe_fix make_valid_mapping by_id) issues acc)) = map id_shape_of (fst acc).
Proof.
  revert acc. induction issues as [|i issues IH]; intros acc; simpl; [reflexivity|].
  rewrite IH. apply safe_fix_shape.
Qed.

Lemma delete_rows_str_ids td rows :
  str_ids (fst (delete_rows td rows)) = filter (fun i => negb (smem i td)) (str_ids rows).
Proof.
  induction rows as [|r rows IH]; [reflexivity|].
  cbn [delete_rows]. destruct (delete_rows td rows) as [kept fx]. cbn [fst] in IH.
  destruct r as [| | | | | |d]; cbn [fst]; rewrite ?str_ids_cons; cbn [app]; try exact IH.
  destruct (get "id" d) as [[| | | |f| |]|] eqn:G; cbn [fst]; rewrite ?str_ids_cons, ?G; cbn [app]; try exact IH.
  cbn [filter]. destruct (smem f td); cbn [negb fst]; [exact IH|].
  rewrite str_ids_cons, G. cbn [app]. now rewrite IH.
Qed.

Lemma delete_rows_row_ids td rows ids :
  row_ids rows = Some ids -> row_ids (fst (delete_rows td rows)) = Some (filter (fun i => negb (smem i td)) ids).
Proof.
  revert ids. induction rows as [|r rows IH]; intros ids H; simpl in *.
  - now injection H as <-.
  - destruct r as [| | | | | |d]; try discriminate.
    destruct (get "id" d) as [[| | | |f| |]|] eqn:G; try discriminate.
    destruct (row_ids rows) as [l|] eqn:R; [|discriminate]. injection H as <-.
    specialize (IH l eq_refl). destruct (delete_rows td rows) as [kept fx]. simpl in IH |- *.
    destruct (smem f td); simpl; [exact IH|]. now rewrite G, IH.
Qed.

Lemma draw_fresh_spec fuel n seen s n' :
  draw_fresh draw fuel n seen = Some (s, n') -> smem s seen = false /\ exists m, s = draw m.
Proof.
  revert n. induction fuel as [|f IH]; intros n H; simpl in H; [discriminate|].
  destruct (smem (draw n) seen) eqn:E.
  - exact (IH _ H).
  - injection H as <- _. split; [exact E | now exists n].
Qed.

Lemma forall_smem_cons x seen (l : list string) :
  Forall (fun i => smem i (x :: seen) = false) l ->
  ~ In x l /\ Forall (fun i => smem i seen = false) l.
Proof.
  intros H. rewrite Forall_forall in H. split.
  - intros Hin. specialize (H x Hin). rewrite smem_cons, String.eqb_refl in H. discriminate.
  - apply Forall_forall. intros i Hi. specialize (H i Hi). rewrite smem_cons in H.
    now apply orb_false_iff in H as [_ H].
Qed.

(** After the identifier pass the string ids are distinct, accepted by
    [UUID], and outside the ids seen before. *)
Lemma id_pass_ids fuel n seen rows rows1 fx :
  (forall m, canonical_uuid (draw m) = true) ->
  id_pass draw fuel n seen rows = Some (rows1, fx) ->
  NoDup (str_ids rows1) /\ Forall (fun i => looks_like_uuid i = true) (str_ids rows1)
  /\ Forall (fun i => smem i seen = false) (str_ids rows1).
Proof.
  intros Hdraw. revert n seen rows1 fx.
  induction rows as [|r rows IH]; intros n seen rows1 fx H; simpl in H.
  - injection H as <- _. repeat constructor.
  - assert (Hskip : forall rows1, match id_pass draw fuel n seen rows with
                                  | Some (rs, fx) => Some (r :: rs, fx) | None => None end = Some (rows1, fx) ->
                    (forall d, r <> PDict d) \/ (exists d, r = PDict d /\ match get "id" d with Some (PStr _) => False | _ => True end) ->
                    NoDup (str_ids rows1) /\ Forall (fun i => looks_like_uuid i = true) (str_ids rows1)
                    /\ Forall (fun i => smem i seen = false) (str_ids rows1)).
    { intros rows1' Hs Hr. destruct (id_pass draw fuel n seen rows) as [[rs fx']|] eqn:E; [|discriminate].
      injection Hs as <- _. destruct (IH n seen rs fx' E) as (A & B & C).
      rewrite str_ids_cons.
      destruct Hr as [Hr | (d & -> & Hd)].
      - destruct r; try (exact (conj A (conj B C))). exfalso; eapply Hr; reflexivity.
      - destruct (get "id" d) as [[]|]; try contradiction; exact (conj A (conj B C)). }
    destruct r as [| | | | | |d]; try (apply (Hskip rows1 H); left; intros d' Hd'; discriminate).
    destruct (get "id" d) as [[| | | |fid| |]|] eqn:G;
      try (apply (Hskip rows1 H); right; exists d; rewrite G; split; [reflexivity | exact I]).
    destruct (looks_like_uuid fid && negb (smem fid seen))%bool eqn:E.
    + destruct (id_pass draw fuel n (fid :: seen) rows) as [[rs fx']|] eqn:P; [|discriminate].
      injection H as <- _. apply andb_true_iff in E as [E1 E2]. apply negb_true_iff in E2.
      destruct (IH n (fid :: seen) rs fx' P) as (A & B & C).
      apply forall_smem_cons in C as [C1 C2].
      rewrite str_ids_cons, G. cbn [app].
      split; [now constructor | split; now constructor].
    + destruct (draw_fresh draw fuel n seen) as [[new_id n']|] eqn:D; [|discriminate].
      destruct (id_pass draw fuel n' (new_id :: seen) rows) as [[rs fx']|] eqn:P; [|discriminate].
      injection H as <- _.
      destruct (draw_fresh_spec _ _ _ _ _ D) as [Dn [m Dm]].
      destruct (IH n' (new_id :: seen) rs fx' P) as (A & B & C).
      apply forall_smem_cons in C as [C1 C2].
      rewrite str_ids_cons. cbn [app]. rewrite get_set_same. cbn [app].
      split; [now constructor | split; constructor; auto].
      subst new_id. apply canonical_looks_like_uuid, Hdraw.
Qed.

(** Rows with distinct well-formed ids, none of them seen, pass the
    identifier pass unchanged. *)
Lemma id_pass_keeps fuel n seen rows ids :
  row_ids rows = Some ids -> NoDup ids -> Forall (fun i => looks_like_uuid i = true) ids ->
  Forall (fun i => smem i seen = false) ids ->
  id_pass draw fuel n seen rows = Some (rows, []).
Proof.
  revert seen ids. induction rows as [|r rows IH]; intros seen ids Hr Hnd Hl Hs; simpl in *; [reflexivity|].
  destruct r as [| | | | | |d]; try discriminate.
  destruct (get "id" d) as [[| | | |fid| |]|] eqn:G; try discriminate.
  destruct (row_ids rows) as [l|] eqn:R; [|discriminate]. injection Hr as <-.
  inversion Hnd as [|? ? Hnin Hnd']; subst. inversion Hl as [|? ? Hlf Hl']; subst.
  inversion Hs as [|? ? Hsf Hs']; subst.
  rewrite Hlf, Hsf. simpl.
  rewrite (IH (fid :: seen) l eq_refl Hnd' Hl'); [reflexivity|].
  apply Forall_forall. intros i Hi. rewrite smem_cons.
  rewrite Forall_forall in Hs'. rewrite (Hs' i Hi), orb_false_r.
  apply String.eqb_neq. intros ->. exact (Hnin Hi).
Qed.

End Effects.
End AutofixFacts.

Module AutofixClaims.
Import Chars Py Uuid Validator Autofix UuidFacts AutofixFacts ValidatorExamples AutofixExamples.
Local Open Scope string_scope.
Local Open Scope list_scope.

(** C10.  Whatever the collection and the validation, when every [uuid4()]
    draw is a canonical UUID string, the string ids of the features
    [apply_autofix] returns are pairwise distinct and each is accepted by
    [UUID]. *)
Theorem autofix_ids_unique_uuids (draw : nat -> string) (make_valid_mapping : dict pyval -> option pyval)
    (fuel : nat) (fc : dict pyval) (v : ValidationResponse) (apply_prompted : bool)
    (out : dict pyval) fixes prompts (rows_out : list pyval) :
  (forall n, canonical_uuid (draw n) = true) ->
  apply_autofix draw make_valid_mapping fuel fc v apply_prompted = Some (out, fixes, prompts) ->
  get "features" out = Some (PList rows_out) ->
  NoDup (str_ids rows_out) /\ Forall (fun i => looks_like_uuid i = true) (str_ids rows_out).
Proof.
  intros Hdraw Hrun Hout. unfold apply_autofix in Hrun.
  destruct (get "features" fc) as [[| | | | |l|]|] eqn:F;
    try (injection Hrun as <- _ _; rewrite F in Hout; discriminate);
  [set (rows := l) | set (rows := @nil pyval)];
  (destruct (id_pass draw fuel 0 [] _) as [[rows1 fx1]|] eqn:P; [|discriminate];
   destruct (id_pass_ids draw fuel 0 [] _ rows1 fx1 Hdraw P) as (A & B & _);
   destruct (fold_left _ _ (rows1, fx1)) as [rows2 fx2] eqn:S;
   assert (Hs : str_ids rows2 = str_ids rows1)
     by (apply (id_shape_ids rows2 rows1);
         change rows2 with (fst (rows2, fx2)); rewrite <- S; apply safe_fixes_shape);
   destruct (if apply_prompted then _ else []) as [|x td] eqn:T;
   [ injection Hrun as <- _ _; try (rewrite F in Hout; discriminate);
     rewrite get_set_same in Hout; injection Hout as <-; rewrite Hs; auto
   | destruct (delete_rows (x :: td) rows2) as [kept fx3] eqn:K;
     injection Hrun as <- _ _; rewrite get_set_same in Hout; injection Hout as <-;
     change kept with (fst (kept, fx3)); rewrite <- K, delete_rows_str_ids, Hs;
     split; [apply NoDup_filter, A | rewrite Forall_forall in B |- *; intros y Hy;
      apply filter_In in Hy; apply B; tauto] ]).
Qed.

Lemma autofix_ids_unique_uuids_witness :
  let v := @validate_feature_collection PayloadGeometry.payload_shapely (fun l => l) clashing_ids in
  (forall n, canonical_uuid (draws n) = true) /\
  match apply_autofix draws repair_identity 100 clashing_ids v false with
  | Some (out, fixes, prompts) =>
      match get "features" out with
      | Some (PList rows_out) =>
          NoDup (str_ids rows_out) /\ Forall (fun i => looks_like_uuid i = true) (str_ids rows_out)
      | _ => False
      end
  | None => False
  end.
Proof.
  intros v.
  assert (Hd : forall n, canonical_uuid (draws n) = true)
    by (intros n; destruct n as [|[|n]]; vm_compute; reflexivity).
  split; [exact Hd|].
  destruct (apply_autofix draws repair_identity 100 clashing_ids v false) as [[[out fixes] prompts]|] eqn:R;
    [|vm_compute in R; discriminate].
  assert (Hf : exists rows_out, get "features" out = Some (PList rows_out))
    by (vm_compute in R; injection R as <- _ _; eexists; reflexivity).
  destruct Hf as [rows_out G]. rewrite G.
  exact (autofix_ids_unique_uuids draws repair_identity 100 clashing_ids v false out fixes prompts rows_out Hd R G).
Defined.

(** C3 (as amended).  With [apply_prompted] true, on a collection whose
    rows are all dictionaries with distinct well-formed ids, the features
    kept are exactly the input ones, in order, whose id is not in
    [to_delete]: the larger id of every [duplicate_geometry_warning] pair
    and every [empty_geometry] id the validation names. *)
Theorem autofix_prompted_deletes (draw : nat -> string) (make_valid_mapping : dict pyval -> option pyval)
    (fuel : nat) (fc : dict pyval) (v : ValidationResponse) (rows : list pyval) (ids : list string)
    (out : dict pyval) fixes prompts :
  get "features" fc = Some (PList rows) -> row_ids rows = Some ids -> NoDup ids ->
  Forall (fun i => looks_like_uuid i = true) ids ->
  apply_autofix draw make_valid_mapping fuel fc v true = Some (out, fixes, prompts) ->
  exists kept, get "features" out = Some (PList kept) /\
    row_ids kept = Some (filter (fun i => negb (smem i (prompted_deletions (duplicate_pairs (errors v ++ warnings v))
                                                                         (empty_ids (errors v ++ warnings v))))) ids).
Proof.
  intros F Hr Hnd Hl Hrun. unfold apply_autofix in Hrun. rewrite F in Hrun.
  cbv beta iota zeta in Hrun.
  assert (Hs0 : Forall (fun i => smem i [] = false) ids) by (apply Forall_forall; reflexivity).
  rewrite (id_pass_keeps draw fuel 0 [] rows ids Hr Hnd Hl Hs0) in Hrun.
  cbv beta iota zeta in Hrun.
  destruct (fold_left (safe_fix make_valid_mapping (index_by_id rows)) (errors v ++ warnings v) (rows, []))
    as [rows2 fx2] eqn:S.
  assert (H2 : row_ids rows2 = Some ids).
  { rewrite <- Hr. apply id_shape_ids.
    change rows2 with (fst (rows2, fx2)). rewrite <- S. apply safe_fixes_shape. }
  destruct (prompted_deletions (duplicate_pairs (errors v ++ warnings v)) (empty_ids (errors v ++ warnings v)))
    as [|x td] eqn:T.
  - injection Hrun as <- _ _. exists rows2. rewrite get_set_same, filter_keep_all. split; [reflexivity | exact H2].
  - destruct (delete_rows (x :: td) rows2) as [kept fx3] eqn:K.
    injection Hrun as <- _ _. exists kept. rewrite get_set_same. split; [reflexivity|].
    change kept with (fst (kept, fx3)). rewrite <- K. now apply delete_rows_row_ids.
Qed.

Lemma autofix_prompted_deletes_witness :
  let v := @validate_feature_collection PayloadGeometry.payload_shapely (fun l => l) three_units in
  match apply_autofix draws repair_identity 100 three_units v true with
  | Some (out, fixes, prompts) =>
      exists kept, get "features" out = Some (PList kept) /\
        row_ids kept = Some (filter (fun i => negb (smem i (prompted_deletions (duplicate_pairs (errors v ++ warnings v))
                                                                             (empty_ids (errors v ++ warnings v)))))
                                    [uuid_a; uuid_b; uuid_c])
  | None => False
  end.
Proof.
  intros v.
  destruct (apply_autofix draws repair_identity 100 three_units v true) as [[[out fixes] prompts]|] eqn:R;
    [|vm_compute in R; discriminate].
  apply (autofix_prompted_deletes draws repair_identity 100 three_units v three_units_rows
           [uuid_a; uuid_b; uuid_c] out fixes prompts); [reflexivity | reflexivity | | | exact R].
  - repeat constructor; vm_compute; intuition discriminate.
  - repeat constructor.
Defined.

(** C3 as stated fails: a duplicate pair whose ids are not UUIDs is
    reported under the old ids, the identifier pass gives both features new
    ids first, and no feature is deleted. *)
Lemma autofix_regenerated_pair_deletes_nothing :
  let v := @validate_feature_collection PayloadGeometry.payload_shapely (fun l => l) twin_units_plain_ids in
  duplicate_pairs (errors v ++ warnings v) = [("unit-a", "unit-b")] /\
  match apply_autofix draws repair_identity 100 twin_units_plain_ids v true with
  | Some (out, _, _) =>
      match get "features" out with
      | Some (PList kept) => length kept = 2%nat
      | _ => False
      end
  | None => False
  end.
Proof. vm_compute. split; reflexivity. Qed.

End AutofixClaims.

(** ** generator.py *)
Module GeneratorFacts.
Import Chars Py Schemas Shapely Validator Wizard Generator.
Local Open Scope string_scope.
Local Open Scope list_scope.

Ltac split_goal :=
  repeat match goal with
  | |- context [if ?b then _ else _] => destruct b
  | |- context [match ?x with [] => _ | _ :: _ => _ end] => destruct x
  end.

Lemma zget_zset {A} o o' (v : A) m :
  zget o (zset o' v m) = if (o =? o')%Z then Some v else zget o m.
Proof.
  induction m as [|[k w] m IH]; simpl.
  - reflexivity.
  - destruct (o' =? k)%Z eqn:E; simpl.
    + apply Z.eqb_eq in E; subst k. destruct (o =? o')%Z; reflexivity.
    + rewrite IH. destruct (o =? o')%Z eqn:E1; [|reflexivity].
      apply Z.eqb_eq in E1; subst o'. rewrite E. reflexivity.
Qed.

Lemma get_clean_feature_type f : get "feature_type" (clean_feature f) = get "feature_type" f.
Proof.
  unfold clean_feature. destruct (get "properties" f) as [[| | | | | |p]|]; try reflexivity.
  apply AutofixFacts.get_set_other. discriminate.
Qed.

(** The feature types that carry a [level_id]. *)
Definition not_linked (feats : list pyval) : Prop :=
  forall f, In (PDict f) feats -> str_in (get "feature_type" f) LEVEL_LINKED = false.

Lemma not_linked_app l1 l2 : not_linked l1 -> not_linked l2 -> not_linked (l1 ++ l2).
Proof. intros H1 H2 f Hf. apply in_app_or in Hf as [Hf|Hf]; auto. Qed.

Section Facts.
Context `{SH : Shapely}.
Variable stable_id : string -> string -> string.
Variable draw : nat -> string.
Variable py_repr : pyval -> string.
Variable column_value : string -> string -> pyval -> option pyval.

(** Every ordinal the level loop gives an id has a level feature of that id. *)
Definition levels_closed (acc : LevelAcc) : Prop :=
  (forall o lid, zget o (level_id_by_ordinal acc) = Some lid ->
     exists lvl, In (PDict lvl) (level_features acc) /\ get "feature_type" lvl = Some (PStr "level")
                 /\ get "id" lvl = Some (PStr lid))
  /\ not_linked (level_features acc).

Lemma level_step_closed sid language building_rows source_rows unit_geoms acc og acc' :
  levels_closed acc ->
  level_step stable_id sid language building_rows source_rows unit_geoms acc og = Some acc' ->
  levels_closed acc'.
Proof.
  intros [Hc Hn] H. destruct og as [ordinal group]. unfold level_step, bind in H.
  destruct (match flat_map _ (group_stems group) with [] => _ | _ :: _ => _ end) as [pg|]; [|discriminate].
  destruct pg as [|g0 gs]; [injection H as <-; split; assumption|].
  destruct (is_empty (unary_union (g0 :: gs))); [injection H as <-; split; assumption|].
  injection H as <-. split; cbn [level_features level_id_by_ordinal].
  - intros o lid Hz. rewrite zget_zset in Hz. destruct (o =? ordinal)%Z.
    + injection Hz as <-. eexists. split; [apply in_or_app; right; left; reflexivity|].
      split; reflexivity.
    + destruct (Hc o lid Hz) as (lvl & Hin & Ht & Hi). exists lvl.
      split; [apply in_or_app; left; exact Hin | split; assumption].
  - apply not_linked_app; [exact Hn|]. intros f [Hf|[]]. injection Hf as <-. reflexivity.
Qed.

Lemma level_loop_closed sid language building_rows source_rows unit_geoms groups acc acc' :
  levels_closed acc ->
  level_loop stable_id sid language building_rows source_rows unit_geoms acc groups = Some acc' ->
  levels_closed acc'.
Proof.
  revert acc. induction groups as [|og t IH]; intros acc Hc H; simpl in H.
  - injection H as <-. exact Hc.
  - unfold bind in H.
    destruct (level_step stable_id sid language building_rows source_rows unit_geoms acc og) as [a1|] eqn:E;
      [|discriminate].
    exact (IH a1 (level_step_closed _ _ _ _ _ _ _ _ Hc E) H).
Qed.

Lemma footprint_step_not_linked sid file_map unit_geoms lb b acc ol :
  not_linked (fst (fst acc)) ->
  not_linked (fst (fst (footprint_step stable_id sid file_map unit_geoms lb b acc ol))).
Proof.
  intros H. destruct ol as [ordinal lg]. destruct acc as [[fps ground] first].
  unfold footprint_step. cbv zeta. split_goal; try exact H.
  all: cbn [fst] in H |- *; apply not_linked_app; [exact H|]; intros f [Hf|[]]; injection Hf as <-; reflexivity.
Qed.

Lemma footprint_loop_not_linked sid file_map unit_geoms levels building_rows :
  not_linked (fst (fst (footprint_loop stable_id sid file_map unit_geoms levels building_rows))).
Proof.
  unfold footprint_loop.
  assert (G : forall bs acc, not_linked (fst (fst acc)) ->
            not_linked (fst (fst (fold_left (fun acc b =>
               fold_left (footprint_step stable_id sid file_map unit_geoms (level_building_ids levels) b)
                 (zsort (level_geom_by_ordinal levels)) acc) bs acc)))).
  { induction bs as [|b bs IH]; intros acc H; simpl; [exact H|].
    apply IH. generalize (zsort (level_geom_by_ordinal levels)).
    intros l. revert acc H. induction l as [|ol l IHl]; intros acc H; simpl; [exact H|].
    apply IHl. apply footprint_step_not_linked, H. }
  apply G. intros f [].
Qed.

Lemma building_features_not_linked sid language proj ground first building_rows :
  not_linked (building_features stable_id sid language proj ground first building_rows).
Proof.
  intros f Hf. unfold building_features in Hf. apply in_map_iff in Hf as (b & Hb & _).
  injection Hb as <-. reflexivity.
Qed.

Lemma venue_feature_not_linked sid language proj buffer_m vaid footprints levels unit_geoms v :
  venue_feature stable_id sid language proj buffer_m vaid footprints levels unit_geoms = Some v ->
  not_linked (match v with Some x => [x] | None => [] end).
Proof.
  intros H. unfold venue_feature, bind in H. destruct proj as [p|].
  - destruct (fold_right _ (Some []) footprints) as [fr|]; [|discriminate].
    revert H. cbv zeta. split_goal; intros H; injection H as <-; intros f Hf; simpl in Hf;
      first [contradiction | destruct Hf as [Hf|[]]; injection Hf as <-; reflexivity].
  - injection H as <-. intros f [].
Qed.

Definition nl (c : dict pyval) : Prop := str_in (get "feature_type" c) LEVEL_LINKED = false.

Lemma not_linked_map l : Forall nl l -> not_linked (map PDict l).
Proof.
  intros H f Hf. apply in_map_iff in Hf as (x & Hx & Hin). injection Hx as ->.
  rewrite Forall_forall in H. exact (H f Hin).
Qed.

Lemma collect_address_not_linked w n :
  (forall f, venue_address_feature w = Some f -> nl f) ->
  (forall f, In (PDict f) (building_address_features w) -> nl f) ->
  not_linked (fst (fst (collect_address_features draw py_repr w n))).
Proof.
  intros Hv Hb. unfold collect_address_features.
  match goal with |- context [fold_left ?F (building_address_features w) _] =>
    assert (G : forall l (a : list (dict pyval) * list string), Forall nl (fst a) ->
                (forall f, In (PDict f) l -> nl f) -> Forall nl (fst (fold_left F l a)))
  end.
  { induction l as [|x l IH]; intros a Ha Hl; simpl; [exact Ha|].
    apply IH; [|intros f Hf; apply Hl; right; exact Hf].
    destruct a as [out known]. destruct x as [| | | | | |f]; try exact Ha.
    assert (Hc : nl (clean_feature f)) by (unfold nl; rewrite get_clean_feature_type; apply Hl; left; reflexivity).
    cbn [fst] in Ha |- *.
    destruct (get "id" (clean_feature f)) as [i|]; [destruct (truthy i); [destruct (smem (py_str py_repr i) known)|]|];
      cbn [fst]; try exact Ha;
      (apply Forall_app; split; [exact Ha | apply Forall_cons; [exact Hc | apply Forall_nil]]). }
  assert (Hvaf : forall f, fst (match project w, venue_address_feature w with
              | Some p, None => (Some (build_address_feature (draw n) (project_address p) (Some (venue_name p))), S n)
              | _, v => (v, n)
              end) = Some f -> nl f).
  { destruct (project w), (venue_address_feature w) eqn:E; cbn [fst]; intros f Hf;
      try discriminate; injection Hf as <-; try reflexivity; auto. }
  destruct (match project w, venue_address_feature w with
              | Some p, None => (Some (build_address_feature (draw n) (project_address p) (Some (venue_name p))), S n)
              | _, v => (v, n)
              end) as [vf n1].
  cbn [fst] in Hvaf.
  destruct vf as [vf|].
  - match goal with |- context [fold_left ?F ?l ?a] => destruct (fold_left F l a) as [ad k] eqn:EF end.
    cbn [fst]. apply not_linked_map.
    change ad with (fst (ad, k)). rewrite <- EF. apply G; [|exact Hb].
    cbn [fst]. constructor; [|constructor].
    unfold nl. rewrite get_clean_feature_type. apply Hvaf. reflexivity.
  - match goal with |- context [fold_left ?F ?l ?a] => destruct (fold_left F l a) as [ad k] eqn:EF end.
    cbn [fst]. apply not_linked_map.
    change ad with (fst (ad, k)). rewrite <- EF. apply G; [constructor | exact Hb].
Qed.

Lemma mapped_properties_level_id ft lid md geom common props :
  mapped_properties column_value ft lid md geom common = Some props -> get "level_id" props = Some (PStr lid).
Proof.
  unfold mapped_properties, bind. intros H.
  repeat match type of H with
  | context [if ?b then _ else _] => destruct b
  | context [match column_value ?a ?b ?c with _ => _ end] => destruct (column_value a b c)
  end; try discriminate; injection H as <-; reflexivity.
Qed.

(** Every feature the mapped loop emits names, as its [level_id], an id the
    level loop recorded. *)
Lemma mapped_loop_levels file_map level_ids rows n out :
  mapped_loop draw py_repr column_value file_map level_ids rows n = Some out ->
  forall f, In (PDict f) (fst out) ->
  exists props lid o, get "properties" f = Some (PDict props) /\ get "level_id" props = Some (PStr lid)
                      /\ zget o level_ids = Some lid.
Proof.
  revert n out. induction rows as [|row t IH]; intros n out H f Hf.
  - injection H as <-. destruct Hf.
  - cbn [mapped_loop] in H. unfold bind in H.
    destruct (row_dict row) as [d|]; [|discriminate].
    destruct (or_dict (get "properties" d)) as [rp|]; [|discriminate].
    destruct (get "source_file" rp) as [sv|]; [|exact (IH _ _ H f Hf)].
    destruct (negb (truthy sv)); [exact (IH _ _ H f Hf)|].
    destruct (str_key sv) as [[s|]|]; [|exact (IH _ _ H f Hf)|discriminate].
    destruct (get s file_map) as [fi|]; [|exact (IH _ _ H f Hf)].
    destruct (negb (smem (detected_lower fi) LEVEL_LINKED)); [exact (IH _ _ H f Hf)|].
    destruct (get "geometry" d) as [[| | | | | |g]|]; try exact (IH _ _ H f Hf).
    destruct (shape (PDict g)) as [geom|]; [|discriminate].
    destruct (is_empty geom); [exact (IH _ _ H f Hf)|].
    destruct (detected_level fi) as [ordinal|]; [|exact (IH _ _ H f Hf)].
    destruct (zget ordinal level_ids) as [level_id|] eqn:Z; [|exact (IH _ _ H f Hf)].
    destruct (String.eqb level_id ""); [exact (IH _ _ H f Hf)|].
    match type of H with context [mapped_properties column_value ?a ?b ?c ?d ?e] =>
      destruct (mapped_properties column_value a b c d e) as [props|] eqn:P; [|discriminate] end.
    match type of H with context [match ?x with (fid, n') => _ end] =>
      destruct x as [fid n'] end.
    destruct (mapped_loop draw py_repr column_value file_map level_ids t n') as [[rest n'']|] eqn:E;
      [|discriminate].
    injection H as <-. destruct Hf as [Hf|Hf].
    + injection Hf as <-. exists props, level_id, ordinal.
      split; [reflexivity | split; [exact (mapped_properties_level_id _ _ _ _ _ _ P) | exact Z]].
    + exact (IH _ _ E f Hf).
Qed.

End Facts.
End GeneratorFacts.

Module GeneratorClaims.
Import Chars Py Schemas Shapely Validator Wizard Generator GeneratorFacts.
Local Open Scope string_scope.
Local Open Scope list_scope.

(** C5.  In the collection [generate_feature_collection] returns, every
    unit, opening, fixture or detail feature has a [level_id] property that
    is the id of a level feature of the same collection, whenever the
    session's address features (which the wizard builds with feature type
    [address]) are of none of these four types. *)
Theorem generated_level_ids_resolve `{SH : Shapely} (stable_id : string -> string -> string)
    (draw : nat -> string) (py_repr : pyval -> string)
    (column_value : string -> string -> pyval -> option pyval)
    (session : SessionRecord) (out : dict pyval) (feats : list pyval) :
  (forall f, venue_address_feature (wizard session) = Some f ->
             str_in (get "feature_type" f) LEVEL_LINKED = false) ->
  (forall f, In (PDict f) (building_address_features (wizard session)) ->
             str_in (get "feature_type" f) LEVEL_LINKED = false) ->
  generate_feature_collection stable_id draw py_repr column_value session = Some out ->
  get "features" out = Some (PList feats) ->
  forall f, In (PDict f) feats -> str_in (get "feature_type" f) LEVEL_LINKED = true ->
  exists props lid lvl, get "properties" f = Some (PDict props) /\ get "level_id" props = Some (PStr lid)
    /\ In (PDict lvl) feats /\ get "feature_type" lvl = Some (PStr "level") /\ get "id" lvl = Some (PStr lid).
Proof.
  intros Hv Hb G Hf f Hin Hl.
  unfold generate_feature_collection, bind in G.
  match type of G with context [unit_geometries_by_stem ?a ?b ?c] =>
    destruct (unit_geometries_by_stem a b c) as [ug|]; [|discriminate] end.
  match type of G with context [collect_address_features ?a ?b ?c ?d] =>
    destruct (collect_address_features a b c d) as [[addrs vaid] n] eqn:CA end.
  match type of G with context [level_loop ?a ?b ?c ?d ?e ?f ?g ?h] =>
    destruct (level_loop a b c d e f g h) as [levels|] eqn:LL; [|discriminate] end.
  match type of G with context [footprint_loop ?a ?b ?c ?d ?e ?f] =>
    destruct (footprint_loop a b c d e f) as [[fps ground] first] eqn:FL end.
  match type of G with context [venue_feature ?a ?b ?c ?d ?e ?f ?g ?h ?i] =>
    destruct (venue_feature a b c d e f g h i) as [venue|] eqn:VF; [|discriminate] end.
  match type of G with context [mapped_loop ?a ?b ?c ?d ?e ?f ?g] =>
    destruct (mapped_loop a b c d e f g) as [mapped|] eqn:ML; [|discriminate] end.
  injection G as <-. cbn in Hf. injection Hf as <-.
  assert (Hc : levels_closed levels).
  { eapply level_loop_closed; [|exact LL]. split; [intros o lid Z; discriminate | intros g []]. }
  destruct Hc as [Hc Hln].
  assert (HA : not_linked addrs).
  { change addrs with (fst (fst (addrs, vaid, n))). rewrite <- CA.
    apply collect_address_not_linked; [exact Hv | exact Hb]. }
  assert (HF : not_linked fps).
  { change fps with (fst (fst (fps, ground, first))). rewrite <- FL. apply footprint_loop_not_linked. }
  pose proof (venue_feature_not_linked _ _ _ _ _ _ _ _ _ _ VF) as HV.
  assert (HB := building_features_not_linked stable_id).
  match type of Hin with In _ ?L =>
    assert (Hlvl : forall lid, (exists o, zget o (level_id_by_ordinal levels) = Some lid) ->
                   exists lvl, In (PDict lvl) L /\ get "feature_type" lvl = Some (PStr "level")
                               /\ get "id" lvl = Some (PStr lid)) end.
  { intros lid [o Z]. destruct (Hc o lid Z) as (lvl & Hi & Ht & Hid). exists lvl.
    split; [|split; assumption].
    do 4 (apply in_or_app; right). apply in_or_app; left. exact Hi. }

  repeat (apply in_app_or in Hin as [Hin|Hin]);
    try (exfalso; match goal with H : not_linked _ |- _ => rewrite (H f Hin) in Hl; discriminate end);
    try (exfalso; rewrite (HB _ _ _ _ _ _ f Hin) in Hl; discriminate).
  destruct (mapped_loop_levels _ _ _ _ _ _ _ _ ML f Hin) as (props & lid & o & Hp & Hlid & Z).
  destruct (Hlvl lid (ex_intro _ o Z)) as (lvl & Hi & Ht & Hid).
  exists props, lid, lvl. repeat split; assumption.
Qed.

Lemma generated_level_ids_resolve_witness :
  exists out feats f,
    GeneratorExamples.generate_example (GeneratorExamples.example_session []) = Some out /\
    get "features" out = Some (PList feats) /\ In (PDict f) feats /\
    str_in (get "feature_type" f) LEVEL_LINKED = true /\
    exists props lid lvl, get "properties" f = Some (PDict props) /\ get "level_id" props = Some (PStr lid)
      /\ In (PDict lvl) feats /\ get "feature_type" lvl = Some (PStr "level") /\ get "id" lvl = Some (PStr lid).
Proof.
  destruct (GeneratorExamples.generate_example (GeneratorExamples.example_session [])) as [out|] eqn:G;
    [|vm_compute in G; discriminate].
  assert (Hf : exists feats, get "features" out = Some (PList feats)).
  { pose proof G as G0. vm_compute in G0. injection G0 as <-. eexists. reflexivity. }
  destruct Hf as [feats Hf].
  assert (Hsel : exists f, In (PDict f) feats /\ str_in (get "feature_type" f) LEVEL_LINKED = true).
  { pose proof G as G0. vm_compute in G0. injection G0 as <-. vm_compute in Hf. injection Hf as <-.
    eexists. split; [do 3 right; left; reflexivity | reflexivity]. }
  destruct Hsel as [f [Hin Hl]].
  exists out, feats, f. split; [reflexivity|]. split; [exact Hf|]. split; [exact Hin|]. split; [exact Hl|].
  apply (@generated_level_ids_resolve PayloadGeometry.payload_shapely GeneratorExamples.example_stable_id
           AutofixExamples.draws PayloadGeometry.repr GeneratorExamples.no_columns
           (GeneratorExamples.example_session []) out feats); try assumption.
  - intros g Hg. discriminate.
  - intros g [].
Defined.

(** C4.  The level default of [generate_feature_collection] at ordinal 0
    is [GH], where the wizard's is [GF]: a ground-floor group whose items
    carry no short name (as [PATCH /wizard/levels] stores them) is
    generated with the short name [{"en": "GH"}]. *)
Theorem generated_ground_short_name_GH :
  Wizard.default_short_name (Some 0%Z) = Some "GF" /\
  Generator.default_short_name 0 = "GH" /\
  GeneratorExamples.level_short_names
    (GeneratorExamples.generate_example (GeneratorExamples.example_session GeneratorExamples.unnamed_ground_items))
  = [PDict [("en", PStr "GH")]].
Proof. vm_compute. repeat split. Qed.

End GeneratorClaims.

Module ExportFacts.
Import Py Validator Wizard ExportRouter AutofixFacts.
Local Open Scope string_scope.
Local Open Scope list_scope.

Lemma counter_absent k l d :
  ~ In k l -> get k d = None ->
  get k (fold_left (fun d k => set k (S (match get k d with Some n => n | None => O end)) d) l d) = None.
Proof.
  revert d; induction l as [|k' l IH]; intros d Hn Hd; simpl; [exact Hd|].
  apply IH.
  - intro H; apply Hn; right; exact H.
  - rewrite get_set_other; [exact Hd|].
    intro E; apply Hn; left; symmetry; exact E.
Qed.

Lemma validation_log_required `{SH : Shapely.Shapely} set_order fc :
  exists rest, validation_log set_order fc
               = required_issues (counter (map feature_type_of (rows_of fc))) ++ rest.
Proof.
  unfold validation_log.
  destruct (geometry_pass _) as [log3 gs].
  destruct (row_checks_pass _ _ _ _ _) as [log4 u].
  eexists; reflexivity.
Qed.

Lemma missing_venue_error `{SH : Shapely.Shapely} set_order fc :
  (forall r, In r (rows_of fc) -> feature_type_of r <> "venue") ->
  exists rest, errors (validate_feature_collection set_order fc)
               = err "missing_venue" "Missing required 'venue' feature." None :: rest.
Proof.
  intros Hr.
  assert (Hc : get "venue" (counter (map feature_type_of (rows_of fc))) = None).
  { unfold counter; apply counter_absent; [|reflexivity].
    intro H; apply in_map_iff in H as [r [E Hin]]; exact (Hr r Hin E). }
  destruct (validation_log_required set_order fc) as [rest E].
  unfold validate_feature_collection; cbn [errors]; rewrite E, filter_app.
  unfold required_issues; cbn [flat_map]; rewrite Hc.
  eexists; reflexivity.
Qed.

End ExportFacts.

Module ExportClaims.
Import Py Validator Wizard ExportRouter ExportFacts.
Local Open Scope string_scope.
Local Open Scope list_scope.

(** C1.  [export_imdf] validates the session's collection, stores the
    annotated collection and the validation in the session, and then ends
    in the blocking error exactly when the summary's [error_count] is
    positive; with no error it returns the archive that
    [build_export_archive] builds from the updated session.  A collection
    with no venue feature validates with a [missing_venue] error first in
    [errors], so [error_count >= 1] and the export is blocked. *)
Theorem export_blocked_iff_errors `{SH : Shapely.Shapely} (set_order : list string -> list string)
    (build_export_archive : SessionRecord -> string * string)
    (store : Store) (sid : string) (session : SessionRecord) (store' : Store) (res : ExportResult) :
  get sid store = Some session ->
  export_imdf set_order build_export_archive store sid = (store', res) ->
  let v := validate_feature_collection set_order (feature_collection session) in
  let session' := with_validation session
                    (annotate_feature_collection_with_validation (feature_collection session) v) v in
  store' = save_session session' store /\
  ((exists msg, res = ExportBlocked msg) <-> (0 < error_count (summary v))%nat) /\
  ((0 < error_count (summary v))%nat ->
     res = ExportBlocked "Export blocked: unresolved validation errors remain.") /\
  (error_count (summary v) = 0%nat ->
     res = ZipResponse (fst (build_export_archive session')) (snd (build_export_archive session'))) /\
  ((forall r, In r (rows_of (feature_collection session)) -> feature_type_of r <> "venue") ->
     In (err "missing_venue" "Missing required 'venue' feature." None) (errors v)
     /\ (1 <= error_count (summary v))%nat
     /\ res = ExportBlocked "Export blocked: unresolved validation errors remain.").
Proof.
  intros Hg He v session'.
  unfold export_imdf in He; rewrite Hg in He; fold v session' in He.
  assert (Hnv : (forall r, In r (rows_of (feature_collection session)) -> feature_type_of r <> "venue") ->
                In (err "missing_venue" "Missing required 'venue' feature." None) (errors v)
                /\ (1 <= error_count (summary v))%nat).
  { intros Hr; destruct (missing_venue_error set_order _ Hr) as [rest E].
    unfold v; split; [rewrite E; left; reflexivity|].
    unfold validate_feature_collection at 1; cbn [summary error_count].
    change (filter is_error (validation_log set_order (feature_collection session)))
      with (errors (validate_feature_collection set_order (feature_collection session))).
    rewrite E; simpl; lia. }
  destruct (Nat.ltb_spec 0 (error_count (summary v))) as [Hlt|Hge].
  - injection He as <- <-.
    split; [reflexivity|].
    split; [split; [intros _; exact Hlt | intros _; eexists; reflexivity]|].
    split; [intros _; reflexivity|].
    split; [intros E; lia|].
    intros Hr; destruct (Hnv Hr) as [Hi Hc]; split; [exact Hi|split; [exact Hc|reflexivity]].
  - destruct (build_export_archive session') as [payload filename] eqn:Eb.
    injection He as <- <-.
    split; [reflexivity|].
    split; [split; [intros [msg E]; discriminate | intros E; lia]|].
    split; [intros E; lia|].
    split; [intros _; reflexivity|].
    intros Hr; destruct (Hnv Hr) as [Hi Hc]; lia.
Qed.

(** The export of the example session, which has no venue feature. *)
Lemma export_blocked_iff_errors_witness :
  let store := [("s1", GeneratorExamples.example_session [])] in
  let r := export_imdf (SH := PayloadGeometry.payload_shapely) (fun l => l)
             (fun _ => ("zip", "s1_imdf.zip")) store "s1" in
  let v := validate_feature_collection (SH := PayloadGeometry.payload_shapely) (fun l => l)
             (feature_collection (GeneratorExamples.example_session [])) in
  let session' := with_validation (GeneratorExamples.example_session [])
                    (annotate_feature_collection_with_validation
                       (feature_collection (GeneratorExamples.example_session [])) v) v in
  fst r = save_session session' store /\
  ((exists msg, snd r = ExportBlocked msg) <-> (0 < error_count (summary v))%nat) /\
  ((0 < error_count (summary v))%nat ->
     snd r = ExportBlocked "Export blocked: unresolved validation errors remain.") /\
  (error_count (summary v) = 0%nat ->
     snd r = ZipResponse "zip" "s1_imdf.zip") /\
  ((forall row, In row (rows_of (feature_collection (GeneratorExamples.example_session []))) ->
                feature_type_of row <> "venue") ->
     In (err "missing_venue" "Missing required 'venue' feature." None) (errors v)
     /\ (1 <= error_count (summary v))%nat
     /\ snd r = ExportBlocked "Export blocked: unresolved validation errors remain.").
Proof.
  intros store r v session'.
  apply (export_blocked_iff_errors (SH := PayloadGeometry.payload_shapely) (fun l => l)
           (fun _ => ("zip", "s1_imdf.zip")) store "s1" (GeneratorExamples.example_session [])
           (fst r) (snd r)).
  - reflexivity.
  - vm_compute; reflexivity.
Defined.

End ExportClaims.

Module ImporterFacts.
Import Importer.
Local Open Scope list_scope.

(** The passes other than the explosion and the dropping leave these two
    tallies alone. *)
Definition keeps (s s' : CleanupSummary) : Prop :=
  multipolygons_exploded s' = multipolygons_exploded s /\ empty_features_dropped s' = empty_features_dropped s.

Lemma keeps_refl s : keeps s s.
Proof. split; reflexivity. Qed.

Lemma keeps_trans s1 s2 s3 : keeps s1 s2 -> keeps s2 s3 -> keeps s1 s3.
Proof. unfold keeps; intros [A B] [C D]; split; congruence. Qed.

Lemma keeps_ring_closed s : keeps s (add_ring_closed s).
Proof. split; reflexivity. Qed.
Lemma keeps_reoriented s : keeps s (add_reoriented s).
Proof. split; reflexivity. Qed.
Lemma keeps_rounded s : keeps s (add_rounded s).
Proof. split; reflexivity. Qed.

Create HintDb cleanup.
Local Hint Resolve keeps_refl keeps_ring_closed keeps_reoriented keeps_rounded : cleanup.

Lemma close_ring_keeps r s : keeps s (snd (close_ring r s)).
Proof. unfold close_ring; destruct r; [auto with cleanup|]; destruct (point_eqb _ _); simpl; auto with cleanup. Qed.

Lemma close_rings_keeps rs s : keeps s (snd (close_rings rs s)).
Proof.
  revert s; induction rs as [|r t IH]; intros s; simpl; [auto with cleanup|].
  pose proof (close_ring_keeps r s) as K.
  destruct (close_ring r s) as [r' s1]; simpl in K.
  specialize (IH s1); destruct (close_rings t s1) as [t' s2]; simpl in *.
  eapply keeps_trans; eauto.
Qed.

Lemma normalize_polygon_keeps p s p' s' :
  normalize_polygon p s = Some (p', s') -> keeps s s'.
Proof.
  unfold normalize_polygon.
  pose proof (close_ring_keeps (fst p) s) as K1.
  destruct (close_ring (fst p) s) as [e s1]; simpl in K1.
  pose proof (close_rings_keeps (snd p) s1) as K2.
  destruct (close_rings (snd p) s1) as [i s2]; simpl in K2.
  destruct (forallb _ _); [|discriminate].
  intros H; injection H as _ <-.
  destruct (polygon_eqb _ _); eapply keeps_trans; eauto; eapply keeps_trans; eauto with cleanup.
Qed.

Lemma normalize_parts_keeps ps s ps' s' :
  normalize_parts ps s = Some (ps', s') -> keeps s s' /\ length ps' = length ps.
Proof.
  revert s ps' s'; induction ps as [|p t IH]; intros s ps' s' H; simpl in H.
  - injection H as <- <-; auto with cleanup.
  - destruct (normalize_polygon p s) as [[p1 s1]|] eqn:E1; [|discriminate].
    destruct (normalize_parts t s1) as [[t1 s2]|] eqn:E2; [|discriminate].
    injection H as <- <-.
    destruct (IH s1 t1 s2 E2) as [K L].
    split; [eapply keeps_trans; [eapply normalize_polygon_keeps; eauto | exact K]|simpl; congruence].
Qed.

Lemma round_value_keeps p v s : keeps s (snd (round_value p v s)).
Proof. unfold round_value; destruct (Qeq_bool _ _); simpl; auto with cleanup. Qed.

Lemma round_point_keeps p q s : keeps s (snd (round_point p q s)).
Proof.
  unfold round_point.
  pose proof (round_value_keeps p (fst q) s) as K1.
  destruct (round_value p (fst q) s) as [x s1]; simpl in K1.
  pose proof (round_value_keeps p (snd q) s1) as K2.
  destruct (round_value p (snd q) s1) as [y s2]; simpl in *.
  eapply keeps_trans; eauto.
Qed.

Lemma round_ring_keeps p r s : keeps s (snd (round_ring p r s)).
Proof.
  revert s; induction r as [|q t IH]; intros s; cbn [round_ring]; [simpl; auto with cleanup|].
  pose proof (round_point_keeps p q s) as K.
  destruct (round_point p q s) as [q' s1]; simpl in K.
  specialize (IH s1); destruct (round_ring p t s1) as [t' s2]; simpl in *.
  eapply keeps_trans; eauto.
Qed.

Lemma round_rings_keeps p rs s : keeps s (snd (round_rings p rs s)).
Proof.
  revert s; induction rs as [|r t IH]; intros s; cbn [round_rings]; [simpl; auto with cleanup|].
  pose proof (round_ring_keeps p r s) as K.
  destruct (round_ring p r s) as [r' s1]; simpl in K.
  specialize (IH s1); destruct (round_rings p t s1) as [t' s2]; simpl in *.
  eapply keeps_trans; eauto.
Qed.

Lemma round_polygon_keeps p q s : keeps s (snd (round_polygon p q s)).
Proof.
  unfold round_polygon.
  pose proof (round_ring_keeps p (fst q) s) as K1.
  destruct (round_ring p (fst q) s) as [e s1]; simpl in K1.
  pose proof (round_rings_keeps p (snd q) s1) as K2.
  destruct (round_rings p (snd q) s1) as [i s2]; simpl in *.
  eapply keeps_trans; eauto.
Qed.

Definition is_polygon (g : Geometry) : bool :=
  match g with Polygon _ _ => true | _ => false end.

(** On polygon candidates, the loop keeps or drops each one, and keeps
    only non-empty polygons. *)
Lemma clean_candidates_count p cs s out s' :
  forallb is_polygon cs = true ->
  clean_candidates p cs s = (out, s') ->
  (length out + (empty_features_dropped s' - empty_features_dropped s) = length cs)%nat
  /\ (empty_features_dropped s <= empty_features_dropped s')%nat
  /\ multipolygons_exploded s' = multipolygons_exploded s
  /\ Forall (fun g => is_polygon g = true /\ is_empty g = false) out.
Proof.
  revert s out; induction cs as [|c t IH]; intros s out Hp H; simpl in H.
  - injection H as <- <-; simpl; repeat split; [lia|lia|constructor].
  - simpl in Hp; apply andb_prop in Hp as [Hc Ht].
    destruct (is_empty c) eqn:Ec.
    + destruct (IH _ _ Ht H) as (L & D & X & F); simpl in *.
      repeat split; [lia|lia|exact X|exact F].
    + destruct c as [e i| |]; try discriminate.
      simpl in H.
      pose proof (round_polygon_keeps p (e, i) s) as [K1 K2].
      destruct (round_polygon p (e, i) s) as [[e' i'] s1]; simpl in K1, K2.
      destruct (is_empty (Polygon e' i')) eqn:Er.
      * destruct (IH _ _ Ht H) as (L & D & X & F); simpl in *.
        repeat split; [lia|lia|congruence|exact F].
      * destruct (clean_candidates p t s1) as [rest s2] eqn:Et.
        injection H as <- <-.
        destruct (IH _ _ Ht Et) as (L & D & X & F); simpl.
        repeat split; [lia|lia|congruence|constructor; [split; [reflexivity|exact Er]|exact F]].
Qed.

Lemma forallb_is_polygon_map (ps : list PolygonData) :
  forallb is_polygon (map (fun p => Polygon (fst p) (snd p)) ps) = true.
Proof. induction ps; simpl; auto. Qed.

End ImporterFacts.

Module ImporterClaims.
Import Importer ImporterExamples ImporterFacts.
Local Open Scope list_scope.

(** C8.  Cleaning a geometry that [make_valid] turns into a multipolygon
    of [M] parts (a valid multipolygon of [N] parts comes back unchanged,
    so [M = N]) explodes it into the normalized parts, of which it keeps
    the non-empty polygons after rounding and drops the rest: the kept
    polygons and the dropped tally's increase add up to [M], and the
    [multipolygons_exploded] tally increases by [M - 1]. *)
Theorem clean_geometry_explodes (make_valid : Geometry -> Geometry) (g : Geometry)
    (parts : list PolygonData) (s : CleanupSummary) (precision : nat)
    (out : list Geometry) (s' : CleanupSummary) :
  make_valid g = MultiPolygon parts ->
  clean_geometry make_valid (Some g) s precision = Some (out, s') ->
  multipolygons_exploded s' = (multipolygons_exploded s + (length parts - 1))%nat
  /\ (length out + (empty_features_dropped s' - empty_features_dropped s) = length parts)%nat
  /\ (empty_features_dropped s <= empty_features_dropped s')%nat
  /\ Forall (fun g => is_polygon g = true /\ is_empty g = false) out.
Proof.
  intros Hm Hc.
  unfold clean_geometry in Hc; rewrite Hm in Hc; simpl in Hc.
  destruct (normalize_parts parts s) as [[ps s1]|] eqn:En; [|discriminate].
  destruct (normalize_parts_keeps _ _ _ _ En) as [[X D] L].
  injection Hc as Hc.
  destruct (clean_candidates_count _ _ _ _ _ (forallb_is_polygon_map ps) Hc) as (L' & D' & X' & F).
  rewrite length_map in L'; simpl in D', X', L'.
  unfold keeps in *.
  cbv [PolygonData Ring Point] in *.
  repeat split; [lia|lia|lia|exact F].
Qed.

(** Two disjoint squares, which the stand-in returns unchanged. *)
Lemma clean_geometry_explodes_witness :
  exists out s',
    clean_geometry make_valid_example (Some two_squares) empty_summary 7 = Some (out, s')
    /\ multipolygons_exploded s' = (multipolygons_exploded empty_summary + (2 - 1))%nat
    /\ (length out + (empty_features_dropped s' - empty_features_dropped empty_summary) = 2)%nat
    /\ (empty_features_dropped empty_summary <= empty_features_dropped s')%nat
    /\ Forall (fun g => is_polygon g = true /\ is_empty g = false) out.
Proof.
  destruct (clean_geometry make_valid_example (Some two_squares) empty_summary 7) as [[out s']|] eqn:E.
  - exists out, s'; split; [reflexivity|].
    exact (clean_geometry_explodes make_valid_example two_squares [square 0 0; square 2 0]
             empty_summary 7 out s' ltac:(vm_compute; reflexivity) E).
  - vm_compute in E; discriminate.
Defined.

(** The same square twice: [make_valid] dissolves the two parts, so the
    cleaning returns one polygon, drops nothing and counts no explosion,
    where a count over the two input parts gives two polygons and one
    explosion. *)
Lemma clean_geometry_doubled_square :
  exists out s',
    clean_geometry make_valid_example (Some doubled_square) empty_summary 7 = Some (out, s')
    /\ length out = 1%nat
    /\ empty_features_dropped s' = 0%nat
    /\ multipolygons_exploded s' = 0%nat.
Proof.
  eexists; eexists; split; [vm_compute; reflexivity|].
  vm_compute; repeat split.
Defined.

End ImporterClaims.

Module ValidatorCheckNames.
Import Chars Py Uuid Shapely Validator ValidatorFacts.
Local Open Scope string_scope.
Local Open Scope list_scope.

(** Check names no pass of [validate_feature_collection] emits: five of
    the six named checks. *)
Definition UNEMITTED : list string :=
  ["unique_uuids"; "valid_geometry"; "venue_exists"; "building_exists"; "display_points_valid"].

Ltac nd2 :=
  repeat (cbn [fst snd] in *;
    match goal with
    | |- Forall _ [] => constructor
    | |- Forall _ (_ ++ _) => apply Forall_app; split
    | |- Forall _ (_ :: _) =>
        constructor; [cbv beta; unfold UNEMITTED;
                      repeat (apply Forall_cons; [check_neq|]); apply Forall_nil|]
    | |- Forall _ (flat_map _ _) => apply Forall_flat_map; intros ? _
    | |- Forall _ ((fun _ => _) _) => cbv beta
    | |- Forall _ (let '(_, _) := ?p in _) => destruct p
    | |- Forall _ (let _ := _ in _) => cbv zeta
    | |- context [if ?b then _ else _] => destruct b
    | |- context [match ?x with _ => _ end] => destruct x
    end).

Section S.
Context `{SH : Shapely}.
Variable set_order : list string -> list string.

Definition Q7 (i : ValidationIssue) : Prop := Forall (fun c => check i <> c) UNEMITTED.

Lemma q_required bt : Forall Q7 (required_issues bt).
Proof. unfold required_issues, Q7. nd2. Qed.

Lemma q_ids rows : Forall Q7 (id_issues rows).
Proof. unfold id_issues, Q7. nd2. Qed.

Lemma q_geometry_row gs r : Forall Q7 (fst (geometry_row gs r)).
Proof. unfold geometry_row, Q7. nd2. Qed.

Lemma q_fold {St} (f : St -> Row -> list ValidationIssue * St) (rows : list Row) acc :
  (forall st r, Forall Q7 (fst (f st r))) -> Forall Q7 (fst acc) ->
  Forall Q7 (fst (fold_left (fun acc row => let '(is, st') := f (snd acc) row in (fst acc ++ is, st')) rows acc)).
Proof.
  intros Hf. revert acc. induction rows as [|r rows IH]; intros acc Hacc; simpl; [exact Hacc|].
  apply IH. specialize (Hf (snd acc) r). destruct (f (snd acc) r) as [is st'] eqn:E.
  simpl. apply Forall_app; split; [exact Hacc | exact Hf].
Qed.

Lemma q_geometry_pass rows : Forall Q7 (fst (geometry_pass rows)).
Proof. unfold geometry_pass. apply q_fold; [apply q_geometry_row | constructor]. Qed.

Lemma q_building_ids kind props bids fid : Forall Q7 (building_ids_issues kind props bids fid).
Proof. unfold building_ids_issues, Q7. nd2. Qed.

Lemma q_row_checks lids bids aids gs u r : Forall Q7 (fst (row_checks lids bids aids gs u r)).
Proof.
  unfold row_checks. cbv zeta. cbn [fst].
  unfold Q7; nd2; apply q_building_ids.
Qed.

Lemma q_row_checks_pass lids bids aids gs rows : Forall Q7 (fst (row_checks_pass lids bids aids gs rows)).
Proof. unfold row_checks_pass. apply q_fold; [intros; apply q_row_checks | constructor]. Qed.

Lemma q_unit_level lids gs u : Forall Q7 (unit_level_issues lids gs u).
Proof. unfold unit_level_issues, Q7. nd2. Qed.

Lemma q_venue_footprint by_id gs : Forall Q7 (venue_footprint_issues by_id gs).
Proof. unfold venue_footprint_issues, Q7. nd2. Qed.

Lemma q_opening_detail lids gs u r : Forall Q7 (opening_detail_row lids gs u r).
Proof. unfold opening_detail_row, Q7. nd2. Qed.

Lemma q_level_issues rows lids u : Forall Q7 (level_issues set_order rows lids u).
Proof. unfold level_issues, Q7. nd2. Qed.

Lemma q_duplicates rows gs : Forall Q7 (duplicate_pass rows gs).
Proof.
  rewrite duplicate_pass_expected.
  generalize (duplicate_expected_shape gs [] rows).
  apply Forall_impl. intros i [Hc _]. unfold Q7, UNEMITTED; rewrite Hc.
  repeat constructor; discriminate.
Qed.

Lemma q_validation_log fc : Forall Q7 (validation_log set_order fc).
Proof.
  unfold validation_log.
  pose proof (q_geometry_pass (rows_of fc)) as G.
  destruct (geometry_pass (rows_of fc)) as [log3 gs]; cbn [fst] in G.
  match goal with |- context [row_checks_pass ?a ?b ?c ?d ?e] =>
    pose proof (q_row_checks_pass a b c d e) as R; destruct (row_checks_pass a b c d e) as [log4 u] end.
  cbn [fst] in R.
  apply Forall_app; split; [apply q_required|].
  apply Forall_app; split; [apply q_ids|].
  apply Forall_app; split; [exact G|].
  apply Forall_app; split; [exact R|].
  apply Forall_app; split; [apply q_unit_level|].
  apply Forall_app; split; [apply q_duplicates|].
  apply Forall_app; split; [apply q_venue_footprint|].
  apply Forall_app; split; [apply Forall_flat_map; intros; apply q_opening_detail|].
  apply q_level_issues.
Qed.

Lemma q_errors_warnings fc :
  Forall Q7 (errors (validate_feature_collection set_order fc) ++ warnings (validate_feature_collection set_order fc)).
Proof.
  pose proof (q_validation_log fc) as H.
  unfold validate_feature_collection; cbn [errors warnings].
  apply Forall_app; split; rewrite Forall_forall in *; intros x Hx; apply filter_In in Hx; apply H, Hx.
Qed.

End S.

Lemma in_insert_sorted x y l : In x (insert_sorted y l) -> x = y \/ In x l.
Proof.
  induction l as [|z l IH]; simpl; [intros [<-|[]]; now left|].
  destruct (String.eqb y z); [intros H; now right|].
  destruct (str_lt y z); simpl; [intros [<-|H]; [now left|now right]|].
  intros [<-|H]; [right; now left|]. destruct (IH H) as [E|E]; [now left|right; now right].
Qed.

Lemma in_sorted_set x l : In x (sorted_set l) -> In x l.
Proof.
  induction l as [|y l IH]; simpl; [tauto|].
  intros H; destruct (in_insert_sorted _ _ _ H) as [E|E]; [now left|right; now apply IH].
Qed.

Lemma insert_sorted_in x y l : x = y \/ In x l -> In x (insert_sorted y l).
Proof.
  induction l as [|z l IH]; simpl; intros H.
  - destruct H as [<-|[]]; now left.
  - destruct (String.eqb y z) eqn:E.
    + apply String.eqb_eq in E; subst z. destruct H as [<-|H]; [now left|exact H].
    + destruct (str_lt y z).
      * destruct H as [<-|H]; [now left|right; exact H].
      * destruct H as [<-|[<-|H]]; [right; apply IH; now left|now left|right; apply IH; now right].
Qed.

Lemma sorted_set_in x l : In x l -> In x (sorted_set l).
Proof.
  induction l as [|y l IH]; simpl; [tauto|].
  intros [<-|H]; apply insert_sorted_in; [now left|right; apply IH, H].
Qed.

Lemma smem_true x l : smem x l = true -> In x l.
Proof.
  unfold smem; rewrite existsb_exists. intros [y [Hy E]]. apply String.eqb_eq in E; now subst.
Qed.

Lemma smem_in x l : In x l -> smem x l = true.
Proof.
  unfold smem; rewrite existsb_exists. intros H; exists x; split; [exact H|apply String.eqb_refl].
Qed.

(** [Counter] counts: the count of [k] after adding [l] to [d]. *)
Lemma counter_fold k l d :
  get k (fold_left (fun d k => set k (S (match get k d with Some n => n | None => O end)) d) l d)
  = let c := List.length (filter (String.eqb k) l) in
    match get k d with
    | Some n => Some (n + c)%nat
    | None => if (c =? 0)%nat then None else Some c
    end.
Proof.
  revert d; induction l as [|x l IH]; intros d; cbn [fold_left filter].
  - destruct (get k d); [now rewrite Nat.add_0_r|reflexivity].
  - rewrite IH. destruct (String.eqb k x) eqn:E.
    + apply String.eqb_eq in E; subst x. rewrite AutofixFacts.get_set_same.
      destruct (get k d); simpl; [f_equal; lia|reflexivity].
    + rewrite AutofixFacts.get_set_other by (apply String.eqb_neq; exact E). reflexivity.
Qed.

End ValidatorCheckNames.

Module ValidatorExtras.
Import Chars Py Uuid Shapely Validator ValidatorFacts ValidatorCheckNames.
Local Open Scope string_scope.
Local Open Scope list_scope.

(** The named checks [unique_uuids], [valid_geometry], [venue_exists],
    [building_exists] and [display_points_valid] are in [passed] for
    every collection, whatever its errors: no pass emits an issue under
    these names.  [labels_format_valid] is in [passed] exactly when no
    issue has that check. *)
Theorem validation_passed_named_checks `{SH : Shapely} (set_order : list string -> list string) (fc : dict pyval) :
  let v := validate_feature_collection set_order fc in
  (forall c, In c ["unique_uuids"; "valid_geometry"; "venue_exists"; "building_exists"; "display_points_valid"] ->
             In c (passed v))
  /\ (In "labels_format_valid" (passed v) <->
      ~ exists i, In i (errors v ++ warnings v) /\ check i = "labels_format_valid").
Proof.
  intros v.
  pose proof (q_errors_warnings set_order fc) as Q; fold v in Q.
  assert (Hp : passed v = filter (fun c => negb (smem c (sorted_set (map check (errors v ++ warnings v))))) NAMED_CHECKS)
    by reflexivity.
  assert (Hnot : forall c, In c UNEMITTED -> smem c (sorted_set (map check (errors v ++ warnings v))) = false).
  { intros c Hc. destruct (smem c _) eqn:E; [|reflexivity]. exfalso.
    apply smem_true, in_sorted_set, in_map_iff in E as [i [Ei Hi]].
    rewrite Forall_forall in Q. specialize (Q i Hi). unfold Q7 in Q. rewrite Forall_forall in Q.
    exact (Q c Hc Ei). }
  split.
  - intros c Hc. rewrite Hp. apply filter_In; split.
    + unfold NAMED_CHECKS; simpl in *; tauto.
    + rewrite Hnot; [reflexivity|]. exact Hc.
  - rewrite Hp, filter_In. split.
    + intros [_ H] [i [Hi Ei]]. apply negb_true_iff in H.
      rewrite smem_in in H; [discriminate|].
      apply sorted_set_in, in_map_iff. exists i; split; [exact Ei|exact Hi].
    + intros H; split; [unfold NAMED_CHECKS; simpl; tauto|].
      apply negb_true_iff. destruct (smem _ _) eqn:E; [|reflexivity]. exfalso; apply H.
      apply smem_true, in_sorted_set, in_map_iff in E as [i [Ei Hi]]. exists i; split; assumption.
Qed.

End ValidatorExtras.

Module ValidatorExtraFacts.
Import Chars Py Shapely Validator AutofixFacts.
Local Open Scope string_scope.
Local Open Scope list_scope.

Lemma length_filter_map {A B} (f : B -> bool) (g : A -> B) (l : list A) :
  List.length (filter f (map g l)) = List.length (filter (fun x => f (g x)) l).
Proof. induction l as [|x l IH]; simpl; [reflexivity|]. destruct (f (g x)); simpl; auto. Qed.

Lemma nth_error_map_some {A B} (f : A -> B) (l : list A) i x :
  nth_error l i = Some x -> nth_error (map f l) i = Some (f x).
Proof. intros H; rewrite nth_error_map, H; reflexivity. Qed.

Lemma props_of_set_properties r p : props_of (set "properties" (PDict p) r) = p.
Proof. unfold props_of; now rewrite get_set_same. Qed.

Lemma existsb_filter_error (f : string) (issues : list ValidationIssue) :
  existsb is_error (filter (fun i => match feature_id i with Some g => String.eqb f g | None => false end) issues) = true
  <-> exists iss, In iss issues /\ feature_id iss = Some f /\ severity iss = "error".
Proof.
  rewrite existsb_exists. split.
  - intros [iss [Hin He]]. apply filter_In in Hin as [Hin Hf].
    destruct (feature_id iss) as [g|] eqn:Eg; [|discriminate].
    apply String.eqb_eq in Hf; subst g. apply String.eqb_eq in He.
    exists iss; repeat split; assumption.
  - intros [iss [Hin [Hf He]]]. exists iss; split.
    + apply filter_In; split; [exact Hin|]. rewrite Hf. apply String.eqb_refl.
    + unfold is_error. rewrite He. reflexivity.
Qed.

End ValidatorExtraFacts.

Module ValidatorExtras2.
Import Chars Py Shapely Validator ValidatorCheckNames ValidatorExtraFacts AutofixFacts.
Local Open Scope string_scope.
Local Open Scope list_scope.

(** [summary.by_type] counts the dictionary features of each type: a type
    with [n > 0] features maps to [n], a type with none is absent. *)
Theorem validation_by_type_counts `{SH : Shapely} (set_order : list string -> list string)
    (fc : dict pyval) (t : string) :
  get t (by_type (summary (validate_feature_collection set_order fc)))
  = let n := List.length (filter (fun r => String.eqb t (feature_type_of r)) (rows_of fc)) in
    if (n =? 0)%nat then None else Some n.
Proof.
  cbn [summary by_type validate_feature_collection]. unfold counter.
  rewrite counter_fold. cbn [get]. now rewrite length_filter_map.
Qed.

(** A collection with no dictionary feature (no [features] key, a
    [features] value that is not a list, or a list without dictionaries)
    validates with exactly the two errors [missing_venue] and
    [missing_building], no warning, all six named checks passed and a zero
    feature total, given that iterating the empty set of level ids visits
    nothing. *)
Theorem validation_of_empty_collection `{SH : Shapely} (set_order : list string -> list string)
    (fc : dict pyval) :
  set_order [] = [] ->
  rows_of fc = [] ->
  let v := validate_feature_collection set_order fc in
  errors v = [err "missing_venue" "Missing required 'venue' feature." None;
              err "missing_building" "Missing required 'building' feature." None]
  /\ warnings v = [] /\ passed v = NAMED_CHECKS
  /\ total_features (summary v) = 0%nat /\ error_count (summary v) = 2%nat.
Proof.
  intros Hs Hr v. unfold v, validate_feature_collection, validation_log. rewrite Hr.
  cbn. rewrite Hs. cbn. repeat split; reflexivity.
Qed.

Lemma validation_of_empty_collection_witness :
  let v := @validate_feature_collection PayloadGeometry.payload_shapely (fun l => l) [] in
  errors v = [err "missing_venue" "Missing required 'venue' feature." None;
              err "missing_building" "Missing required 'building' feature." None]
  /\ warnings v = [] /\ passed v = NAMED_CHECKS
  /\ total_features (summary v) = 0%nat /\ error_count (summary v) = 2%nat.
Proof.
  exact (validation_of_empty_collection (SH := PayloadGeometry.payload_shapely) (fun l => l) []
           eq_refl eq_refl).
Defined.

(** [annotate_feature_collection_with_validation] leaves a collection
    whose [features] is not a list as it is; otherwise it keeps every other
    key of the collection and the number and order of the features, leaves
    a feature that is not a dictionary as it is, and on a dictionary
    feature changes only [properties], where it keeps every property but
    [status] and [issues] and sets [status] to [error] exactly when some
    issue of the validation with severity [error] names the feature's id. *)
Theorem annotate_keeps_features (fc : dict pyval) (v : ValidationResponse) :
  let out := annotate_feature_collection_with_validation fc v in
  match get "features" fc with
  | Some (PList l) =>
      (forall k, k <> "features" -> get k out = get k fc)
      /\ exists l', get "features" out = Some (PList l') /\ List.length l' = List.length l
      /\ forall i x, nth_error l i = Some x ->
           exists x', nth_error l' i = Some x'
           /\ match x with
              | PDict r =>
                  exists r', x' = PDict r'
                  /\ (forall k, k <> "properties" -> get k r' = get k r)
                  /\ (forall k, k <> "status" -> k <> "issues" -> get k (props_of r') = get k (props_of r))
                  /\ (get "status" (props_of r') = Some (PStr "error") <->
                      exists f iss, feature_id_of r = Some f /\ In iss (errors v ++ warnings v)
                                    /\ feature_id iss = Some f /\ severity iss = "error")
              | _ => x' = x
              end
  | _ => out = fc
  end.
Proof.
  intros out. unfold out, annotate_feature_collection_with_validation.
  destruct (get "features" fc) as [[| | | | | l |]|] eqn:Ef; try reflexivity.
  split.
  { intros k Hk. now rewrite get_set_other. }
  exists (map (annotate_row (errors v ++ warnings v)) l). split; [apply get_set_same|].
  split; [apply length_map|].
  intros i x Hx. exists (annotate_row (errors v ++ warnings v) x). split; [now apply nth_error_map_some|].
  destruct x as [| | | | | | r]; try reflexivity.
  cbn [annotate_row].
  eexists; split; [reflexivity|].
  split; [intros k Hk; now rewrite get_set_other|].
  rewrite props_of_set_properties.
  split; [intros k H1 H2; rewrite !get_set_other; auto|].
  rewrite get_set_other by discriminate. rewrite get_set_same.
  destruct (feature_id_of r) as [f|] eqn:Efid.
  - transitivity (existsb is_error (filter (fun i => match feature_id i with
                                                   | Some g => String.eqb f g
                                                   | None => false end) (errors v ++ warnings v)) = true).
    + destruct (existsb is_error _); [split; reflexivity|].
      split; [|discriminate]. intros H; exfalso; revert H.
      destruct (existsb _ _); [discriminate|].
      destruct (get "category" (props_of r)) as [[| | | | s | |]|]; try discriminate.
      destruct (String.eqb _ _); discriminate.
    + rewrite existsb_filter_error. split.
      * intros [iss H]. exists f, iss. split; [reflexivity|exact H].
      * intros [f' [iss [Hf' H]]]. injection Hf' as <-. exists iss; exact H.
  - split.
    + cbn [filter existsb].
      destruct (get "category" (props_of r)) as [[| | | | s | |]|]; try discriminate.
      destruct (String.eqb _ _); discriminate.
    + intros [f' [iss [Hf' _]]]; discriminate.
Qed.



End ValidatorExtras2.

Module AutofixExtraFacts.
Import Chars Py Uuid Validator Autofix AutofixFacts AutofixChecks.
Local Open Scope string_scope.
Local Open Scope list_scope.

Section Effects.
Variable draw : nat -> string.
Variable make_valid_mapping : dict pyval -> option pyval.

Lemma id_pass_length fuel n seen rows rs fx :
  id_pass draw fuel n seen rows = Some (rs, fx) ->
  List.length rs = List.length rows /\ Forall (fun f => In (applied_check f) SAFE_CHECKS) fx.
Proof.
  revert n seen rs fx. induction rows as [|row t IH]; intros n seen rs fx H; cbn [id_pass] in H.
  - injection H as <- <-. split; [reflexivity|constructor].
  - assert (Hskip : match id_pass draw fuel n seen t with
                    | Some (rs0, fx0) => Some (row :: rs0, fx0) | None => None end = Some (rs, fx) ->
                    List.length rs = S (List.length t) /\ Forall (fun f => In (applied_check f) SAFE_CHECKS) fx).
    { destruct (id_pass draw fuel n seen t) as [[rs0 fx0]|] eqn:E; intros H'; [|discriminate].
      injection H' as <- <-. destruct (IH _ _ _ _ E). split; [cbn; lia|assumption]. }
    destruct row as [| | | | | |d]; try exact (Hskip H).
    destruct (get "id" d) as [[| | | | fid | |]|]; try exact (Hskip H).
    destruct (looks_like_uuid fid && negb (smem fid seen))%bool.
    + destruct (id_pass draw fuel n (fid :: seen) t) as [[rs0 fx0]|] eqn:E; [|discriminate].
      injection H as <- <-. destruct (IH _ _ _ _ E). split; [cbn; lia|assumption].
    + destruct (draw_fresh draw fuel n seen) as [[new_id n']|]; [|discriminate].
      destruct (id_pass draw fuel n' (new_id :: seen) t) as [[rs0 fx0]|] eqn:E; [|discriminate].
      injection H as <- <-. destruct (IH _ _ _ _ E). split; [cbn; lia|].
      constructor; [cbn; left; reflexivity|assumption].
Qed.

Lemma safe_fix_checks by_id acc issue :
  Forall (fun f => In (applied_check f) SAFE_CHECKS) (snd acc) ->
  Forall (fun f => In (applied_check f) SAFE_CHECKS) (snd (safe_fix make_valid_mapping by_id acc issue)).
Proof.
  destruct acc as [rows fx]. intros H. unfold safe_fix.
  destruct (truthy_id (feature_id issue)) as [fid|]; [|exact H].
  destruct (get fid by_id) as [i|]; [|exact H].
  destruct (nth_error rows i) as [[| | | | | |[|kv row]]|]; try exact H.
  destruct (String.eqb (check issue) "invalid_geometry").
  - destruct (get "geometry" (kv :: row)) as [[| | | | | |g]|]; try exact H.
    destruct (make_valid_mapping g); [|exact H].
    cbn [snd]. apply Forall_app; split; [exact H|]. apply Forall_cons; [cbn; right; left; reflexivity|apply Forall_nil].
  - destruct (String.eqb (check issue) "excessive_precision"); [|exact H].
    destruct (get "geometry" (kv :: row)) as [[| | | | | |g]|]; try exact H.
    cbn [snd]. apply Forall_app; split; [exact H|]. apply Forall_cons; [cbn; right; right; left; reflexivity|apply Forall_nil].
Qed.

Lemma safe_fixes_checks by_id issues acc :
  Forall (fun f => In (applied_check f) SAFE_CHECKS) (snd acc) ->
  Forall (fun f => In (applied_check f) SAFE_CHECKS) (snd (fold_left (safe_fix make_valid_mapping by_id) issues acc)).
Proof.
  revert acc. induction issues as [|i issues IH]; intros acc H; [exact H|].
  apply IH. now apply safe_fix_checks.
Qed.

Lemma map_length_eq {A B} (f : A -> B) l1 l2 : map f l1 = map f l2 -> List.length l1 = List.length l2.
Proof. intros H. rewrite <- (length_map f l1), <- (length_map f l2), H. reflexivity. Qed.

End Effects.
End AutofixExtraFacts.

Module AutofixExtras.
Import Chars Py Uuid Validator Autofix AutofixFacts AutofixChecks AutofixExtraFacts AutofixExamples.
Local Open Scope string_scope.
Local Open Scope list_scope.

(** Without [apply_prompted], [apply_autofix] deletes nothing: every key
    but [features] is kept, a [features] list keeps its length, a
    collection whose [features] is missing or not a list comes back as it
    is, and every applied fix is a regenerated UUID, a [make_valid] repair
    or a coordinate rounding. *)
Theorem autofix_unprompted_keeps_features (draw : nat -> string) (make_valid_mapping : dict pyval -> option pyval)
    (fuel : nat) (fc : dict pyval) (v : ValidationResponse) (out : dict pyval) fixes prompts :
  apply_autofix draw make_valid_mapping fuel fc v false = Some (out, fixes, prompts) ->
  (forall k, k <> "features" -> get k out = get k fc)
  /\ match get "features" fc with
     | Some (PList l) => exists l', get "features" out = Some (PList l') /\ List.length l' = List.length l
     | _ => out = fc
     end
  /\ Forall (fun f => In (applied_check f) SAFE_CHECKS) fixes.
Proof.
  intros Hrun. unfold apply_autofix in Hrun.
  destruct (get "features" fc) as [[| | | | | l |]|] eqn:F;
    try (injection Hrun as <- <- _; split; [reflexivity|split; [reflexivity|constructor]]).
  - destruct (id_pass draw fuel 0 [] l) as [[rows1 fx1]|] eqn:I; [|discriminate].
    destruct (id_pass_length draw fuel 0 [] l rows1 fx1 I) as [Hlen Hfx1].
    destruct (fold_left (safe_fix make_valid_mapping (index_by_id rows1)) (errors v ++ warnings v) (rows1, fx1))
      as [rows2 fx2] eqn:S.
    injection Hrun as <- <- _. split; [|split].
    + intros k Hk. now apply get_set_other.
    + exists rows2. rewrite get_set_same. split; [reflexivity|].
      rewrite <- Hlen. apply (map_length_eq id_shape_of).
      change rows2 with (fst (rows2, fx2)). rewrite <- S. apply safe_fixes_shape.
    + change fx2 with (snd (rows2, fx2)). rewrite <- S. now apply safe_fixes_checks.
  - cbn [id_pass] in Hrun. cbv beta iota zeta in Hrun.
    destruct (fold_left (safe_fix make_valid_mapping (index_by_id [])) (errors v ++ warnings v) ([], []))
      as [rows2 fx2] eqn:S.
    injection Hrun as <- <- _. split; [reflexivity|split; [reflexivity|]].
    change fx2 with (snd (rows2, fx2)). rewrite <- S. apply safe_fixes_checks. constructor.
Qed.

Lemma autofix_unprompted_keeps_features_witness :
  let v := @validate_feature_collection PayloadGeometry.payload_shapely (fun l => l) three_units in
  match apply_autofix draws repair_identity 100 three_units v false with
  | Some (out, fixes, prompts) =>
      (forall k, k <> "features" -> get k out = get k three_units)
      /\ (exists l', get "features" out = Some (PList l') /\ List.length l' = List.length three_units_rows)
      /\ Forall (fun f => In (applied_check f) SAFE_CHECKS) fixes
  | None => False
  end.
Proof.
  intros v.
  destruct (apply_autofix draws repair_identity 100 three_units v false) as [[[out fixes] prompts]|] eqn:R;
    [|vm_compute in R; discriminate].
  destruct (autofix_unprompted_keeps_features draws repair_identity 100 three_units v out fixes prompts R)
    as [H1 [H2 H3]].
  split; [exact H1|split; [|exact H3]].
  exact H2.
Defined.

End AutofixExtras.

Module DetectorTypesFacts.
Import Chars Schemas Py Detector DetectorTypes AutofixFacts.
Local Open Scope string_scope.
Local Open Scope list_scope.

Definition kw_pairs (keywords : Keywords) : list (string * string) :=
  flat_map (fun '(ft, vals) => map (fun kw => (ft, kw)) vals) keywords.

Lemma in_kw_pairs keywords ft kw :
  In (ft, kw) (kw_pairs keywords) <-> exists vals, In (ft, vals) keywords /\ In kw vals.
Proof.
  unfold kw_pairs. rewrite in_flat_map. split.
  - intros [[ft' vals] [Hin Hm]]. apply in_map_iff in Hm as [kw' [E Hkw]]. injection E as <- <-.
    exists vals; split; assumption.
  - intros [vals [Hin Hkw]]. exists (ft, vals). split; [exact Hin|]. apply in_map_iff. exists kw; split; auto.
Qed.

Lemma fold_left_map' {A B C} (f : A -> C -> A) (g : B -> C) l b :
  fold_left f (map g l) b = fold_left (fun a x => f a (g x)) l b.
Proof. revert b; induction l as [|x l IH]; intros b; [reflexivity|apply IH]. Qed.

Lemma best_fold_pairs lowered keywords b :
  fold_left (fun best '(ft, values) => fold_left (best_step lowered ft) values best) keywords b
  = fold_left (fun b p => best_step lowered (fst p) b (snd p)) (kw_pairs keywords) b.
Proof.
  revert b. induction keywords as [|[ft vals] t IH]; intros b; [reflexivity|].
  cbn [fold_left kw_pairs flat_map]. rewrite IH. unfold kw_pairs. rewrite fold_left_app.
  f_equal. rewrite fold_left_map'. reflexivity.
Qed.

Lemma best_fold_spec lowered (pairs : list (string * string)) b :
  let r := fold_left (fun b p => best_step lowered (fst p) b (snd p)) pairs b in
  (r = None <-> b = None /\ forall p, In p pairs -> contains (snd p) lowered = false)
  /\ forall ft n, r = Some (ft, n) ->
       (b = Some (ft, n) \/ exists kw, In (ft, kw) pairs /\ contains kw lowered = true /\ String.length kw = n)
       /\ (forall p, In p pairs -> contains (snd p) lowered = true -> (String.length (snd p) <= n)%nat)
       /\ (forall ft0 n0, b = Some (ft0, n0) -> (n0 <= n)%nat).
Proof.
  revert b. induction pairs as [|[ft kw] t IH]; intros b; cbv zeta.
  - cbn [fold_left]. split; [split; [intros ->; split; [reflexivity|intros _ []]|intros [-> _]; reflexivity]|].
    intros ft n Hr. subst b. split; [left; reflexivity|].
    split; [intros _ []|intros ft0 n0 E; injection E as _ <-; lia].
  - cbn [fold_left fst snd]. destruct (IH (best_step lowered ft b kw)) as [IHn IHs].
    split.
    + rewrite IHn. unfold best_step. split.
      * intros [Hb Hall]. destruct (contains kw lowered) eqn:C.
        { destruct b as [[? ?]|]; [destruct (_ <? _)%nat|]; discriminate. }
        split; [exact Hb|]. intros p [<-|Hp]; [exact C|auto].
      * intros [-> Hall]. pose proof (Hall (ft, kw) (or_introl eq_refl)) as Hc. cbn [snd] in Hc. rewrite Hc.
        split; [reflexivity|]. intros p Hp; apply Hall; right; exact Hp.
    + intros ft' n Hr. destruct (IHs ft' n Hr) as [Horig [Hmax Hb]]. unfold best_step in Horig, Hb.
      destruct (contains kw lowered) eqn:C.
      * assert (Hkn : (String.length kw <= n)%nat).
        { destruct b as [[f0 l0]|].
          - destruct (l0 <? String.length kw)%nat eqn:L.
            + exact (Hb _ _ eq_refl).
            + apply Nat.ltb_ge in L. specialize (Hb _ _ eq_refl). lia.
          - exact (Hb _ _ eq_refl). }
        split; [|split].
        -- destruct Horig as [E|[kw' [Hin Hk]]].
           ++ destruct b as [[f0 l0]|].
              ** destruct (l0 <? String.length kw)%nat.
                 --- injection E as <- <-. right. exists kw. split; [left; reflexivity|split; auto].
                 --- left; exact E.
              ** injection E as <- <-. right. exists kw. split; [left; reflexivity|split; auto].
           ++ right. exists kw'. split; [right; exact Hin|exact Hk].
        -- intros p [<-|Hp] Hc; [exact Hkn|auto].
        -- intros f0 n0 ->. destruct (n0 <? String.length kw)%nat eqn:L.
           ++ apply Nat.ltb_lt in L. lia.
           ++ exact (Hb _ _ eq_refl).
      * split; [|split].
        -- destruct Horig as [E|[kw' [Hin Hk]]]; [left; exact E|right; exists kw'; split; [right; exact Hin|exact Hk]].
        -- intros p [<-|Hp] Hc; [cbn in Hc; congruence|auto].
        -- exact Hb.
Qed.

Lemma get_in {A} k (v : A) d : get k d = Some v -> In (k, v) d.
Proof.
  induction d as [|[k' v'] t IH]; cbn; [discriminate|].
  destruct (String.eqb_spec k k') as [<-|_]; [intros E; injection E as <-; left; reflexivity|].
  intros H; right; auto.
Qed.

Lemma get_set {A} k k' (v : A) d : get k (set k' v d) = if String.eqb k k' then Some v else get k d.
Proof.
  induction d as [|[k0 v0] t IH]; cbn.
  - destruct (String.eqb k k'); reflexivity.
  - destruct (String.eqb_spec k' k0) as [<-|Hne]; cbn.
    + destruct (String.eqb k k'); reflexivity.
    + rewrite IH. destruct (String.eqb_spec k k') as [->|]; [|reflexivity].
      destruct (String.eqb_spec k' k0); [contradiction|reflexivity].
Qed.

Lemma in_set_add x y s : In x (set_add y s) <-> In x s \/ x = y.
Proof.
  unfold set_add. destruct (smem y s) eqn:M.
  - split; [auto|]. intros [H| ->]; [exact H|].
    unfold smem in M. apply existsb_exists in M as [z [Hz E]]. apply String.eqb_eq in E. subst; exact Hz.
  - rewrite in_app_iff. cbn. intuition.
Qed.

Lemma smem_iff_in x l : smem x l = true <-> In x l.
Proof.
  unfold smem. rewrite existsb_exists. split.
  - intros [y [Hy E]]. apply String.eqb_eq in E; subst; exact Hy.
  - intros H; exists x; split; [exact H|apply String.eqb_refl].
Qed.

Lemma type_or_source_last files s :
  get s (stem_to_type files)
  = match find (fun item => String.eqb (stem item) s) (rev files) with
    | Some item => Some (type_or_source item)
    | None => None
    end.
Proof.
  unfold stem_to_type. rewrite <- fold_left_rev_right.
  induction (rev files) as [|item t IH]; [reflexivity|].
  cbn [fold_right find]. rewrite get_set, IH.
  destruct (String.eqb_spec s (stem item)) as [->|Hne].
  - now rewrite String.eqb_refl.
  - destruct (String.eqb_spec (stem item) s); [congruence|reflexivity].
Qed.

Lemma detect_green_iff stem g keywords :
  snd (detect_feature_type stem g keywords) = "green"
  <-> exists ft vals kw, In (ft, vals) keywords /\ In kw vals /\ contains kw (lower stem) = true.
Proof.
  unfold detect_feature_type. rewrite best_fold_pairs.
  destruct (best_fold_spec (lower stem) (kw_pairs keywords) None) as [Hn Hs]. cbv zeta in Hn, Hs.
  destruct (fold_left _ (kw_pairs keywords) None) as [[ft n]|] eqn:F.
  - split; [intros _|reflexivity].
    destruct (Hs ft n eq_refl) as [[E|[kw [Hin [Hc _]]]] _]; [discriminate|].
    apply in_kw_pairs in Hin as [vals [H1 H2]]. exists ft, vals, kw; auto.
  - destruct Hn as [Hn _]. destruct (Hn eq_refl) as [_ Hall]. split.
    + destruct (contains "polygon" _); [discriminate|]. destruct (contains "linestring" _); discriminate.
    + intros [ft [vals [kw [H1 [H2 H3]]]]].
      assert (Hp : In (ft, kw) (kw_pairs keywords)) by (apply in_kw_pairs; eauto).
      specialize (Hall _ Hp). cbn in Hall. congruence.
Qed.

Lemma merge_members base learned t k :
  In k (kws_of t (merge_learned_keywords base learned))
  <-> In k (kws_of t base) \/ exists kw, In (kw, t) learned /\ In t FEATURE_TYPE_VALUES /\ k = lower kw.
Proof.
  unfold merge_learned_keywords. revert base.
  induction learned as [|[kw ft] rest IH]; intros base; cbn [fold_left].
  - split; [auto|]. intros [H|[kw [[] _]]]; exact H.
  - rewrite IH. unfold kws_of at 1.
    destruct (smem ft FEATURE_TYPE_VALUES) eqn:V.
    + rewrite get_set. destruct (String.eqb_spec t ft) as [<-|Hne].
      * rewrite in_set_add. fold (kws_of t base). split.
        -- intros [[H| ->]|[kw' [H1 H2]]].
           ++ left; exact H.
           ++ right; exists kw; split; [left; reflexivity|split; [apply smem_iff_in; exact V|reflexivity]].
           ++ right; exists kw'; split; [right; exact H1|exact H2].
        -- intros [H|[kw' [[E|H1] H2]]].
           ++ left; left; exact H.
           ++ injection E as <-. left; right; destruct H2 as [_ H2]; exact H2.
           ++ right; exists kw'; split; [exact H1|exact H2].
      * fold (kws_of t base). split.
        -- intros [H|[kw' [H1 H2]]]; [left; exact H|right; exists kw'; split; [right; exact H1|exact H2]].
        -- intros [H|[kw' [[E|H1] H2]]]; [left; exact H| |right; exists kw'; split; [exact H1|exact H2]].
           injection E as _ E. congruence.
    + fold (kws_of t base). split.
      * intros [H|[kw' [H1 H2]]]; [left; exact H|right; exists kw'; split; [right; exact H1|exact H2]].
      * intros [H|[kw' [[E|H1] H2]]]; [left; exact H| |right; exists kw'; split; [exact H1|exact H2]].
        injection E as _ <-. destruct H2 as [H2 _]. apply smem_iff_in in H2. congruence.
Qed.

Lemma set_set_same {A} k (v : A) d : set k v (set k v d) = set k v d.
Proof.
  induction d as [|[k' v'] t IH]; cbn.
  - now rewrite String.eqb_refl.
  - destruct (String.eqb_spec k k') as [->|Hne]; cbn.
    + now rewrite String.eqb_refl.
    + destruct (String.eqb_spec k k'); [contradiction|]. now rewrite IH.
Qed.

Lemma sync_feature_idem m x x' : sync_feature m x = Some x' -> sync_feature m x' = Some x'.
Proof.
  unfold sync_feature. destruct x as [| | | | | |d]; try discriminate.
  destruct (match get "properties" d with Some p => p | None => PDict [] end) as [| | | | | |props] eqn:P;
    try discriminate.
  destruct (get "source_file" props) as [[| | | | s | |]|] eqn:S; try discriminate;
    try (intros E; injection E as <-; rewrite P, S; reflexivity).
  destruct (get s m) as [t|] eqn:G.
  - intros E; injection E as <-. rewrite get_set_other by discriminate. rewrite P, S, G.
    now rewrite set_set_same.
  - intros E; injection E as <-. now rewrite P, S, G.
Qed.

Lemma sync_all_spec m l l' :
  sync_all m l = Some l' ->
  List.length l' = List.length l /\ forall i x, nth_error l i = Some x ->
    exists x', nth_error l' i = Some x' /\ sync_feature m x = Some x'.
Proof.
  revert l'. induction l as [|x t IH]; intros l' H; cbn in H.
  - injection H as <-. split; [reflexivity|intros [|i] x H; discriminate].
  - destruct (sync_feature m x) as [x'|] eqn:Ex; [|discriminate].
    destruct (sync_all m t) as [t'|] eqn:Et; [|discriminate]. injection H as <-.
    destruct (IH t' eq_refl) as [Hl Hn]. split; [cbn; lia|].
    intros [|i] y Hy; cbn in Hy.
    + injection Hy as <-. exists x'; split; [reflexivity|exact Ex].
    + exact (Hn i y Hy).
Qed.

Lemma sync_all_idem m l l' : sync_all m l = Some l' -> sync_all m l' = Some l'.
Proof.
  revert l'. induction l as [|x t IH]; intros l' H; cbn in H.
  - injection H as <-. reflexivity.
  - destruct (sync_feature m x) as [x'|] eqn:Ex; [|discriminate].
    destruct (sync_all m t) as [t'|] eqn:Et; [|discriminate]. injection H as <-.
    cbn. rewrite (sync_feature_idem m x x' Ex), (IH t' eq_refl). reflexivity.
Qed.

End DetectorTypesFacts.

Module DetectorExtras.
Import Chars Schemas Py Detector DetectorTypes AutofixFacts DetectorTypesFacts.
Local Open Scope string_scope.
Local Open Scope list_scope.

(** [detect_feature_type] answers [green] exactly when some keyword of the
    table occurs in the lower-cased stem, and then the type it returns is
    one whose keyword occurs there and no occurring keyword is longer; when
    no keyword occurs, a polygon geometry gives [unit] ([yellow]), a line
    string [opening] ([yellow]) and anything else no type ([red]). *)
Theorem detect_feature_type_longest_keyword (stem geometry_type : string) (keywords : Keywords) :
  (snd (detect_feature_type stem geometry_type keywords) = "green"
   <-> exists ft vals kw, In (ft, vals) keywords /\ In kw vals /\ contains kw (lower stem) = true)
  /\ (forall ft, detect_feature_type stem geometry_type keywords = (Some ft, "green") ->
        exists vals kw, In (ft, vals) keywords /\ In kw vals /\ contains kw (lower stem) = true
        /\ forall ft' vals' kw', In (ft', vals') keywords -> In kw' vals' -> contains kw' (lower stem) = true ->
             (String.length kw' <= String.length kw)%nat)
  /\ ((forall ft vals kw, In (ft, vals) keywords -> In kw vals -> contains kw (lower stem) = false) ->
      detect_feature_type stem geometry_type keywords
      = if contains "polygon" (lower geometry_type) then (Some "unit", "yellow")
        else if contains "linestring" (lower geometry_type) then (Some "opening", "yellow")
        else (None, "red")).
Proof.
  split; [apply detect_green_iff|]. unfold detect_feature_type. rewrite best_fold_pairs.
  destruct (best_fold_spec (lower stem) (kw_pairs keywords) None) as [Hn Hs]. cbv zeta in Hn, Hs.
  split.
  - intros ft R. destruct (fold_left _ (kw_pairs keywords) None) as [[ft0 n]|] eqn:F.
    + injection R as <-. destruct (Hs ft0 n eq_refl) as [[E|[kw [Hin [Hc Hl]]]] [Hmax _]]; [discriminate|].
      apply in_kw_pairs in Hin as [vals [H1 H2]]. exists vals, kw. split; [exact H1|split; [exact H2|split; [exact Hc|]]].
      intros ft' vals' kw' H1' H2' H3'. rewrite Hl.
      exact (Hmax (ft', kw') (proj2 (in_kw_pairs _ _ _) (ex_intro _ vals' (conj H1' H2'))) H3').
    + exfalso. revert R. destruct (contains "polygon" _); [discriminate|].
      destruct (contains "linestring" _); discriminate.
  - intros Hall. assert (Hnone : fold_left (fun b p => best_step (lower stem) (fst p) b (snd p)) (kw_pairs keywords) None = None).
    { apply Hn. split; [reflexivity|]. intros [ft kw] Hp. apply in_kw_pairs in Hp as [vals [H1 H2]].
      exact (Hall ft vals kw H1 H2). }
    rewrite Hnone. reflexivity.
Qed.

(** [merge_learned_keywords] keeps every keyword of the base table and
    adds, under each learned type that is one of [FEATURE_TYPE_VALUES], the
    lower-cased learned keyword; a learned keyword with any other type is
    ignored. *)
Theorem merge_learned_keywords_members (base : Keywords) (learned : dict string) (t k : string) :
  In k (kws_of t (merge_learned_keywords base learned))
  <-> In k (kws_of t base) \/ exists kw, In (kw, t) learned /\ In t FEATURE_TYPE_VALUES /\ k = lower kw.
Proof. apply merge_members. Qed.

(** Once a keyword is learned for a valid feature type, every stem that
    contains it (case-insensitively) is detected with confidence [green]
    under the merged table, whatever the geometry. *)
Theorem learned_keyword_detected_green (base : Keywords) (learned : dict string) (kw t stem g : string) :
  In (kw, t) learned -> In t FEATURE_TYPE_VALUES -> contains (lower kw) (lower stem) = true ->
  snd (detect_feature_type stem g (merge_learned_keywords base learned)) = "green".
Proof.
  intros Hl Hv Hc. apply detect_green_iff.
  assert (Hm : In (lower kw) (kws_of t (merge_learned_keywords base learned))).
  { apply merge_members. right. exists kw. auto. }
  unfold kws_of in Hm. destruct (get t (merge_learned_keywords base learned)) as [vals|] eqn:G; [|destruct Hm].
  exists t, vals, (lower kw). split; [apply get_in; exact G|split; [exact Hm|exact Hc]].
Qed.

Lemma learned_keyword_detected_green_witness :
  In ("Tila", "unit") [("Tila", "unit")] /\ In "unit" FEATURE_TYPE_VALUES
  /\ contains (lower "Tila") (lower "B1_TILA_Area") = true
  /\ snd (detect_feature_type "B1_TILA_Area" "LineString" (merge_learned_keywords [("unit", ["room"])] [("Tila", "unit")]))
     = "green".
Proof.
  assert (H1 : In ("Tila", "unit") [("Tila", "unit")]) by (left; reflexivity).
  assert (H2 : In "unit" FEATURE_TYPE_VALUES) by (left; reflexivity).
  assert (H3 : contains (lower "Tila") (lower "B1_TILA_Area") = true) by reflexivity.
  exact (conj H1 (conj H2 (conj H3 (learned_keyword_detected_green [("unit", ["room"])] [("Tila", "unit")]
                                       "Tila" "unit" "B1_TILA_Area" "LineString" H1 H2 H3)))).
Defined.

(** [detect_files] keeps the files and their order (it only rewrites the
    detected type and level), keeps a manual level when asked to preserve
    manual levels, and is stable: running it again on its own output gives
    the same files and confidences. *)
Theorem detect_files_stable (files : list ImportedFile) (keywords : Keywords) (preserve_manual_levels : bool) :
  let out := detect_files files keywords preserve_manual_levels in
  detect_files (map fst out) keywords preserve_manual_levels = out
  /\ map (fun x => stem (fst x)) out = map stem files
  /\ Forall2 (fun item x => forall l, detected_level item = Some l -> detected_level (fst x) = Some l)
             files (detect_files files keywords true).
Proof.
  intros out. unfold out, detect_files. split; [|split].
  - rewrite map_map, map_map. apply map_ext. intros item.
    destruct (detect_feature_type (stem item) (geometry_type item) keywords) as [it c] eqn:D.
    cbn [fst stem geometry_type detected_level level_name short_name outdoor level_category]. rewrite D.
    f_equal. f_equal.
    destruct preserve_manual_levels; cbn [negb orb]; [|reflexivity].
    destruct (detected_level item) as [l|]; [reflexivity|].
    destruct (detect_level_ordinal (stem item)); reflexivity.
  - rewrite map_map. apply map_ext. intros item.
    destruct (detect_feature_type (stem item) (geometry_type item) keywords); reflexivity.
  - induction files as [|item t IH]; cbn [map]; constructor; [|exact IH].
    intros l Hl. destruct (detect_feature_type (stem item) (geometry_type item) keywords).
    cbn. rewrite Hl. reflexivity.
Qed.

(** [sync_feature_types], when it does not raise, changes only the
    [features] of the collection and keeps their number; a feature whose
    [properties.source_file] is the stem of a file gets as [feature_type]
    the detected type of the last file with that stem, or [source] when
    that type is missing or empty, and keeps everything else; a feature
    naming no file is left as it is.  Applying it again changes nothing. *)
Theorem sync_feature_types_spec (fc : dict pyval) (files : list ImportedFile) (out : dict pyval) :
  sync_feature_types fc files = Some out ->
  (forall k, k <> "features" -> get k out = get k fc)
  /\ sync_feature_types out files = Some out
  /\ match get "features" fc with
     | Some (PList l) =>
         exists l', get "features" out = Some (PList l') /\ List.length l' = List.length l
         /\ forall i d, nth_error l i = Some (PDict d) ->
              exists d', nth_error l' i = Some (PDict d')
              /\ (forall k, k <> "feature_type" -> get k d' = get k d)
              /\ get "feature_type" d'
                 = match match get "properties" d with Some (PDict p) => get "source_file" p | _ => None end with
                   | Some (PStr s) =>
                       match find (fun item => String.eqb (stem item) s) (rev files) with
                       | Some item => Some (PStr (type_or_source item))
                       | None => get "feature_type" d
                       end
                   | _ => get "feature_type" d
                   end
     | _ => out = fc
     end.
Proof.
  unfold sync_feature_types. intros H.
  destruct (get "features" fc) as [[| | | | [|c s] | l | [|kv d]]|] eqn:F; try discriminate;
    try (injection H as <-; split; [reflexivity|split; [rewrite F; reflexivity|reflexivity]]).
  destruct (sync_all (stem_to_type files) l) as [l'|] eqn:S; [|discriminate]. injection H as <-.
  split; [intros k Hk; now apply get_set_other|split].
  - rewrite get_set_same. now rewrite (sync_all_idem _ _ _ S), set_set_same.
  - exists l'. rewrite get_set_same. destruct (sync_all_spec _ _ _ S) as [Hl Hn].
    split; [reflexivity|split; [exact Hl|]].
    intros i d Hd. destruct (Hn i _ Hd) as [x' [Hx' Hs]]. unfold sync_feature in Hs.
    destruct (get "properties" d) as [[| | | | | |p]|] eqn:P; try discriminate.
    + destruct (get "source_file" p) as [[| | | | s | |]|] eqn:SF; try discriminate;
        try (injection Hs as <-; exists d; split; [exact Hx'|split; reflexivity]).
      destruct (get s (stem_to_type files)) as [t|] eqn:G; rewrite type_or_source_last in G;
        destruct (find (fun item => String.eqb (stem item) s) (rev files)) as [item|]; try discriminate.
      * injection G as <-. injection Hs as <-. eexists; split; [exact Hx'|split].
        -- intros k Hk. now apply get_set_other.
        -- apply get_set_same.
      * injection Hs as <-. exists d; split; [exact Hx'|split; reflexivity].
    + cbn in Hs. injection Hs as <-. exists d; split; [exact Hx'|split; reflexivity].
Qed.

Lemma sync_feature_types_spec_witness :
  let fc := [("type", PStr "FeatureCollection");
             ("features", PList [PDict [("properties", PDict [("source_file", PStr "JR_B1_Space")])]])] in
  let files := [imported_file "JR_B1_Space" (Some "unit") None] in
  sync_feature_types fc files
  = Some [("type", PStr "FeatureCollection");
          ("features", PList [PDict [("properties", PDict [("source_file", PStr "JR_B1_Space")]);
                                     ("feature_type", PStr "unit")]])]
  /\ (forall k, k <> "features" -> get k [("type", PStr "FeatureCollection");
          ("features", PList [PDict [("properties", PDict [("source_file", PStr "JR_B1_Space")]);
                                     ("feature_type", PStr "unit")]])] = get k fc).
Proof.
  intros fc files.
  assert (H : sync_feature_types fc files
              = Some [("type", PStr "FeatureCollection");
                      ("features", PList [PDict [("properties", PDict [("source_file", PStr "JR_B1_Space")]);
                                                 ("feature_type", PStr "unit")]])]) by reflexivity.
  exact (conj H (proj1 (sync_feature_types_spec fc files _ H))).
Defined.

End DetectorExtras.

Module SessionFacts.
Import Py Schemas Wizard Session AutofixFacts.
Local Open Scope string_scope.
Local Open Scope list_scope.

Lemma in_set_inv {A} k (v : A) d kv : In kv (set k v d) -> kv = (k, v) \/ In kv d.
Proof.
  induction d as [|[k' v'] t IH]; cbn; [intros [<-|[]]; left; reflexivity|].
  destruct (String.eqb_spec k k') as [->|_]; cbn.
  - intros [<-|H]; [left; reflexivity|right; right; exact H].
  - intros [<-|H]; [right; left; reflexivity|]. destruct (IH H); auto.
Qed.

Lemma keys_set {A} k (v : A) d :
  map fst (set k v d) = if existsb (String.eqb k) (map fst d) then map fst d else map fst d ++ [k].
Proof.
  induction d as [|[k' v'] t IH]; cbn; [reflexivity|].
  destruct (String.eqb_spec k k') as [->|_]; cbn; [reflexivity|].
  rewrite IH. destruct (existsb _ _); reflexivity.
Qed.

Lemma nodup_keys_set {A} k (v : A) d : NoDup (map fst d) -> NoDup (map fst (set k v d)).
Proof.
  intros H. rewrite keys_set. destruct (existsb (String.eqb k) (map fst d)) eqn:E; [exact H|].
  apply NoDup_app; [exact H|constructor; [intros []|constructor]|].
  intros x Hx [Ex|[]]. subst x. assert (existsb (String.eqb k) (map fst d) = true).
  { apply existsb_exists. exists k; split; [exact Hx|apply String.eqb_refl]. }
  congruence.
Qed.

Lemma length_set_le {A} k (v : A) d : (List.length (set k v d) <= S (List.length d))%nat.
Proof.
  rewrite <- (length_map fst (set k v d)), keys_set, <- (length_map fst d).
  destruct (existsb _ _); [lia|rewrite length_app; cbn; lia].
Qed.

Lemma length_set_in {A} k (v : A) d :
  existsb (String.eqb k) (map fst d) = true -> List.length (set k v d) = List.length d.
Proof.
  intros E. rewrite <- (length_map fst (set k v d)), keys_set, E, length_map. reflexivity.
Qed.

Lemma nodup_keys_filter {A} (p : string * A -> bool) d : NoDup (map fst d) -> NoDup (map fst (filter p d)).
Proof.
  induction d as [|[k v] t IH]; intros H; cbn; [constructor|].
  inversion H as [|? ? Hn Hd]; subst. destruct (p (k, v)); cbn; [|auto].
  constructor; [|auto]. intros Hin. apply Hn. apply in_map_iff in Hin as [[k' v'] [E Hin]].
  cbn in E; subst k'. apply filter_In in Hin as [Hin _]. apply in_map_iff. exists (k, v'); auto.
Qed.

Lemma wf_save s b : WF b -> WF (backend_save s b).
Proof.
  intros [Hk Hn]. split; [|apply nodup_keys_set; exact Hn].
  apply Forall_forall. intros kv Hin. apply in_set_inv in Hin as [->|Hin]; [reflexivity|].
  exact (proj1 (Forall_forall _ _) Hk kv Hin).
Qed.

Lemma wf_delete id b : WF b -> WF (backend_delete id b).
Proof.
  intros [Hk Hn]. split; [|apply nodup_keys_filter; exact Hn].
  apply Forall_forall. intros kv Hin. apply filter_In in Hin as [Hin _].
  exact (proj1 (Forall_forall _ _) Hk kv Hin).
Qed.

Lemma get_some_in {A} k (v : A) d : get k d = Some v -> In (k, v) d.
Proof.
  induction d as [|[k' v'] t IH]; cbn; [discriminate|].
  destruct (String.eqb_spec k k') as [<-|_]; [intros E; injection E as <-; left; reflexivity|].
  intros H; right; auto.
Qed.

Lemma in_get {A} k (v : A) d : NoDup (map fst d) -> In (k, v) d -> get k d = Some v.
Proof.
  induction d as [|[k' v'] t IH]; intros Hn Hin; cbn; [destruct Hin|].
  inversion Hn as [|? ? Hnin Hd]; subst. destruct Hin as [E|Hin].
  - injection E as <- <-. now rewrite String.eqb_refl.
  - destruct (String.eqb_spec k k') as [<-|_].
    + exfalso. apply Hnin. apply in_map_iff. exists (k, v); auto.
    + auto.
Qed.

Lemma get_delete id k b :
  backend_get k (backend_delete id b) = if String.eqb k id then None else backend_get k b.
Proof.
  unfold backend_get, backend_delete. induction b as [|[k' v'] t IH]; cbn.
  - destruct (String.eqb k id); reflexivity.
  - destruct (String.eqb_spec k' id) as [->|Hne]; cbn.
    + rewrite IH. destruct (String.eqb_spec k id) as [->|]; reflexivity.
    + destruct (String.eqb_spec k k') as [->|]; [|exact IH].
      destruct (String.eqb_spec k' id); [contradiction|reflexivity].
Qed.

Lemma filter_id_all {A} (f : A -> bool) l : (forall x, In x l -> f x = true) -> filter f l = l.
Proof.
  induction l as [|x l IH]; intros H; cbn; [reflexivity|].
  rewrite (H x (or_introl eq_refl)), IH; [reflexivity|]. intros y Hy; apply H; right; exact Hy.
Qed.

Lemma length_delete_in id b :
  NoDup (map fst b) -> In id (map fst b) -> List.length (backend_delete id b) = pred (List.length b).
Proof.
  unfold backend_delete. induction b as [|[k v] t IH]; intros Hn Hin; [destruct Hin|].
  inversion Hn as [|? ? Hnin Hd]; subst. cbn in Hin |- *.
  destruct (String.eqb_spec k id) as [->|Hne]; cbn.
  - rewrite filter_id_all. { reflexivity. }
    intros [k' v'] Hkv. cbn.
    destruct (String.eqb_spec k' id) as [->|]; [|reflexivity].
    exfalso; apply Hnin. apply in_map_iff. exists (id, v'); auto.
  - destruct Hin as [->|Hin]; [contradiction|]. rewrite IH by assumption.
    destruct t; [destruct Hin|reflexivity].
Qed.

Lemma oldest_of_in best l : In (oldest_of best l) (best :: l).
Proof.
  revert best. induction l as [|s t IH]; intros best; cbn; [left; reflexivity|].
  destruct (last_accessed s <? last_accessed best)%Z.
  - destruct (IH s) as [E|H]; [right; left; exact E|right; right; exact H].
  - destruct (IH best) as [E|H]; [left; exact E|right; right; exact H].
Qed.

Lemma sid_key b s : WF b -> In s (list_all b) -> In (sid s) (map fst b).
Proof.
  intros [Hk _] Hin. unfold list_all in Hin. apply in_map_iff in Hin as [kv [<- Hin]].
  apply in_map_iff. exists kv. split; [|exact Hin]. exact (proj1 (Forall_forall _ _) Hk kv Hin).
Qed.

Lemma filter_filter' {A} (f g : A -> bool) l : filter f (filter g l) = filter (fun x => g x && f x) l.
Proof.
  induction l as [|x l IH]; [reflexivity|]. cbn [filter].
  destruct (g x); cbn [filter andb]; [destruct (f x); [f_equal|]|]; exact IH.
Qed.

Lemma prune_fold ttl now (l : list TimedSession) (c : Backend) r :
  fold_left (fun acc s =>
    let '(b', removed) := acc in
    if expired ttl now s then (backend_delete (sid s) b', S removed) else (b', removed)) l (c, r)
  = (filter (fun kv => negb (existsb (fun s => expired ttl now s && String.eqb (sid s) (fst kv)) l)) c,
     (r + List.length (filter (expired ttl now) l))%nat).
Proof.
  revert c r. induction l as [|s t IH]; intros c r; cbn.
  - rewrite filter_id_all; [f_equal; lia|]. intros; reflexivity.
  - destruct (expired ttl now s) eqn:E; cbn; rewrite IH.
    + unfold backend_delete. rewrite filter_filter'. f_equal; [|cbn; lia].
      apply filter_ext. intros [k v]; cbn.
      destruct (String.eqb_spec k (sid s)) as [->|Hne]; [now rewrite String.eqb_refl|].
      destruct (String.eqb_spec (sid s) k); [congruence|reflexivity].
    + reflexivity.
Qed.

Lemma prune_spec ttl now b :
  WF b -> prune_expired ttl now b
          = (filter (fun kv => negb (expired ttl now (snd kv))) b,
             List.length (filter (fun kv => expired ttl now (snd kv)) b)).
Proof.
  intros [Hk Hn]. unfold prune_expired. rewrite prune_fold. cbn [plus]. f_equal.
  - apply filter_ext_in. intros [k v] Hin. f_equal. cbn [fst snd].
    assert (Hkv : k = sid v) by exact (proj1 (Forall_forall _ _) Hk (k, v) Hin).
    apply eq_true_iff_eq. rewrite existsb_exists. split.
    + intros [s [Hs E]]. apply andb_prop in E as [E1 E2]. apply String.eqb_eq in E2.
      unfold list_all in Hs. apply in_map_iff in Hs as [[k' s'] [Hs' Hin']]. cbn in Hs'; subst s'.
      assert (k' = sid s) by exact (proj1 (Forall_forall _ _) Hk (k', s) Hin'). subst k'.
      rewrite E2 in Hin'. pose proof (in_get _ _ _ Hn Hin') as G1. pose proof (in_get _ _ _ Hn Hin) as G2.
      rewrite G1 in G2. injection G2 as ->. exact E1.
    + intros E. exists v. split; [apply in_map_iff; exists (k, v); auto|].
      rewrite E, Hkv, String.eqb_refl. reflexivity.
  - unfold list_all. rewrite <- (length_map snd (filter _ b)). f_equal.
    induction b as [|[k v] t IH]; [reflexivity|]. cbn.
    inversion Hk; inversion Hn; subst. destruct (expired ttl now v); cbn; rewrite IH; auto.
Qed.

Lemma wf_filter p b : WF b -> WF (filter p b).
Proof.
  intros [Hk Hn]. split; [|apply nodup_keys_filter; exact Hn].
  apply Forall_forall. intros kv Hin. apply filter_In in Hin as [Hin _].
  exact (proj1 (Forall_forall _ _) Hk kv Hin).
Qed.

Lemma length_filter_le {A} (p : A -> bool) l : (List.length (filter p l) <= List.length l)%nat.
Proof. induction l as [|x l IH]; cbn; [lia|destruct (p x); cbn; lia]. Qed.

End SessionFacts.

Module SessionExtras.
Import Py Schemas Wizard Session AutofixFacts SessionFacts SessionExamples.
Local Open Scope string_scope.
Local Open Scope list_scope.

(** After [save_session], [get_session] finds the session under its id:
    with [touch] it comes back stamped with the new access time, without
    [touch] as saved, with the save's time; no other id changes. *)
Theorem save_then_get_session (now now' : Z) (s : TimedSession) (b : Backend) :
  let b1 := fst (save_session now s b) in
  snd (get_session now' true (sid s) b1) = Some (touch now' s)
  /\ snd (get_session now' false (sid s) b1) = Some (touch now s)
  /\ forall id, id <> sid s -> backend_get id b1 = backend_get id b.
Proof.
  intros b1. unfold b1, save_session, get_session, backend_save, backend_get. cbn [fst snd].
  replace (sid (touch now s)) with (sid s) by reflexivity.
  rewrite get_set_same. split; [reflexivity|split; [reflexivity|]].
  intros id Hid. apply get_set_other; exact Hid.
Qed.

(** On a store that keeps each session under its own id once,
    [prune_expired] removes exactly the sessions whose last access is at
    least [ttl] old, keeps the others in order, and returns how many it
    removed. *)
Theorem prune_expired_removes_expired (ttl now : Z) (b : Backend) :
  WF b ->
  prune_expired ttl now b
  = (filter (fun kv => negb (expired ttl now (snd kv))) b,
     List.length (filter (fun kv => expired ttl now (snd kv)) b))
  /\ WF (fst (prune_expired ttl now b)).
Proof.
  intros H. rewrite (prune_spec ttl now b H). split; [reflexivity|]. apply wf_filter; exact H.
Qed.

Lemma prune_expired_removes_expired_witness :
  let b := [("s-old", session_at "s-old" 0%Z); ("s-new", session_at "s-new" 90%Z)] in
  WF b /\ prune_expired 50%Z 100%Z b = ([("s-new", session_at "s-new" 90%Z)], 1%nat).
Proof.
  intros b. assert (H : WF b).
  { split; [repeat constructor|]. repeat constructor; cbn; intuition discriminate. }
  split; [exact H|]. rewrite (proj1 (prune_expired_removes_expired 50%Z 100%Z b H)). reflexivity.
Defined.

(** With a positive [max_sessions] and a well-kept store within it,
    [create_session] succeeds, prunes the expired sessions, evicts if the
    store is full, and stores the new session under its new id; the store
    stays within [max_sessions], and every other session left in it was
    already there and is not expired. *)
Theorem create_session_bounded (ttl max_sessions : Z) (default_wizard : WizardState) (now : Z)
    (new_id : string) (fs : list ImportedFile) (fc : dict pyval) (b : Backend) :
  WF b -> (0 < max_sessions)%Z -> (Z.of_nat (List.length b) <= max_sessions)%Z ->
  exists b' s, create_session ttl max_sessions default_wizard now new_id fs fc b = Some (b', s)
    /\ WF b' /\ (Z.of_nat (List.length b') <= max_sessions)%Z
    /\ sid s = new_id /\ backend_get new_id b' = Some s
    /\ forall id s', id <> new_id -> backend_get id b' = Some s' ->
         backend_get id b = Some s' /\ expired ttl now s' = false.
Proof.
  intros Hwf Hmax Hlen. unfold create_session. rewrite (prune_spec ttl now b Hwf).
  set (b1 := filter (fun kv => negb (expired ttl now (snd kv))) b).
  assert (Hwf1 : WF b1) by (apply wf_filter; exact Hwf).
  assert (Hl1 : (List.length b1 <= List.length b)%nat) by apply length_filter_le.
  assert (Hsub1 : forall id s', backend_get id b1 = Some s' -> backend_get id b = Some s' /\ expired ttl now s' = false).
  { intros id s' G. apply get_some_in in G. unfold b1 in G. apply filter_In in G as [G E].
    split; [apply in_get; [exact (proj2 Hwf)|exact G]|]. cbn in E. destruct (expired ttl now s'); [discriminate|reflexivity]. }
  assert (Hev : exists b2, evict_if_needed max_sessions b1 = Some b2 /\ WF b2
                 /\ (Z.of_nat (List.length b2) < max_sessions)%Z
                 /\ forall id s', backend_get id b2 = Some s' -> backend_get id b1 = Some s').
  { unfold evict_if_needed, list_all. rewrite length_map.
    destruct (Z.of_nat (List.length b1) <? max_sessions)%Z eqn:L.
    - exists b1. apply Z.ltb_lt in L. split; [reflexivity|split; [exact Hwf1|split; [exact L|auto]]].
    - apply Z.ltb_ge in L. destruct b1 as [|[k0 s0] t] eqn:E1; [cbn in L; lia|].
      cbn [map]. eexists; split; [reflexivity|split; [apply wf_delete; exact Hwf1|split]].
      + assert (Hin : In (sid (oldest_of s0 (map snd t))) (map fst ((k0, s0) :: t))).
        { apply sid_key; [exact Hwf1|]. exact (oldest_of_in s0 (map snd t)). }
        change (snd (k0, s0)) with s0. rewrite (length_delete_in _ _ (proj2 Hwf1) Hin). cbn [List.length pred] in *. lia.
      + intros id s' G. rewrite get_delete in G. destruct (String.eqb id _); [discriminate|exact G]. }
  destruct Hev as [b2 [-> [Hwf2 [Hl2 Hsub2]]]].
  eexists; eexists; split; [reflexivity|]. split; [apply wf_save; exact Hwf2|split; [|split; [reflexivity|split]]].
  - pose proof (length_set_le new_id
      {| record := {| session_id := new_id; files := fs; feature_collection := fc;
                      source_feature_collection := Some fc; wizard := default_wizard; validation := None |};
         created_at := now; last_accessed := now |} b2). unfold backend_save, sid. cbn [record session_id]. lia.
  - unfold backend_get, backend_save, sid. cbn [record session_id]. apply get_set_same.
  - intros id s' Hid G. unfold backend_get, backend_save, sid in G. cbn [record session_id] in G.
    rewrite get_set_other in G by exact Hid. apply Hsub1, Hsub2. exact G.
Qed.

Lemma create_session_bounded_witness :
  let b := [("s-old", session_at "s-old" 0%Z); ("s-new", session_at "s-new" 90%Z)] in
  WF b /\ (0 < 2)%Z /\ (Z.of_nat (List.length b) <= 2)%Z /\
  exists b' s, create_session 50%Z 2%Z (GeneratorExamples.example_wizard []) 100%Z "s-3" [] [] b = Some (b', s)
    /\ WF b' /\ (Z.of_nat (List.length b') <= 2)%Z
    /\ sid s = "s-3" /\ backend_get "s-3" b' = Some s
    /\ forall id s', id <> "s-3" -> backend_get id b' = Some s' ->
         backend_get id b = Some s' /\ expired 50%Z 100%Z s' = false.
Proof.
  intros b. assert (H : WF b).
  { split; [repeat constructor|]. repeat constructor; cbn; intuition discriminate. }
  assert (H1 : (0 < 2)%Z) by lia. assert (H2 : (Z.of_nat (List.length b) <= 2)%Z) by (cbn; lia).
  exact (conj H (conj H1 (conj H2 (create_session_bounded 50%Z 2%Z (GeneratorExamples.example_wizard []) 100%Z
                                       "s-3" [] [] b H H1 H2)))).
Defined.

End SessionExtras.

Module ImporterMoreFacts.
Import Importer ImporterRings.
Local Open Scope list_scope.

Lemma Qeq_bool_refl' x : Qeq_bool x x = true.
Proof. apply Qeq_bool_iff. reflexivity. Qed.

Lemma point_eqb_refl p : point_eqb p p = true.
Proof. unfold point_eqb. now rewrite !Qeq_bool_refl'. Qed.

Lemma point_eqb_sym p q : point_eqb p q = point_eqb q p.
Proof.
  unfold point_eqb. f_equal; apply eq_true_iff_eq; rewrite !Qeq_bool_iff; split; intros H; symmetry; exact H.
Qed.

Lemma ring_eqb_refl r : ring_eqb r r = true.
Proof. induction r as [|p r IH]; cbn; [reflexivity|now rewrite point_eqb_refl, IH]. Qed.

Lemma polygon_eqb_refl p : polygon_eqb p p = true.
Proof.
  destruct p as [e i]. unfold polygon_eqb. cbn [fst snd]. rewrite ring_eqb_refl, Nat.eqb_refl.
  cbn. induction i as [|r i IH]; cbn; [reflexivity|now rewrite ring_eqb_refl].
Qed.

Lemma close_ring_closed r s : ring_closed (fst (close_ring r s)) = true.
Proof.
  unfold close_ring. destruct r as [|c0 t] eqn:E; [reflexivity|].
  destruct (point_eqb c0 (last (c0 :: t) c0)) eqn:P; cbn [fst].
  - exact P.
  - cbn [ring_closed app]. rewrite app_comm_cons, last_last. apply point_eqb_refl.
Qed.

Lemma close_ring_of_closed r s : ring_closed r = true -> close_ring r s = (r, s).
Proof. unfold close_ring, ring_closed. destruct r; [reflexivity|]. intros ->. reflexivity. Qed.

Lemma close_rings_of_closed rs s : Forall (fun r => ring_closed r = true) rs -> close_rings rs s = (rs, s).
Proof.
  revert s. induction rs as [|r t IH]; intros s H; [reflexivity|]. inversion H; subst.
  cbn [close_rings]. rewrite close_ring_of_closed by assumption. rewrite IH by assumption. reflexivity.
Qed.

Lemma close_rings_closed rs s : Forall (fun r => ring_closed r = true) (fst (close_rings rs s)).
Proof.
  revert s. induction rs as [|r t IH]; intros s; [constructor|]. cbn [close_rings].
  pose proof (close_ring_closed r s) as C. destruct (close_ring r s) as [r' s1]; cbn [fst] in C.
  specialize (IH s1). destruct (close_rings t s1) as [t' s2]. cbn [fst] in *. constructor; assumption.
Qed.

Lemma last_rev_hd {A} (l : list A) d : last (rev l) d = hd d l.
Proof. destruct l as [|x l]; [reflexivity|]. cbn [rev hd]. apply last_last. Qed.

Lemma hd_rev_last {A} (l : list A) d : hd d (rev l) = last l d.
Proof. rewrite <- (rev_involutive l) at 2. symmetry. apply last_rev_hd. Qed.

Lemma last_default {A} (x : A) l d d' : last (x :: l) d = last (x :: l) d'.
Proof. revert x; induction l as [|y l IH]; intros x; [reflexivity|]. cbn [last]. apply IH. Qed.

Lemma ring_closed_rev r : ring_closed r = true -> ring_closed (rev r) = true.
Proof.
  destruct r as [|c0 t] eqn:Er; [intros; reflexivity|]. rewrite <- Er. intros H.
  unfold ring_closed in H |- *. rewrite Er in H.
  destruct (rev r) as [|c1 t'] eqn:E.
  - reflexivity.
  - assert (H1 : c1 = last r c0) by (rewrite <- (hd_rev_last r c0), E; reflexivity).
    assert (H2 : last (c1 :: t') c1 = c0).
    { rewrite <- E, last_rev_hd, Er. reflexivity. }
    rewrite H2, H1, Er, point_eqb_sym. exact H.
Qed.

Definition cross (p q : Point) : Q := (fst p * snd q - fst q * snd p)%Q.

Lemma shoelace_cons x L d : L <> [] -> shoelace (x :: L) = (cross x (hd d L) + shoelace L)%Q.
Proof. destruct L; [congruence|reflexivity]. Qed.

Lemma hd_app_nonempty {A} (d : A) l a b : hd d (l ++ a :: b) = hd d (l ++ [a]).
Proof. destruct l; reflexivity. Qed.

Lemma shoelace_snoc l a b : (shoelace (l ++ [a; b]) == shoelace (l ++ [a]) + cross a b)%Q.
Proof.
  induction l as [|x l IH].
  - cbn. unfold cross. ring.
  - cbn [app]. rewrite (shoelace_cons x (l ++ [a; b]) a), (shoelace_cons x (l ++ [a]) a)
      by (destruct l; discriminate).
    rewrite hd_app_nonempty, IH. ring.
Qed.

Lemma shoelace_rev r : (shoelace (rev r) == - shoelace r)%Q.
Proof.
  induction r as [|p [|q t] IH].
  - reflexivity.
  - reflexivity.
  - change (rev (p :: q :: t)) with ((rev t ++ [q]) ++ [p]). rewrite <- app_assoc. cbn [app].
    rewrite shoelace_snoc. change (rev t ++ [q]) with (rev (q :: t)). rewrite IH.
    change (shoelace (p :: q :: t)) with (cross p q + shoelace (q :: t))%Q. unfold cross. ring.
Qed.

Lemma orient_exterior e : (0 <= shoelace (if Qle_bool 0 (shoelace e) then e else rev e))%Q.
Proof.
  destruct (Qle_bool 0 (shoelace e)) eqn:E.
  - apply Qle_bool_iff; exact E.
  - rewrite shoelace_rev. assert (H : ~ (0 <= shoelace e)%Q) by (rewrite <- Qle_bool_iff; congruence).
    apply Qnot_le_lt in H. apply Qlt_le_weak. apply Qopp_lt_compat in H. exact H.
Qed.

Lemma orient_interior r : (shoelace (if Qle_bool (shoelace r) 0 then r else rev r) <= 0)%Q.
Proof.
  destruct (Qle_bool (shoelace r) 0) eqn:E.
  - apply Qle_bool_iff; exact E.
  - rewrite shoelace_rev. assert (H : ~ (shoelace r <= 0)%Q) by (rewrite <- Qle_bool_iff; congruence).
    apply Qnot_le_lt in H. apply Qlt_le_weak. apply Qopp_lt_compat in H. exact H.
Qed.

Lemma orient_ext_idem e :
  (if Qle_bool 0 (shoelace (if Qle_bool 0 (shoelace e) then e else rev e))
   then (if Qle_bool 0 (shoelace e) then e else rev e)
   else rev (if Qle_bool 0 (shoelace e) then e else rev e))
  = (if Qle_bool 0 (shoelace e) then e else rev e).
Proof.
  pose proof (orient_exterior e) as H. apply Qle_bool_iff in H. rewrite H. reflexivity.
Qed.

Lemma orient_int_idem r :
  (if Qle_bool (shoelace (if Qle_bool (shoelace r) 0 then r else rev r)) 0
   then (if Qle_bool (shoelace r) 0 then r else rev r)
   else rev (if Qle_bool (shoelace r) 0 then r else rev r))
  = (if Qle_bool (shoelace r) 0 then r else rev r).
Proof.
  pose proof (orient_interior r) as H. apply Qle_bool_iff in H. rewrite H. reflexivity.
Qed.

Lemma orient_idem p : orient (orient p) = orient p.
Proof.
  destruct p as [e i]. unfold orient. cbn [fst snd]. rewrite orient_ext_idem. f_equal.
  rewrite map_map. apply map_ext. apply orient_int_idem.
Qed.

Lemma orient_closed p :
  Forall (fun r => ring_closed r = true) (fst p :: snd p) ->
  Forall (fun r => ring_closed r = true) (fst (orient p) :: snd (orient p)).
Proof.
  destruct p as [e i]. unfold orient. cbn [fst snd]. intros H. inversion H as [|? ? He Hi]; subst.
  constructor.
  - destruct (Qle_bool 0 (shoelace e)); [exact He|apply ring_closed_rev; exact He].
  - apply Forall_map. eapply Forall_impl; [|exact Hi]. intros r Hr.
    destruct (Qle_bool (shoelace r) 0); [exact Hr|apply ring_closed_rev; exact Hr].
Qed.

Lemma ring_ok_rev r : ring_ok (rev r) = ring_ok r.
Proof. destruct r as [|c t]; [reflexivity|]. unfold ring_ok. rewrite length_rev. destruct (rev (c :: t)) eqn:E; [|reflexivity].
  apply (f_equal (@length _)) in E. rewrite length_rev in E. discriminate. Qed.

Lemma orient_ok p : forallb ring_ok (fst p :: snd p) = forallb ring_ok (fst (orient p) :: snd (orient p)).
Proof.
  destruct p as [e i]. unfold orient. cbn [fst snd forallb]. f_equal.
  - destruct (Qle_bool 0 (shoelace e)); [reflexivity|symmetry; apply ring_ok_rev].
  - induction i as [|r i IH]; [reflexivity|]. cbn [map forallb]. rewrite IH. f_equal.
    destruct (Qle_bool (shoelace r) 0); [reflexivity|symmetry; apply ring_ok_rev].
Qed.

Lemma normalize_polygon_spec p s p' s' :
  normalize_polygon p s = Some (p', s') ->
  p' = orient p' /\ Forall (fun r => ring_closed r = true) (fst p' :: snd p')
  /\ forallb ring_ok (fst p' :: snd p') = true.
Proof.
  unfold normalize_polygon.
  pose proof (close_ring_closed (fst p) s) as C1.
  destruct (close_ring (fst p) s) as [e s1]. cbn [fst] in C1.
  pose proof (close_rings_closed (snd p) s1) as C2.
  destruct (close_rings (snd p) s1) as [i s2]. cbn [fst] in C2.
  destruct (forallb ring_ok (e :: i)) eqn:OK; [|discriminate].
  intros H; injection H as <- _. split; [symmetry; apply orient_idem|split].
  - apply orient_closed. constructor; assumption.
  - rewrite <- orient_ok. exact OK.
Qed.

Lemma normalize_polygon_fixed p s :
  p = orient p -> Forall (fun r => ring_closed r = true) (fst p :: snd p) ->
  forallb ring_ok (fst p :: snd p) = true ->
  normalize_polygon p s = Some (p, s).
Proof.
  intros Ho Hc Hok. inversion Hc as [|? ? He Hi]; subst.
  unfold normalize_polygon. rewrite close_ring_of_closed by exact He.
  rewrite close_rings_of_closed by exact Hi. destruct p as [e i]. cbn [fst snd] in *.
  rewrite Hok, <- Ho, polygon_eqb_refl. reflexivity.
Qed.

Lemma m_pos p : (0 < 10 ^ Z.of_nat p)%Z.
Proof. apply Z.pow_pos_nonneg; lia. Qed.

Lemma round_Q_fix p k : round_Q p (Qmake k (Z.to_pos (10 ^ Z.of_nat p))) = Qmake k (Z.to_pos (10 ^ Z.of_nat p)).
Proof.
  pose proof (m_pos p) as Hm. unfold round_Q. cbn [Qnum Qden]. rewrite Z2Pos.id by exact Hm.
  rewrite Z.div_mul, Z.mod_mul by lia. replace (2 * 0)%Z with 0%Z by reflexivity.
  destruct (0 <? 10 ^ Z.of_nat p)%Z eqn:E; [reflexivity|]. apply Z.ltb_ge in E. lia.
Qed.

Lemma round_Q_idem p q : round_Q p (round_Q p q) = round_Q p q.
Proof.
  assert (E : round_Q p q = Qmake (Qnum (round_Q p q)) (Z.to_pos (10 ^ Z.of_nat p))) by reflexivity.
  rewrite E at 1. rewrite round_Q_fix. symmetry. exact E.
Qed.

Lemma round_value_idem p v s s' : round_value p (fst (round_value p v s)) s' = (fst (round_value p v s), s').
Proof. unfold round_value. cbn [fst]. rewrite round_Q_idem, Qeq_bool_refl'. reflexivity. Qed.

Lemma round_point_idem p q s s' : round_point p (fst (round_point p q s)) s' = (fst (round_point p q s), s').
Proof.
  unfold round_point. destruct (round_value p (fst q) s) as [x s1] eqn:E1.
  destruct (round_value p (snd q) s1) as [y s2] eqn:E2. cbn [fst snd].
  replace x with (fst (round_value p (fst q) s)) by now rewrite E1.
  rewrite round_value_idem. replace y with (fst (round_value p (snd q) s1)) by now rewrite E2.
  rewrite round_value_idem. reflexivity.
Qed.

Lemma round_ring_idem p r s s' : round_ring p (fst (round_ring p r s)) s' = (fst (round_ring p r s), s').
Proof.
  revert s s'. induction r as [|q t IH]; intros s s'; [reflexivity|]. cbn [round_ring].
  destruct (round_point p q s) as [q' s1] eqn:E1. destruct (round_ring p t s1) as [t' s2] eqn:E2.
  cbn [fst round_ring].
  replace q' with (fst (round_point p q s)) by now rewrite E1. rewrite round_point_idem.
  replace t' with (fst (round_ring p t s1)) by now rewrite E2. rewrite IH. reflexivity.
Qed.

Lemma round_rings_idem p rs s s' : round_rings p (fst (round_rings p rs s)) s' = (fst (round_rings p rs s), s').
Proof.
  revert s s'. induction rs as [|r t IH]; intros s s'; [reflexivity|]. cbn [round_rings].
  destruct (round_ring p r s) as [r' s1] eqn:E1. destruct (round_rings p t s1) as [t' s2] eqn:E2.
  cbn [fst round_rings].
  replace r' with (fst (round_ring p r s)) by now rewrite E1. rewrite round_ring_idem.
  replace t' with (fst (round_rings p t s1)) by now rewrite E2. rewrite IH. reflexivity.
Qed.

Lemma round_polygon_idem p q s s' :
  round_polygon p (fst (round_polygon p q s)) s' = (fst (round_polygon p q s), s').
Proof.
  unfold round_polygon. destruct (round_ring p (fst q) s) as [e s1] eqn:E1.
  destruct (round_rings p (snd q) s1) as [i s2] eqn:E2. cbn [fst snd].
  replace e with (fst (round_ring p (fst q) s)) by now rewrite E1. rewrite round_ring_idem.
  replace i with (fst (round_rings p (snd q) s1)) by now rewrite E2. rewrite round_rings_idem. reflexivity.
Qed.

Lemma round_parts_idem p ps s s' : round_parts p (fst (round_parts p ps s)) s' = (fst (round_parts p ps s), s').
Proof.
  revert s s'. induction ps as [|q t IH]; intros s s'; [reflexivity|]. cbn [round_parts].
  destruct (round_polygon p q s) as [q' s1] eqn:E1. destruct (round_parts p t s1) as [t' s2] eqn:E2.
  cbn [fst round_parts].
  replace q' with (fst (round_polygon p q s)) by now rewrite E1. rewrite round_polygon_idem.
  replace t' with (fst (round_parts p t s1)) by now rewrite E2. rewrite IH. reflexivity.
Qed.


End ImporterMoreFacts.

Module ImporterExtras.
Import Importer ImporterRings ImporterExamples ImporterMoreFacts.
Local Open Scope list_scope.

(** [orient(polygon, sign=1.0)] gives an exterior ring of non-negative
    signed area and interior rings of non-positive signed area, and
    orienting an oriented polygon changes nothing. *)
Theorem orient_signs_idempotent (p : PolygonData) :
  (0 <= shoelace (fst (orient p)))%Q
  /\ Forall (fun r => shoelace r <= 0)%Q (snd (orient p))
  /\ orient (orient p) = orient p.
Proof.
  split; [apply orient_exterior|split; [|apply orient_idem]].
  destruct p as [e i]. cbn [orient snd]. apply Forall_map. apply Forall_forall. intros r _. apply orient_interior.
Qed.

(** A polygon [_normalize_polygon] returns has closed rings, an exterior
    of non-negative and interiors of non-positive signed area; normalizing
    it again returns it unchanged and counts no closed ring and no
    reorientation. *)
Theorem normalize_polygon_idempotent (p : PolygonData) (s : CleanupSummary) (p' : PolygonData) (s' : CleanupSummary) :
  normalize_polygon p s = Some (p', s') ->
  Forall (fun r => ring_closed r = true) (fst p' :: snd p')
  /\ (0 <= shoelace (fst p'))%Q /\ Forall (fun r => shoelace r <= 0)%Q (snd p')
  /\ forall s0, normalize_polygon p' s0 = Some (p', s0).
Proof.
  intros H. destruct (normalize_polygon_spec p s p' s' H) as [Ho [Hc Hok]].
  split; [exact Hc|split; [|split]].
  - rewrite Ho. apply orient_exterior.
  - rewrite Ho. destruct p' as [e i]. cbn [orient snd]. apply Forall_map.
    apply Forall_forall. intros r _. apply orient_interior.
  - intros s0. apply normalize_polygon_fixed; assumption.
Qed.

Lemma normalize_polygon_idempotent_witness :
  exists p' s', normalize_polygon cw_triangle empty_summary = Some (p', s')
  /\ Forall (fun r => ring_closed r = true) (fst p' :: snd p')
  /\ (0 <= shoelace (fst p'))%Q /\ Forall (fun r => shoelace r <= 0)%Q (snd p')
  /\ forall s0, normalize_polygon p' s0 = Some (p', s0).
Proof.
  destruct (normalize_polygon cw_triangle empty_summary) as [[p' s']|] eqn:E; [|vm_compute in E; discriminate].
  exists p', s'. split; [reflexivity|]. exact (normalize_polygon_idempotent cw_triangle empty_summary p' s' E).
Defined.


(** [_round_geometry] is idempotent: rounding a rounded geometry returns
    it unchanged and counts no rounded coordinate. *)
Theorem round_geometry_idempotent (g : Geometry) (precision : nat) (s s' : CleanupSummary) :
  round_geometry (fst (round_geometry g precision s)) precision s' = (fst (round_geometry g precision s), s').
Proof.
  destruct g as [e i|ps|t cs]; cbn [round_geometry].
  - destruct (round_polygon precision (e, i) s) as [[e' i'] s1] eqn:E. cbn [fst round_geometry].
    replace (e', i') with (fst (round_polygon precision (e, i) s)) by now rewrite E.
    rewrite round_polygon_idem. rewrite E. reflexivity.
  - destruct (round_parts precision ps s) as [ps' s1] eqn:E. cbn [fst round_geometry].
    replace ps' with (fst (round_parts precision ps s)) by now rewrite E.
    rewrite round_parts_idem. reflexivity.
  - destruct (round_ring precision cs s) as [cs' s1] eqn:E. cbn [fst round_geometry].
    replace cs' with (fst (round_ring precision cs s)) by now rewrite E.
    rewrite round_ring_idem. reflexivity.
Qed.

(** [_close_ring] returns an empty or closed ring (first coordinate equal
    to the last), and closing that ring again returns it unchanged and
    counts no closed ring. *)
Theorem close_ring_closes_once (coords : Ring) (s : CleanupSummary) :
  ring_closed (fst (close_ring coords s)) = true
  /\ forall s', close_ring (fst (close_ring coords s)) s' = (fst (close_ring coords s), s').
Proof.
  split; [apply close_ring_closed|]. intros s'. apply close_ring_of_closed, close_ring_closed.
Qed.

End ImporterExtras.

Module GeneratorMoreFacts.
Import Chars Py Wizard Generator GeneratorText GeneratorFacts.
Local Open Scope string_scope.
Local Open Scope list_scope.

Lemma lstrip_l_idem l : lstrip_l (lstrip_l l) = lstrip_l l.
Proof. induction l as [|c t IH]; cbn; [reflexivity|]. destruct (is_space c) eqn:E; [exact IH|cbn; now rewrite E]. Qed.

Lemma lstrip_l_suffix l : exists k, l = k ++ lstrip_l l.
Proof.
  induction l as [|c t [k IH]]; cbn; [now exists []|].
  destruct (is_space c); [exists (c :: k); cbn; now f_equal|now exists []].
Qed.

Lemma lstrip_l_head l : match lstrip_l l with [] => True | c :: _ => is_space c = false end.
Proof. induction l as [|c t IH]; cbn; [exact I|]. destruct (is_space c) eqn:E; [exact IH|exact E]. Qed.

Lemma lstrip_l_fixed l : match l with [] => True | c :: _ => is_space c = false end -> lstrip_l l = l.
Proof. destruct l as [|c t]; cbn; [reflexivity|]. intros ->. reflexivity. Qed.

Lemma strip_idem s : strip (strip s) = strip s.
Proof.
  unfold strip. rewrite list_ascii_of_string_of_list_ascii. f_equal.
  set (m := lstrip_l (list_ascii_of_string s)).
  assert (Hm : match m with [] => True | c :: _ => is_space c = false end) by apply lstrip_l_head.
  destruct (lstrip_l_suffix (rev m)) as [k Hk].
  set (x := lstrip_l (rev m)) in *.
  assert (Hx : lstrip_l (rev x) = rev x).
  { apply lstrip_l_fixed. destruct (rev x) as [|c t] eqn:E; [exact I|].
    assert (m = rev x ++ rev k) as Hmx by (rewrite <- rev_app_distr, <- Hk, rev_involutive; reflexivity).
    rewrite E in Hmx. rewrite Hmx in Hm. exact Hm. }
  rewrite Hx, rev_involutive. unfold x. rewrite lstrip_l_idem. reflexivity.
Qed.

Lemma strip_nonblank s : strip s <> "" -> nonblank (strip s) = true.
Proof. intros H. unfold nonblank. rewrite strip_idem. apply negb_true_iff, String.eqb_neq, H. Qed.

Lemma get_filter_key {A} (P : string -> bool) k (d : dict A) :
  get k (filter (fun kv => P (fst kv)) d) = if P k then get k d else None.
Proof.
  induction d as [|[k' v] d IH]; cbn; [destruct (P k); reflexivity|].
  destruct (P k') eqn:E; cbn.
  - destruct (String.eqb k k') eqn:K; [apply String.eqb_eq in K; subst; now rewrite E|exact IH].
  - rewrite IH. destruct (String.eqb k k') eqn:K; [apply String.eqb_eq in K; subst; now rewrite E|reflexivity].
Qed.

Lemma set_set_over {A} k (v v' : A) d : set k v (set k v' d) = set k v d.
Proof.
  induction d as [|[k' w] d IH]; cbn; [now rewrite String.eqb_refl|].
  destruct (String.eqb k k') eqn:E; cbn; rewrite E; [reflexivity|now rewrite IH].
Qed.

Lemma tokens_ok {A} (f : A -> string) l :
  Forall (fun t => t <> "" /\ strip t = t) (map (fun x => strip (f x)) (filter (fun x => nonblank (f x)) l)).
Proof.
  induction l as [|x l IH]; cbn; [constructor|].
  destruct (nonblank (f x)) eqn:E; [|exact IH].
  constructor; [|exact IH]. split; [|apply strip_idem].
  unfold nonblank in E. apply negb_true_iff, String.eqb_neq in E. exact E.
Qed.

Lemma split_no_sep cur l :
  forallb (fun c => negb (is_sep c)) l = true -> split_seps_l cur l = [rev cur ++ l].
Proof.
  revert cur. induction l as [|c l IH]; intros cur H; cbn in *.
  - now rewrite app_nil_r.
  - apply andb_true_iff in H as [H1 H2]. apply negb_true_iff in H1. rewrite H1, IH by exact H2.
    cbn. now rewrite <- app_assoc.
Qed.








Lemma upper_empty s : upper s = "" -> s = "".
Proof. destruct s; cbn; [reflexivity|discriminate]. Qed.

Lemma zget_in {A} o (g : A) m : zget o m = Some g -> In (o, g) m.
Proof.
  induction m as [|[k w] m IH]; cbn; [discriminate|].
  destruct (o =? k)%Z eqn:E; [apply Z.eqb_eq in E; subst; intros [= <-]; now left|intros H; right; auto].
Qed.

Lemma in_zget {A} o (g : A) m : NoDup (map fst m) -> In (o, g) m -> zget o m = Some g.
Proof.
  induction m as [|[k w] m IH]; cbn; [tauto|]. intros Hn [H|H]; inversion Hn; subst.
  - injection H as <- <-. now rewrite Z.eqb_refl.
  - destruct (o =? k)%Z eqn:E; [|auto].
    apply Z.eqb_eq in E; subst. exfalso. apply H2. apply (in_map fst) in H. exact H.
Qed.

Lemma zget_keys {A} o (m : list (Z * A)) : zget o m <> None <-> In o (map fst m).
Proof.
  induction m as [|[k w] m IH]; cbn; [tauto|].
  destruct (o =? k)%Z eqn:E.
  - apply Z.eqb_eq in E; subst. split; [now left|discriminate].
  - apply Z.eqb_neq in E. rewrite IH. split; [now right|intros [H|H]; [congruence|exact H]].
Qed.

Lemma zset_keys {A} o (v : A) m :
  map fst (zset o v m) = if existsb (Z.eqb o) (map fst m) then map fst m else map fst m ++ [o].
Proof.
  induction m as [|[k w] m IH]; cbn; [reflexivity|].
  destruct (o =? k)%Z eqn:E; cbn; [reflexivity|].
  rewrite IH. destruct (existsb (Z.eqb o) (map fst m)); reflexivity.
Qed.

Lemma nodup_zset {A} o (v : A) m : NoDup (map fst m) -> NoDup (map fst (zset o v m)).
Proof.
  intros H. rewrite zset_keys. destruct (existsb (Z.eqb o) (map fst m)) eqn:E; [exact H|].
  apply NoDup_app; [exact H|repeat constructor; auto|].
  intros x Hx [->|[]]. assert (existsb (Z.eqb x) (map fst m) = true) by (apply existsb_exists; exists x; split; [exact Hx|apply Z.eqb_refl]).
  congruence.
Qed.

Lemma in_sadd x y l : In y (sadd x l) <-> In y l \/ y = x.
Proof.
  unfold sadd. destruct (smem x l) eqn:E.
  - split; [now left|]. intros [H| ->]; [exact H|].
    apply existsb_exists in E as [z [Hz Ez]]. apply String.eqb_eq in Ez. now subst.
  - rewrite in_app_iff. cbn. intuition.
Qed.

Lemma nodup_sadd x l : NoDup l -> NoDup (sadd x l).
Proof.
  unfold sadd. destruct (smem x l) eqn:E; intros H; [exact H|].
  apply NoDup_app; [exact H|repeat constructor; auto|].
  intros y Hy [->|[]]. assert (smem y l = true) by (apply existsb_exists; exists y; split; [exact Hy|apply String.eqb_refl]).
  congruence.
Qed.

Lemma zinsert_perm {A} (x : Z * A) l : Permutation (zinsert x l) (x :: l).
Proof.
  induction l as [|y l IH]; cbn; [reflexivity|].
  destruct (fst y <=? fst x)%Z; [|reflexivity].
  transitivity (y :: x :: l); [now constructor|constructor].
Qed.

Lemma zsort_perm {A} (l : list (Z * A)) : Permutation (zsort l) l.
Proof.
  unfold zsort. rewrite <- (app_nil_r l) at 2. generalize (@nil (Z * A)) as acc.
  induction l as [|x l IH]; intros acc; cbn; [reflexivity|].
  rewrite IH. rewrite zinsert_perm. cbn.
  apply Permutation_sym, Permutation_middle.
Qed.

Lemma zinsert_hd {A} a (x : Z * A) l :
  HdRel Z.le a (map fst l) -> (a <= fst x)%Z -> HdRel Z.le a (map fst (zinsert x l)).
Proof.
  destruct l as [|y l]; cbn; intros H1 H2; [now constructor|].
  destruct (fst y <=? fst x)%Z; cbn; constructor; [inversion H1; auto|exact H2].
Qed.

Lemma zinsert_sorted {A} (x : Z * A) l : Sorted Z.le (map fst l) -> Sorted Z.le (map fst (zinsert x l)).
Proof.
  induction l as [|y l IH]; cbn; intros H; [repeat constructor|].
  destruct (fst y <=? fst x)%Z eqn:E; cbn.
  - apply Z.leb_le in E. inversion H; subst. constructor; [auto|]. apply zinsert_hd; assumption.
  - apply Z.leb_gt in E. constructor; [exact H|]. constructor. lia.
Qed.

Lemma zsort_sorted {A} (l : list (Z * A)) : Sorted Z.le (map fst (zsort l)).
Proof.
  unfold zsort. assert (H : Sorted Z.le (map fst (@nil (Z * A)))) by constructor.
  revert H. generalize (@nil (Z * A)) as acc.
  induction l as [|x l IH]; intros acc H; cbn; [exact H|]. apply IH, zinsert_sorted, H.
Qed.

Lemma sorted_le_lt (l : list Z) : Sorted Z.le l -> NoDup l -> Sorted Z.lt l.
Proof.
  induction 1 as [|a l Hs IH Hd]; intros Hn; [constructor|]. inversion Hn; subst.
  constructor; [auto|]. destruct Hd; constructor. assert (a <> b) by (intros ->; apply H1; now left). lia.
Qed.

Lemma in_done_snoc {A} (P : A -> Prop) done it :
  ~ P it -> ((exists x, In x (done ++ [it]) /\ P x) <-> exists x, In x done /\ P x).
Proof.
  intros Hn. split; intros (x & Hx & Px).
  - apply in_app_iff in Hx as [Hx|[<-|[]]]; [now exists x|contradiction].
  - exists x. rewrite in_app_iff. auto.
Qed.

Lemma level_group_step_inv done grouped it :
  level_groups_inv done grouped -> level_groups_inv (done ++ [it]) (level_group_step grouped it).
Proof.
  intros [Hn [Hg Hk]]. unfold level_group_step.
  destruct (item_ordinal it) as [o|] eqn:Eo.
  2: { split; [exact Hn|split].
       - intros o g Hin. destruct (Hg o g Hin) as (H1 & H2 & H3 & H4).
         split; [exact H1|split; [exact H2|split; [exact H3|]]]. intros st. rewrite H4.
         symmetry. apply (in_done_snoc (fun x => item_ordinal x = Some o /\ item_stem x = st)).
         intros [E _]. congruence.
       - intros o. rewrite Hk. symmetry. apply (in_done_snoc (fun x => item_ordinal x = Some o)). congruence. }
  set (g := match zget o grouped with Some g => g | None => new_group o end).
  assert (Hgo : group_ordinal g = o /\ NoDup (group_stems g) /\ group_category g <> ""
                /\ forall st, In st (group_stems g) <-> exists it', In it' done /\ item_ordinal it' = Some o /\ item_stem it' = st).
  { unfold g. destruct (zget o grouped) as [g0|] eqn:Z0.
    - apply Hg, zget_in, Z0.
    - cbn. split; [reflexivity|split; [constructor|split; [discriminate|]]].
      intros st. split; [intros []|]. intros (it' & Hi & Ho & _).
      assert (In o (map fst grouped)) as Hin by (apply Hk; eauto).
      apply zget_keys in Hin. contradiction. }
  destruct Hgo as (G1 & G2 & G3 & G4).
  assert (Hn' : NoDup (map fst (zset o (update_group it g) grouped))) by (apply nodup_zset, Hn).
  split; [exact Hn'|split].
  - intros o' g' Hin. apply in_zget in Hin; [|exact Hn']. rewrite zget_zset in Hin.
    destruct (o' =? o)%Z eqn:E.
    + apply Z.eqb_eq in E; subst o'. injection Hin as <-. cbn [group_ordinal group_stems group_category update_group].
      split; [exact G1|split; [apply nodup_sadd, G2|split]].
      * destruct (negb (String.eqb (item_category it) "") && negb (String.eqb (item_category it) "unspecified")) eqn:C; [|exact G3].
        apply andb_true_iff in C as [C _]. apply negb_true_iff, String.eqb_neq in C. exact C.
      * intros st. rewrite in_sadd, G4. split.
        -- intros [(it' & Hi & Ho & Hs)| ->]; [exists it'; rewrite in_app_iff; auto|exists it; rewrite in_app_iff; cbn; auto].
        -- intros (it' & Hi & Ho & Hs). apply in_app_iff in Hi as [Hi|[<-|[]]]; [left; eauto|right; auto].
    + apply zget_in in Hin. destruct (Hg o' g' Hin) as (H1 & H2 & H3 & H4).
      split; [exact H1|split; [exact H2|split; [exact H3|]]]. intros st. rewrite H4.
      symmetry. apply (in_done_snoc (fun x => item_ordinal x = Some o' /\ item_stem x = st)).
      intros [E' _]. rewrite Eo in E'. injection E' as ->. now rewrite Z.eqb_refl in E.
  - intros o'. rewrite <- zget_keys, zget_zset. destruct (o' =? o)%Z eqn:E.
    + apply Z.eqb_eq in E; subst o'. split; [intros _; exists it; rewrite in_app_iff; cbn; auto|discriminate].
    + rewrite zget_keys, Hk. symmetry. apply (in_done_snoc (fun x => item_ordinal x = Some o')).
      intros E'. rewrite Eo in E'. injection E' as ->. now rewrite Z.eqb_refl in E.
Qed.

Lemma level_groups_fold items done grouped :
  level_groups_inv done grouped -> level_groups_inv (done ++ items) (fold_left level_group_step items grouped).
Proof.
  revert done grouped. induction items as [|it items IH]; intros done grouped H; cbn.
  - now rewrite app_nil_r.
  - replace (done ++ it :: items) with ((done ++ [it]) ++ items) by now rewrite <- app_assoc.
    apply IH, level_group_step_inv, H.
Qed.

Lemma level_groups_inv_nil : level_groups_inv [] [].
Proof.
  split; [constructor|split]; [intros o g []|]. intros o. split; [intros []|intros (it & [] & _)].
Qed.

Lemma address_ids_app r l1 l2 : address_ids r (l1 ++ l2) = address_ids r l1 ++ address_ids r l2.
Proof. unfold address_ids. apply flat_map_app. Qed.

Lemma address_step_inv r acc x :
  snd acc = address_ids r (fst acc) -> NoDup (snd acc) ->
  snd (address_step r acc x) = address_ids r (fst (address_step r acc x)) /\ NoDup (snd (address_step r acc x)).
Proof.
  destruct acc as [out known]; cbn [fst snd]. intros Hk Hn.
  unfold address_step. destruct x as [| | | | | |f]; cbn [fst snd]; try (split; assumption).
  destruct (address_id r (clean_feature f)) as [a|] eqn:Ea.
  - destruct (smem a known) eqn:Em; cbn [fst snd]; [split; assumption|].
    unfold sadd. rewrite Em. rewrite address_ids_app, <- Hk. cbn. rewrite Ea. split; [reflexivity|].
    apply NoDup_app; [exact Hn|repeat constructor; auto|].
    intros y Hy [->|[]]. assert (smem y known = true) by (apply existsb_exists; exists y; split; [exact Hy|apply String.eqb_refl]).
    congruence.
  - cbn [fst snd]. rewrite address_ids_app, <- Hk. cbn. rewrite Ea, app_nil_r. split; [reflexivity|exact Hn].
Qed.

Lemma address_ids_inline r l :
  flat_map (fun c => match get "id" c with
                     | Some i => if truthy i then [py_str r i] else []
                     | None => []
                     end) l = address_ids r l.
Proof.
  unfold address_ids, address_id. induction l as [|c l IH]; cbn; [reflexivity|]. rewrite IH.
  destruct (get "id" c) as [i|]; [destruct (truthy i)|]; reflexivity.
Qed.

Lemma address_fold r F l acc :
  (forall a x, F a x = address_step r a x) ->
  snd acc = address_ids r (fst acc) -> NoDup (snd acc) ->
  snd (fold_left F l acc) = address_ids r (fst (fold_left F l acc)) /\ NoDup (snd (fold_left F l acc)).
Proof.
  intros HF. revert acc. induction l as [|x l IH]; intros acc H1 H2; cbn; [split; assumption|].
  rewrite HF. destruct (address_step_inv r acc x H1 H2) as [H3 H4]. apply IH; assumption.
Qed.

End GeneratorMoreFacts.

Module GeneratorExtras.
Import Chars Py Wizard Generator GeneratorText GeneratorMoreFacts.
Local Open Scope string_scope.
Local Open Scope list_scope.

(** [_parse_list] returns [None] or a non-empty list whose items are
    non-empty and carry no surrounding whitespace. *)
Theorem parse_list_tokens (py_repr : pyval -> string) (value : pyval) :
  match parse_list py_repr value with
  | None => True
  | Some l => l <> [] /\ Forall (fun t => t <> "" /\ strip t = t) l
  end.
Proof.
  destruct value as [| b | z | q | str | items | d]; cbn [parse_list]; try exact I.
  1-4,6: match goal with |- context [String.eqb (strip ?t) ""] =>
           destruct (String.eqb (strip t) "") eqn:E; [exact I|];
           apply String.eqb_neq in E;
           pose proof (tokens_ok (fun x => x) (split_seps (strip t))) as HT; cbv beta in HT;
           destruct (map strip (filter nonblank (split_seps (strip t)))) as [|t1 ts] eqn:EP;
           [split; [discriminate|constructor; [split; [exact E|apply strip_idem]|constructor]]|
            split; [discriminate|exact HT]]
         end.
  pose proof (tokens_ok (py_str py_repr) items) as HT.
  destruct (map (fun item => strip (py_str py_repr item)) (filter (fun item => nonblank (py_str py_repr item)) items)) eqn:EP;
    [exact I|split; [discriminate|exact HT]].
Qed.

(** A value that is not [None] nor a list, whose text holds no [;], [,] or
    [|] and is not blank, is parsed by [_parse_list] into the one-item
    list of its stripped text. *)
Theorem parse_list_plain_text (py_repr : pyval -> string) (value : pyval) :
  value <> PNone -> (forall items, value <> PList items) ->
  strip (py_str py_repr value) <> "" ->
  forallb (fun c => negb (is_sep c)) (list_ascii_of_string (strip (py_str py_repr value))) = true ->
  parse_list py_repr value = Some [strip (py_str py_repr value)].
Proof.
  intros H1 H2 H3 H4.
  assert (Hs : split_seps (strip (py_str py_repr value)) = [strip (py_str py_repr value)]).
  { unfold split_seps. rewrite split_no_sep by exact H4. cbn. now rewrite string_of_list_ascii_of_string. }
  assert (Hp : map strip (filter nonblank (split_seps (strip (py_str py_repr value)))) = [strip (py_str py_repr value)]).
  { rewrite Hs. cbn. rewrite strip_nonblank by exact H3. cbn. now rewrite strip_idem. }
  apply String.eqb_neq in H3.
  destruct value as [| b | z | q | str | items | d]; cbn [parse_list];
    [congruence| | | | |exfalso; exact (H2 items eq_refl)|];
    rewrite H3; rewrite Hp; reflexivity.
Qed.

Lemma parse_list_plain_text_witness :
  parse_list (fun _ => "") (PStr " wheelchair ") = Some ["wheelchair"].
Proof.
  apply (parse_list_plain_text (fun _ => "") (PStr " wheelchair ")); [discriminate|intros items; discriminate|vm_compute; discriminate|reflexivity].
Defined.


(** A text [_normalize_text] returns is non-empty, has no surrounding
    whitespace, and is returned unchanged when normalized again. *)
Theorem normalize_text_idempotent (py_repr : pyval -> string) (value : pyval) (t : string) :
  normalize_text py_repr value = Some t ->
  t <> "" /\ strip t = t /\ normalize_text py_repr (PStr t) = Some t.
Proof.
  intros H.
  assert (K : strip (py_str py_repr value) <> "" /\ t = strip (py_str py_repr value)).
  { destruct value; cbn [normalize_text] in H; try discriminate;
    match type of H with context [String.eqb ?x ""] =>
      destruct (String.eqb x "") eqn:E; [discriminate|]; injection H as <-; apply String.eqb_neq in E; cbn [py_str]; auto end. }
  destruct K as [K ->]. split; [exact K|split; [apply strip_idem|]].
  cbn [normalize_text py_str]. rewrite strip_idem. apply String.eqb_neq in K. now rewrite K.
Qed.

Lemma normalize_text_idempotent_witness :
  normalize_text (fun _ => "") (PStr "  oak ") = Some "oak"
  /\ ("oak" <> "" /\ strip "oak" = "oak" /\ normalize_text (fun _ => "") (PStr "oak") = Some "oak").
Proof.
  split; [reflexivity|]. apply (normalize_text_idempotent (fun _ => "") (PStr "  oak ") "oak"). reflexivity.
Defined.

(** [_clean_feature] changes only the [properties] of a feature: when they
    are a dict, it drops exactly the keys that start with [_] and keeps the
    other keys with their values; otherwise the feature is returned as
    is. Cleaning a cleaned feature changes nothing. *)
Theorem clean_feature_private_keys (feature : dict pyval) :
  (forall k, k <> "properties" -> get k (clean_feature feature) = get k feature)
  /\ match get "properties" feature with
     | Some (PDict p) =>
         exists p', get "properties" (clean_feature feature) = Some (PDict p')
                    /\ forall k, get k p' = if startswith "_" k then None else get k p
     | _ => clean_feature feature = feature
     end
  /\ clean_feature (clean_feature feature) = clean_feature feature.
Proof.
  destruct (get "properties" feature) as [[| | | | | |p]|] eqn:E;
    try (assert (Hc : clean_feature feature = feature) by (unfold clean_feature; rewrite E; reflexivity);
         rewrite !Hc; split; [reflexivity|split; reflexivity]).
  assert (Hc : clean_feature feature
               = set "properties" (PDict (filter (fun kv => negb (startswith "_" (fst kv))) p)) feature)
    by (unfold clean_feature; rewrite E; reflexivity).
  rewrite Hc.
  split; [|split].
  - intros k Hk. apply AutofixFacts.get_set_other, Hk.
  - eexists. split; [apply AutofixFacts.get_set_same|]. intros k.
    rewrite (get_filter_key (fun k => negb (startswith "_" k))). now destruct (startswith "_" k).
  - unfold clean_feature at 1. rewrite AutofixFacts.get_set_same, set_set_over.
    rewrite SessionFacts.filter_filter'. f_equal. f_equal. apply filter_ext. intros x. apply andb_diag.
Qed.

(** [_collect_level_groups] gives one group per ordinal that some level item
    has, each group under its own ordinal, with a non-empty category and
    the distinct stems of exactly the items at that ordinal; sorting its
    items, as [generate_feature_collection] does, lists every group once
    in strictly ascending ordinal order. *)
Theorem collect_level_groups_spec (session : SessionRecord) :
  let items := match level_items (wizard session) with
               | [] => level_items_from_files (files session)
               | l => l
               end in
  let groups := collect_level_groups session in
  (forall o, In o (map fst groups) <-> exists it, In it items /\ item_ordinal it = Some o)
  /\ (forall o g, In (o, g) groups ->
        group_ordinal g = o /\ NoDup (group_stems g) /\ group_category g <> ""
        /\ forall st, In st (group_stems g) <-> exists it, In it items /\ item_ordinal it = Some o /\ item_stem it = st)
  /\ Sorted Z.lt (map fst (zsort groups)) /\ Permutation (zsort groups) groups.
Proof.
  cbv zeta.
  assert (H := level_groups_fold (match level_items (wizard session) with
                                  | [] => level_items_from_files (files session)
                                  | l => l
                                  end) [] [] level_groups_inv_nil).
  change (fold_left level_group_step
            (match level_items (wizard session) with [] => level_items_from_files (files session) | l => l end)
            []) with (collect_level_groups session) in H.
  cbn [app] in H. destruct H as [Hn [Hg Hk]].
  split; [exact Hk|split; [exact Hg|split]].
  - apply sorted_le_lt; [apply zsort_sorted|].
    apply (Permutation_NoDup (l := map fst (collect_level_groups session))); [|exact Hn].
    apply Permutation_map, Permutation_sym, zsort_perm.
  - apply zsort_perm.
Qed.

(** [_collect_address_features] never returns two addresses with the same
    id: a building address whose id is already known is skipped. *)
Theorem collect_address_features_distinct_ids (draw : nat -> string) (py_repr : pyval -> string)
    (w : WizardState) (n : nat) :
  NoDup (flat_map (fun v => match v with PDict c => address_ids py_repr [c] | _ => [] end)
                  (fst (fst (collect_address_features draw py_repr w n)))).
Proof.
  unfold collect_address_features.
  destruct (match project w, venue_address_feature w with
            | Some p, None => _ | _, _ => _ end) as [vaf n1].
  destruct (match vaf with Some f => _ | None => _ end) as [addresses vid] eqn:EA.
  match goal with |- context [fold_left ?F ?l ?a] =>
    pose proof (address_fold py_repr F l a (fun _ _ => eq_refl)) as H;
    destruct (fold_left F l a) as [out known] eqn:EF end.
  cbn [fst snd] in H |- *.
  assert (Ha : NoDup (address_ids py_repr addresses)).
  { destruct vaf as [f|]; injection EA as <- _; cbn; [|constructor].
    destruct (address_id py_repr (clean_feature f)); cbn; repeat constructor; auto. }
  destruct H as [H1 H2]; [apply address_ids_inline|rewrite address_ids_inline; exact Ha|].
  replace (flat_map _ (map PDict out)) with (address_ids py_repr out); [now rewrite <- H1|].
  clear. induction out as [|c out IH]; [reflexivity|]. cbn [map flat_map].
  rewrite <- IH. exact (address_ids_app py_repr [c] out).
Qed.

End GeneratorExtras.

Module PrecisionFacts.
Import Py Validator.







End PrecisionFacts.

Module CompositionExtras.
Import Chars Py Validator Generator GeneratorMoreFacts PrecisionFacts.
Local Open Scope string_scope.



(** A label dict built by [wrap_labels] from a non-blank text, with a blank
    language or one that is a valid language tag, passes the validator's
    [_labels_ok]. *)
Theorem wrap_labels_pass_labels_ok (text language : string) :
  strip text <> "" -> (strip language = "" \/ label_key_ok (strip language) = true) ->
  labels_ok (Some (labels_pv (wrap_labels (Some text) language))) = true.
Proof.
  intros Ht Hl. cbn [wrap_labels].
  assert (Et : String.eqb (strip text) "" = false) by now apply String.eqb_neq.
  rewrite Et. unfold labels_ok, labels_pv. cbn [existsb fst snd].
  rewrite strip_idem, Et. cbn [negb]. rewrite !orb_false_r, andb_true_r.
  destruct (String.eqb (strip language) "") eqn:El; [reflexivity|].
  destruct Hl as [Hl|Hl]; [apply String.eqb_neq in El; contradiction|exact Hl].
Qed.

Lemma wrap_labels_pass_labels_ok_witness :
  labels_ok (Some (labels_pv (wrap_labels (Some " Ground floor ") " ja ")))  = true.
Proof.
  apply wrap_labels_pass_labels_ok; [vm_compute; discriminate|right; reflexivity].
Defined.

End CompositionExtras.
